(** * Verification of the git log parser of opengist

    Shallow embedding of [parseLog] and [parseHunks] of package [git]
    (the truncation-aware variant, the one that calls [parseHunks]), with the
    part of [bufio.Reader] they use, followed by the properties of the
    specification that were checked against it. *)

From Stdlib Require Import String Ascii List ZArith Lia Bool Arith.
Import ListNotations.

Local Open Scope string_scope.

(** ** Results of a Go computation *)

(** A run-time panic of the Go program. *)
Inductive panic : Type :=
| IndexOutOfRange      (* s[i] with i >= len(s) *)
| SliceOutOfRange      (* s[i:j] with i > j or j > len(s) *)
| NilDereference.      (* field access through a nil pointer *)

(** What a call evaluates to: a value, a panic, or [OutOfFuel] when the loop
    bound given to the model was too small (shown below never to happen for
    the bound [parseLog] uses). *)
Inductive outcome (A : Type) : Type :=
| Ret (a : A)
| Panic (p : panic)
| OutOfFuel.

Arguments Ret {A} a.
Arguments Panic {A} p.
Arguments OutOfFuel {A}.

Definition bind {A B : Type} (m : outcome A) (k : A -> outcome B) : outcome B :=
  match m with
  | Ret a => k a
  | Panic p => Panic p
  | OutOfFuel => OutOfFuel
  end.

Notation "x <- m ;; k" := (bind m (fun x => k))
  (at level 61, m at next level, right associativity).

(** ** Errors *)

(** The [error] values that flow through the parser: [io.EOF], an I/O error of
    the underlying stream, and the wrapper built by
    [fmt.Errorf("unable to ReadLine: %w", err)]. *)
Inductive error : Type :=
| EOF
| ReadError (code : nat)
| UnableToReadLine (cause : error).

Definition isEOF (e : error) : bool :=
  match e with EOF => true | _ => false end.

(** ** Byte strings *)

Definition LF : ascii := "010"%char.
Definition CR : ascii := "013"%char.

Definition len (s : string) : nat := String.length s.

(** [s[lo:hi]]; Go panics unless [lo <= hi <= len(s)]. *)
Definition slice (s : string) (lo hi : nat) : outcome string :=
  if ((lo <=? hi) && (hi <=? len s))%nat
  then Ret (substring lo (hi - lo) s)
  else Panic SliceOutOfRange.

(** [s[lo:]] *)
Definition sliceFrom (s : string) (lo : nat) : outcome string :=
  slice s lo (len s).

Definition HasPrefix (s p : string) : bool := prefix p s.

(** Last byte of a string, if any. *)
Fixpoint lastByte (s : string) : option ascii :=
  match s with
  | EmptyString => None
  | String c EmptyString => Some c
  | String _ s' => lastByte s'
  end.

(** All bytes but the last. *)
Fixpoint dropLast (s : string) : string :=
  match s with
  | EmptyString => EmptyString
  | String _ EmptyString => EmptyString
  | String c s' => String c (dropLast s')
  end.

(** ** The buffered reader

    The source behind [bufio.Reader] delivers the bytes [pending] and from
    then on answers every read with the condition [fin] ([EOF] for a clean
    end, another error for a failed read); it reports [fin] only on a read
    that yields no bytes. [capacity] is the size of the reader's buffer. *)
Record Reader : Type := mkReader {
  pending : string;
  fin : error;
  capacity : nat
}.

Definition withPending (r : Reader) (s : string) : Reader :=
  {| pending := s; fin := fin r; capacity := capacity r |}.

(** [bufio.NewReaderSize(out, size)] for a stream [out] that is not itself a
    [bufio.Reader]: a new reader whose buffer has [size] bytes, and at least
    16. *)
Definition minReadBufferSize : Z := 16.

Definition NewReaderSize (data : string) (end_ : error) (size : Z) : Reader :=
  {| pending := data;
     fin := end_;
     capacity := Z.to_nat (if (size <? minReadBufferSize)%Z then minReadBufferSize else size) |}.

(** Cut [s] after its first line feed: the line with its line feed, and the
    rest. *)
Fixpoint cutLine (s : string) : option (string * string) :=
  match s with
  | EmptyString => None
  | String c s' =>
      if Ascii.eqb c LF then Some (String c EmptyString, s')
      else match cutLine s' with
           | Some (l, rest) => Some (String c l, rest)
           | None => None
           end
  end.

(** [input.ReadString('\n')]: the bytes up to and including the first line
    feed; when the stream ends first, what was left and the end condition. *)
Definition ReadString (r : Reader) : string * option error * Reader :=
  match cutLine (pending r) with
  | Some (l, rest) => (l, None, withPending r rest)
  | None => (pending r, Some (fin r), withPending r EmptyString)
  end.

(** How a scan of the buffer for a line feed ends. *)
Inductive scanEnd : Type :=
| Found          (* a line feed within the buffer *)
| BufferFull     (* [capacity] bytes and no line feed: ErrBufferFull *)
| Ended.         (* the stream ended before either *)

(** [ReadSlice('\n')] over a buffer of [n] bytes. *)
Fixpoint scan (n : nat) (s : string) : string * scanEnd * string :=
  match n with
  | O => (EmptyString, BufferFull, s)
  | S n' =>
      match s with
      | EmptyString => (EmptyString, Ended, EmptyString)
      | String c s' =>
          if Ascii.eqb c LF then (String c EmptyString, Found, s')
          else let '(l, e, rest) := scan n' s' in (String c l, e, rest)
      end
  end.

(** [input.ReadLine()]: one line without its end-of-line bytes, or, when the
    line does not fit the buffer, its next fragment with [isPrefix] set. A
    carriage return that ends a full buffer is put back. An unterminated last
    line is returned without error; the end condition comes with the next
    call. *)
Definition ReadLine (r : Reader) : string * bool * option error * Reader :=
  let '(l, e, rest) := scan (capacity r) (pending r) in
  match e with
  | BufferFull =>
      match lastByte l with
      | Some c =>
          if Ascii.eqb c CR
          then (dropLast l, true, None, withPending r (String CR rest))
          else (l, true, None, withPending r rest)
      | None => (l, true, None, withPending r rest)
      end
  | Ended =>
      match l with
      | EmptyString => (EmptyString, false, Some (fin r), withPending r rest)
      | _ => (l, false, None, withPending r rest)
      end
  | Found =>
      let l1 := dropLast l in
      match lastByte l1 with
      | Some c => if Ascii.eqb c CR then (dropLast l1, false, None, withPending r rest)
                  else (l1, false, None, withPending r rest)
      | None => (l1, false, None, withPending r rest)
      end
  end.

(** [io.Copy(io.Discard, input)]: everything left is read and dropped, and the
    error of the copy is ignored. *)
Definition discardAll (r : Reader) : Reader := withPending r EmptyString.

(** ** Data model *)

Record File : Type := mkFile {
  Filename : string;
  Size : Z;
  HumanSize : string;
  OldFilename : string;
  Content : string;
  Truncated : bool;
  IsCreated : bool;
  IsDeleted : bool
}.

Record Commit : Type := mkCommit {
  Hash : string;
  AuthorName : string;
  AuthorEmail : string;
  Timestamp : string;
  Changed : string;
  Files : list File
}.

(** [File{}] *)
Definition emptyFile : File :=
  mkFile EmptyString 0 EmptyString EmptyString EmptyString false false false.

Definition setFilename (f : File) (s : string) : File :=
  mkFile s (Size f) (HumanSize f) (OldFilename f) (Content f) (Truncated f) (IsCreated f) (IsDeleted f).
Definition setOldFilename (f : File) (s : string) : File :=
  mkFile (Filename f) (Size f) (HumanSize f) s (Content f) (Truncated f) (IsCreated f) (IsDeleted f).
Definition setContent (f : File) (s : string) : File :=
  mkFile (Filename f) (Size f) (HumanSize f) (OldFilename f) s (Truncated f) (IsCreated f) (IsDeleted f).
Definition setTruncated (f : File) (b : bool) : File :=
  mkFile (Filename f) (Size f) (HumanSize f) (OldFilename f) (Content f) b (IsCreated f) (IsDeleted f).
Definition setIsCreated (f : File) (b : bool) : File :=
  mkFile (Filename f) (Size f) (HumanSize f) (OldFilename f) (Content f) (Truncated f) b (IsDeleted f).
Definition setIsDeleted (f : File) (b : bool) : File :=
  mkFile (Filename f) (Size f) (HumanSize f) (OldFilename f) (Content f) (Truncated f) (IsCreated f) b.

Definition setAuthorName (c : Commit) (s : string) : Commit :=
  mkCommit (Hash c) s (AuthorEmail c) (Timestamp c) (Changed c) (Files c).
Definition setAuthorEmail (c : Commit) (s : string) : Commit :=
  mkCommit (Hash c) (AuthorName c) s (Timestamp c) (Changed c) (Files c).
Definition setTimestamp (c : Commit) (s : string) : Commit :=
  mkCommit (Hash c) (AuthorName c) (AuthorEmail c) s (Changed c) (Files c).
Definition setFiles (c : Commit) (fs : list File) : Commit :=
  mkCommit (Hash c) (AuthorName c) (AuthorEmail c) (Timestamp c) (Changed c) fs.

(** ** Parser state

    [commits] holds pointers ([[]*Commit]) and [currentCommit] is a pointer
    that may already be in [commits], so the commits live in a store: a
    pointer is an index into [heap], [None] is [nil]. *)
Record state : Type := mkState {
  commits : list (option nat);
  heap : list Commit;
  currentCommit : option nat;
  headerParsed : bool
}.

Definition initialState : state := mkState [] [] None false.

Definition setHeaderParsed (st : state) (b : bool) : state :=
  mkState (commits st) (heap st) (currentCommit st) b.

(** Replace the [n]-th element of a list. *)
Fixpoint update {A : Type} (n : nat) (x : A) (l : list A) : list A :=
  match l with
  | [] => []
  | y :: l' => match n with
               | O => x :: l'
               | S n' => y :: update n' x l'
               end
  end.

(** [*currentCommit]; panics on [nil]. (An index outside the store cannot
    arise: pointers are only made by [newCommit].) *)
Definition loadCommit (st : state) : outcome Commit :=
  match currentCommit st with
  | None => Panic NilDereference
  | Some p => match nth_error (heap st) p with
              | Some c => Ret c
              | None => Panic NilDereference
              end
  end.

(** [*currentCommit = c] *)
Definition storeCommit (st : state) (c : Commit) : state :=
  match currentCommit st with
  | None => st
  | Some p => mkState (commits st) (update p c (heap st)) (currentCommit st) (headerParsed st)
  end.

(** [currentCommit = &Commit{Hash: hash, Files: []File{}}] *)
Definition newCommit (st : state) (hash : string) : state :=
  mkState (commits st)
          (heap st ++ [mkCommit hash EmptyString EmptyString EmptyString EmptyString []])
          (Some (List.length (heap st)))
          (headerParsed st).

(** [commits = append(commits, currentCommit)] *)
Definition appendCommit (st : state) : state :=
  mkState (commits st ++ [currentCommit st]) (heap st) (currentCommit st) (headerParsed st).

(** [currentCommit.Files = append(currentCommit.Files, *currentFile)] *)
Definition appendFile (st : state) (f : File) : outcome state :=
  c <- loadCommit st ;;
  Ret (storeCommit st (setFiles c (Files c ++ [f]))).

(** ** parseHunks *)

(** [for isFragment { _, isFragment, err = input.ReadLine(); ... }]: the
    fragments that remain of an oversized line are read and dropped; stops at
    the first read error. The three loops of this shape in the source differ
    only in what they do with the error. *)
Fixpoint discardFragments (fuel : nat) (isFragment : bool) (input : Reader)
  : outcome (option error * Reader) :=
  if isFragment then
    match fuel with
    | O => OutOfFuel
    | S fuel' =>
        let '(_, isFragment', err, input') := ReadLine input in
        match err with
        | Some e => Ret (Some e, input')
        | None => discardFragments fuel' isFragment' input'
        end
    end
  else Ret (None, input).

(** What [parseHunks] returns, with the file it updated through its pointer
    and the reader where it stopped. *)
Record hunks : Type := mkHunks {
  hLineBytes : string;
  hIsFragment : bool;
  hErr : option error;
  hFile : File;
  hInput : Reader
}.

(** [var currFileLineCount int]: declared, compared with the cap, and never
    assigned. *)
Definition currFileLineCount : Z := 0.

(** The [for] loop of [parseHunks]; [isFragment] is the named result the loop
    carries from one iteration to the next. *)
Fixpoint parseHunksLoop (fuel : nat) (currentFile : File) (maxBytes : Z)
  (isFragment : bool) (input : Reader) : outcome hunks :=
  match fuel with
  | O => OutOfFuel
  | S fuel' =>
      (* for isFragment { currentFile.Truncated = true; ... } *)
      let currentFile := if isFragment then setTruncated currentFile true else currentFile in
      d <- discardFragments fuel' isFragment input ;;
      match d with
      | (Some e, input) => Ret (mkHunks EmptyString false (Some e) currentFile input)
      | (None, input) =>
          let '(lineBytes, isFragment, err, input) := ReadLine input in
          match err with
          | Some e => Ret (mkHunks lineBytes false (Some e) currentFile input)
          | None =>
              match lineBytes with
              | EmptyString => Ret (mkHunks lineBytes false None currentFile input)
              | String c _ =>
                  if Ascii.eqb c "d"%char then
                    (* End of hunks *)
                    Ret (mkHunks lineBytes isFragment None currentFile input)
                  else if ((maxBytes >? -1) && (currFileLineCount >=? maxBytes))%Z then
                    parseHunksLoop fuel' (setTruncated currentFile true) maxBytes isFragment input
                  else
                    let line := lineBytes in
                    let currentFile := if isFragment then setTruncated currentFile true else currentFile in
                    d <- discardFragments fuel' isFragment input ;;
                    match d with
                    | (Some e, input) =>
                        Ret (mkHunks EmptyString false (Some (UnableToReadLine e)) currentFile input)
                    | (None, input) =>
                        parseHunksLoop fuel'
                          (setContent currentFile (Content currentFile ++ line ++ String LF EmptyString))
                          maxBytes false input
                    end
              end
          end
      end
  end.

Definition parseHunks (fuel : nat) (currentFile : File) (maxBytes : Z) (input : Reader)
  : outcome hunks :=
  parseHunksLoop fuel currentFile maxBytes false input.

(** ** parseLog *)

(** How control leaves the loop over the header lines of one file. *)
Inductive fileExit : Type :=
| ReturnErr (st : state) (e : error)          (* return commits, err *)
| BreakLoopDiff (st : state) (input : Reader) (* break loopDiff *)
| BreakCurrFileLoop (st : state) (input : Reader).

(** How control leaves the loop over the files of one commit. *)
Inductive diffExit : Type :=
| DiffReturn (st : state) (e : error)
| DiffBreak (st : state) (input : Reader).

(** [currFileLoop]: the header lines of one file, then its hunks. The writes
    to the string builder [sb], the reassembled [line] and the diagnostic
    [fmt.Print] have no effect on the result and are left out; the reads of
    the reassembling loop are kept. *)
Fixpoint currFileLoop (fuel : nat) (maxBytes : Z) (st : state)
  (currentFile : File) (parseRename : bool) (input : Reader) : outcome fileExit :=
  match fuel with
  | O => OutOfFuel
  | S fuel' =>
      let '(line, err, input) := ReadString input in
      match err with
      | Some e =>
          if isEOF e then Ret (BreakLoopDiff (setHeaderParsed st false) input)
          else Ret (ReturnErr st e)
      | None =>
          if String.eqb line (String LF EmptyString) then
            st <- appendFile st currentFile ;;
            Ret (BreakLoopDiff (setHeaderParsed st false) input)
          else if HasPrefix line "diff --git" then
            Ret (BreakCurrFileLoop st input)
          else if HasPrefix line "old mode" then
            currFileLoop fuel' maxBytes st currentFile parseRename input
          else if HasPrefix line "new mode" then
            currFileLoop fuel' maxBytes st currentFile parseRename input
          else if HasPrefix line "index" then
            currFileLoop fuel' maxBytes st currentFile parseRename input
          else if HasPrefix line "similarity index" then
            currFileLoop fuel' maxBytes st currentFile parseRename input
          else if HasPrefix line "dissimilarity index" then
            currFileLoop fuel' maxBytes st currentFile parseRename input
          else if HasPrefix line "rename from " then
            name <- slice line 11 (len line - 1) ;;
            currFileLoop fuel' maxBytes st (setOldFilename currentFile name) parseRename input
          else if HasPrefix line "rename to " then
            name <- slice line 9 (len line - 1) ;;
            currFileLoop fuel' maxBytes st (setFilename currentFile name) false input
          else if HasPrefix line "copy from " then
            name <- slice line 9 (len line - 1) ;;
            currFileLoop fuel' maxBytes st (setOldFilename currentFile name) parseRename input
          else if HasPrefix line "copy to " then
            name <- slice line 7 (len line - 1) ;;
            currFileLoop fuel' maxBytes st (setFilename currentFile name) false input
          else if HasPrefix line "new file" then
            currFileLoop fuel' maxBytes st (setIsCreated currentFile true) parseRename input
          else if HasPrefix line "deleted file" then
            currFileLoop fuel' maxBytes st (setIsDeleted currentFile true) parseRename input
          else if HasPrefix line "--- " then
            name <- slice line 4 (len line - 1) ;;
            currentFile <-
              (if parseRename && IsDeleted currentFile then
                 n <- sliceFrom name 2 ;; Ret (setFilename currentFile n)
               else if parseRename && HasPrefix name "a/" then
                 n <- sliceFrom name 2 ;; Ret (setOldFilename currentFile n)
               else Ret currentFile) ;;
            currFileLoop fuel' maxBytes st currentFile parseRename input
          else if HasPrefix line "+++ " then
            name <- slice line 4 (len line - 1) ;;
            currentFile <-
              (if parseRename && HasPrefix name "b/" then
                 n <- sliceFrom name 2 ;; Ret (setFilename currentFile n)
               else Ret currentFile) ;;
            (* header is finally parsed *)
            h <- parseHunks fuel' currentFile maxBytes input ;;
            match hErr h with
            | Some e =>
                if isEOF e then
                  (* EOF, we are done with this file *)
                  st <- appendFile st (hFile h) ;;
                  Ret (BreakLoopDiff (setHeaderParsed st false) (hInput h))
                else Ret (ReturnErr st e)
            | None =>
                st <- appendFile st (hFile h) ;;
                if String.eqb (hLineBytes h) EmptyString then
                  Ret (BreakLoopDiff (setHeaderParsed st false) (hInput h))
                else
                  d <- discardFragments fuel' (hIsFragment h) (hInput h) ;;
                  match d with
                  | (Some e, _) => Ret (ReturnErr st (UnableToReadLine e))
                  | (None, input) => Ret (BreakCurrFileLoop st input)
                  end
            end
          else
            currFileLoop fuel' maxBytes st currentFile parseRename input
      end
  end.

(** [len(currentCommit.Files)] *)
Definition lenFiles (st : state) : outcome nat :=
  c <- loadCommit st ;; Ret (List.length (Files c)).

(** [loopDiff]: the files of one commit, up to [maxFiles] of them. *)
Fixpoint loopDiff (fuel : nat) (maxFiles maxBytes : Z) (st : state) (input : Reader)
  : outcome diffExit :=
  match fuel with
  | O => OutOfFuel
  | S fuel' =>
      capped <-
        (if (maxFiles >? -1)%Z then
           n <- lenFiles st ;; Ret (Z.of_nat n >=? maxFiles)%Z
         else Ret false) ;;
      if capped then
        Ret (DiffBreak (setHeaderParsed st false) (discardAll input))
      else
        x <- currFileLoop fuel' maxBytes st emptyFile true input ;;
        match x with
        | ReturnErr st e => Ret (DiffReturn st e)
        | BreakLoopDiff st input => Ret (DiffBreak st input)
        | BreakCurrFileLoop st input => loopDiff fuel' maxFiles maxBytes st input
        end
  end.

(** The line without its last byte when that byte is a line feed or a
    carriage return. *)
Definition chomp (line : string) : string :=
  match lastByte line with
  | Some c => if Ascii.eqb c LF || Ascii.eqb c CR then dropLast line else line
  | None => line
  end.

(** [currentCommit.<field> = line[2:]] *)
Definition assignField (st : state) (set : Commit -> string -> Commit) (line : string)
  : outcome state :=
  v <- sliceFrom line 2 ;;
  c <- loadCommit st ;;
  Ret (storeCommit st (set c v)).

(** [loopCommits] *)
Fixpoint loopCommits (fuel : nat) (maxFiles maxBytes : Z) (st : state) (input : Reader)
  : outcome (state * option error) :=
  match fuel with
  | O => OutOfFuel
  | S fuel' =>
      let '(line, err, input) := ReadString input in
      match err with
      | Some e => if isEOF e then Ret (st, None) else Ret (st, Some e)
      | None =>
          let line := chomp line in
          (* switch line[0] *)
          match line with
          | EmptyString => Panic IndexOutOfRange
          | String c _ =>
              if Ascii.eqb c "c"%char then
                let st := if headerParsed st then appendCommit st else st in
                hash <- sliceFrom line 2 ;;
                loopCommits fuel' maxFiles maxBytes (newCommit st hash) input
              else if Ascii.eqb c "a"%char then
                st <- assignField (setHeaderParsed st true) setAuthorName line ;;
                loopCommits fuel' maxFiles maxBytes st input
              else if Ascii.eqb c "m"%char then
                st <- assignField st setAuthorEmail line ;;
                loopCommits fuel' maxFiles maxBytes st input
              else if Ascii.eqb c "t"%char then
                st <- assignField st setTimestamp line ;;
                loopCommits fuel' maxFiles maxBytes st input
              else
                x <- loopDiff fuel' maxFiles maxBytes st input ;;
                match x with
                | DiffReturn st e => Ret (st, Some e)
                | DiffBreak st input =>
                    loopCommits fuel' maxFiles maxBytes (appendCommit st) input
                end
          end
      end
  end.

(** The commits a slice of pointers denotes; [None] for a [nil] entry. *)
Definition deref (st : state) : list (option Commit) :=
  map (fun p => match p with
                | Some i => nth_error (heap st) i
                | None => None
                end) (commits st).

(** [parseLog(out, maxFiles, maxBytes)], for a stream that delivers [data] and
    then ends with [end_]. Every loop iteration that does not leave its loop
    consumes at least one byte; three more iterations than there are bytes
    cover the nesting of the loops ([parseLog_total] below). *)
Definition parseLogState (data : string) (end_ : error) (maxFiles maxBytes : Z)
  : outcome (state * option error) :=
  loopCommits (len data + 3) maxFiles maxBytes initialState
              (NewReaderSize data end_ maxBytes).

Definition parseLog (data : string) (end_ : error) (maxFiles maxBytes : Z)
  : outcome (list (option Commit) * option error) :=
  r <- parseLogState data end_ maxFiles maxBytes ;;
  Ret (deref (fst r), snd r).

(** ** Sample streams *)

(** The lines, each followed by a line feed. *)
Fixpoint unlines (ls : list string) : string :=
  match ls with
  | [] => EmptyString
  | l :: ls' => l ++ String LF (unlines ls')
  end.

(** The four metadata lines of a commit. *)
Definition metadata (hash name email time : string) : list string :=
  ["c " ++ hash; "a " ++ name; "m " ++ email; "t " ++ time].

(** A textual change of one line to the file [path]. *)
Definition edit (path : string) : list string :=
  ["diff --git a/" ++ path ++ " b/" ++ path;
   "--- a/" ++ path;
   "+++ b/" ++ path;
   "@@ -1 +1 @@";
   "-a";
   "+b"].

(** A mode-only change to the file [path]: a header with no hunk. *)
Definition chmod (path : string) : list string :=
  ["diff --git a/" ++ path ++ " b/" ++ path;
   "old mode 100644";
   "new mode 100755"].

Definition editHunk : string := unlines ["@@ -1 +1 @@"; "-a"; "+b"].

Definition edited (path : string) : File :=
  mkFile path 0 "" path editHunk false false false.

(** ** Vocabulary of the statements *)

(** The call returns a value that satisfies [P], or panics: the loop bound
    was large enough. *)
Definition terminates {A : Type} (P : A -> Prop) (o : outcome A) : Prop :=
  match o with
  | Ret a => P a
  | Panic _ => True
  | OutOfFuel => False
  end.

(** The call returns a value that satisfies [P]: no panic either. *)
Definition returns {A : Type} (P : A -> Prop) (o : outcome A) : Prop :=
  match o with
  | Ret a => P a
  | _ => False
  end.

(** [r'] is [r] further along the same stream. *)
Definition within (r r' : Reader) : Prop :=
  fin r' = fin r /\ capacity r' = capacity r /\ len (pending r') <= len (pending r).

Definition strictlyWithin (r r' : Reader) : Prop :=
  fin r' = fin r /\ capacity r' = capacity r /\ len (pending r') < len (pending r).

(** Where the loop over one file leaves the reader: past at least one line
    when it goes on to the next file. *)
Definition fileExitWithin (r : Reader) (x : fileExit) : Prop :=
  match x with
  | ReturnErr _ _ => True
  | BreakLoopDiff _ r' => within r r'
  | BreakCurrFileLoop _ r' => strictlyWithin r r'
  end.

Definition diffExitWithin (r : Reader) (x : diffExit) : Prop :=
  match x with
  | DiffReturn _ _ => True
  | DiffBreak _ r' => within r r'
  end.

(** No line feed among the bytes of [s]: [s] is the text of one line. *)
Fixpoint noLF (s : string) : bool :=
  match s with
  | EmptyString => true
  | String c s' => negb (Ascii.eqb c LF) && noLF s'
  end.

(** A header line that the file loop reads and passes over without touching
    the file record: a mode, index or similarity line. *)
Definition passedOver (l : string) : bool :=
  noLF l &&
  (HasPrefix l "old mode" || HasPrefix l "new mode" || HasPrefix l "index"
   || HasPrefix l "similarity index" || HasPrefix l "dissimilarity index").

(** The state in which the file loop leaves. *)
Definition exitState (x : fileExit) : state :=
  match x with
  | ReturnErr st _ => st
  | BreakLoopDiff st _ => st
  | BreakCurrFileLoop st _ => st
  end.

(** The file loop, entered in state [st] with the current commit [c], left
    either on a read error with nothing appended, or with exactly one record
    [f] appended to the commit, and [P f]. *)
Definition emits (st : state) (c : Commit) (P : File -> Prop) (x : fileExit) : Prop :=
  (exists e, x = ReturnErr st e) \/
  (exists f, loadCommit (exitState x) = Ret (setFiles c (Files c ++ [f])) /\ P f).

(** [f] and [g] agree on what the header lines of a file determine. *)
Definition sameHeader (f g : File) : Prop :=
  Filename f = Filename g /\ OldFilename f = OldFilename g /\
  IsCreated f = IsCreated g /\ IsDeleted f = IsDeleted g.

(** [t] is the end of [s]. *)
Definition endsWith (s t : string) : Prop := exists pre, s = pre ++ t.

(** No commit of the store holds more than [maxFiles] file records. *)
Definition capped (maxFiles : Z) (st : state) : Prop :=
  Forall (fun c => (Z.of_nat (List.length (Files c)) <= maxFiles)%Z) (heap st).

(** The state in which the loop over the files of a commit leaves. *)
Definition diffExitState (x : diffExit) : state :=
  match x with
  | DiffReturn st _ => st
  | DiffBreak st _ => st
  end.

(** The reader [r] over the same bytes when the stream ends cleanly. *)
Definition atEOF (r : Reader) : Reader :=
  {| pending := pending r; fin := EOF; capacity := capacity r |}.

(** An error of the parser over a failing stream, as it reads over the
    stream that ends cleanly. *)
Definition cleanErr (e : error) : error :=
  match e with
  | UnableToReadLine _ => UnableToReadLine EOF
  | _ => EOF
  end.

Definition hunksAtEOF (h : hunks) : hunks :=
  mkHunks (hLineBytes h) (hIsFragment h) (option_map cleanErr (hErr h)) (hFile h)
          (atEOF (hInput h)).

(** What the loop over one file does at a clean end of the stream where,
    over the failing stream, it returned [x]: the same when [x] leaves the
    loop for the next file or the next commit; where [x] is the return with a
    read error, it leaves for the next commit instead, with the reader empty
    and sometimes one more record appended. *)
Definition fileExitAtEOF (code : nat) (x : fileExit) (o : outcome fileExit) : Prop :=
  match x with
  | BreakLoopDiff st r => o = Ret (BreakLoopDiff st (atEOF r))
  | BreakCurrFileLoop st r => o = Ret (BreakCurrFileLoop st (atEOF r))
  | ReturnErr st e =>
      (e = ReadError code /\
       exists (m : outcome state) (r : Reader),
         pending r = EmptyString /\ fin r = EOF /\
         (m = Ret st \/ exists f, m = appendFile st f) /\
         o = bind m (fun st' => Ret (BreakLoopDiff (setHeaderParsed st' false) r)))
      \/ (e = UnableToReadLine (ReadError code) /\
          o = Ret (ReturnErr st (UnableToReadLine EOF)))
  end.

Definition diffExitAtEOF (code : nat) (x : diffExit) (o : outcome diffExit) : Prop :=
  match x with
  | DiffBreak st r => o = Ret (DiffBreak st (atEOF r))
  | DiffReturn st e =>
      (e = ReadError code /\
       exists (m : outcome state) (r : Reader),
         pending r = EmptyString /\ fin r = EOF /\
         (m = Ret st \/ exists f, m = appendFile st f) /\
         o = bind m (fun st' => Ret (DiffBreak (setHeaderParsed st' false) r)))
      \/ (e = UnableToReadLine (ReadError code) /\
          o = Ret (DiffReturn st (UnableToReadLine EOF)))
  end.

(** The result at a clean end, given the result [(st, e)] over the failing
    stream: the same state, or the open commit flushed on top of it, with or
    without the record of the file whose hunks were being read. *)
Definition resultAtEOF (code : nat) (x : state * option error)
  (o : outcome (state * option error)) : Prop :=
  match x with
  | (st, Some e) =>
      (e = ReadError code /\
       (o = Ret (st, None) \/
        exists m : outcome state,
          (m = Ret st \/ exists f, m = appendFile st f) /\
          o = bind m (fun st' => Ret (appendCommit (setHeaderParsed st' false), None))))
      \/ (e = UnableToReadLine (ReadError code) /\
          o = Ret (st, Some (UnableToReadLine EOF)))
  | (_, None) => False
  end.

(** [o'] is the run at a clean end of the stream of the run [o] over the
    failing stream: it panics where [o] does. *)
Definition simulates {A : Type} (rel : A -> outcome A -> Prop) (o o' : outcome A) : Prop :=
  match o with
  | Ret a => rel a o'
  | Panic p => o' = Panic p
  | OutOfFuel => True
  end.

(** ** truncateCommandOutput *)

(** [io.ReadAll(out)]: all the bytes of the stream, and its error unless it
    ends with [io.EOF]. *)
Definition ReadAll (data : string) (end_ : error) : string * option error :=
  (data, if isEOF end_ then None else Some end_).

(** [io.ReadAll(io.LimitReader(out, n))]: the limited reader answers [io.EOF]
    once [n] bytes are read, at once when [n <= 0], and does not read the
    stream any further. *)
Definition ReadAllLimit (data : string) (end_ : error) (n : Z) : string * option error :=
  if (n <=? Z.of_nat (len data))%Z then (substring 0 (Z.to_nat n) data, None)
  else ReadAll data end_.

(** [bytes.LastIndexByte(s, c)]: the index of the last [c] in [s], or -1. *)
Fixpoint LastIndexByte (s : string) (c : ascii) : Z :=
  match s with
  | EmptyString => (-1)%Z
  | String a s' =>
      let i := LastIndexByte s' c in
      if (0 <=? i)%Z then (i + 1)%Z
      else if Ascii.eqb a c then 0%Z else (-1)%Z
  end.

(** [truncateCommandOutput(out, maxBytes)] for a stream that delivers [data]
    and then ends with [end_]. *)
Definition truncateCommandOutput (data : string) (end_ : error) (maxBytes : Z)
  : string * bool * option error :=
  let '(buf, err) :=
    if (maxBytes <? 0)%Z then ReadAll data end_
    else ReadAllLimit data end_ maxBytes in
  match err with
  | Some e => (EmptyString, false, Some e)
  | None =>
      let truncated := ((maxBytes >? 0) && (Z.of_nat (len buf) >=? maxBytes))%Z in
      (* Remove the last line if it's truncated *)
      let buf :=
        if truncated then
          let lastNewline := LastIndexByte buf LF in
          if (lastNewline >? 0)%Z then substring 0 (Z.to_nat lastNewline) buf
          else buf
        else buf in
      (buf, truncated, None)
  end.

(** ** Vocabulary of the further statements *)

(** A line that [parseHunks], reading through a buffer of [n] bytes, takes for
    a hunk line and can keep whole: not empty, not starting with [d], shorter
    than the buffer, with no line feed inside and no carriage return at its
    end. *)
Definition hunkLine (n : nat) (l : string) : bool :=
  noLF l
  && match l with
     | EmptyString => false
     | String c _ => negb (Ascii.eqb c "d")
     end
  && (len l <? n)%nat
  && match lastByte l with
     | Some c => negb (Ascii.eqb c CR)
     | None => false
     end.

(** Where the hunks of a file end: at the end of the stream, at a blank line,
    or at a line that starts with [d] and fits the buffer of [n] bytes. *)
Definition hunksStop (n : nat) (rest : string) : Prop :=
  rest = EmptyString
  \/ (exists rest', rest = String LF rest')
  \/ (exists next rest',
        rest = String "d" next ++ String LF rest'
        /\ noLF next = true /\ len next + 1 < n).

(** The content [s] is made of whole lines, each followed by a line feed and
    none longer than [n] bytes. *)
Definition wholeLines (n : nat) (s : string) : Prop :=
  exists ls, s = unlines ls /\ Forall (fun l => noLF l = true /\ len l <= n) ls.

(** Every file record of every commit of the store satisfies [P]. *)
Definition allFiles (P : File -> Prop) (st : state) : Prop :=
  Forall (fun c => Forall P (Files c)) (heap st).

(** A changed file as git prints it: the text of its [diff --git] line after
    the keyword, its mode and index lines, its old and new path, and its hunk
    lines. *)
Record change : Type := mkChange {
  chHead : string;
  chMids : list string;
  chOld : string;
  chNew : string;
  chHunks : list string
}.

(** The lines of a change after its [diff --git] line. *)
Definition changeBody (ch : change) : list string :=
  List.app (chMids ch)
           (("--- a/" ++ chOld ch) :: ("+++ b/" ++ chNew ch) :: chHunks ch).

Definition changeLines (ch : change) : list string :=
  ("diff --git" ++ chHead ch) :: changeBody ch.

(** The file record that the change stands for. *)
Definition changeRecord (ch : change) : File :=
  mkFile (chNew ch) 0 EmptyString (chOld ch) (unlines (chHunks ch)) false false false.

(** The change can be read through a buffer of [n] bytes without loss. *)
Definition changeFits (n : nat) (ch : change) : bool :=
  noLF (chHead ch) && (len ("diff --git" ++ chHead ch) <? n)%nat
  && forallb passedOver (chMids ch)
  && noLF (chOld ch) && noLF (chNew ch)
  && forallb (hunkLine n) (chHunks ch).

(** A commit as the log prints it: four metadata lines, the changes, and a
    blank line. *)
Record entry : Type := mkEntry {
  enHash : string;
  enName : string;
  enEmail : string;
  enTime : string;
  enChanges : list change
}.

Definition entryLines (en : entry) : list string :=
  List.app (metadata (enHash en) (enName en) (enEmail en) (enTime en))
           (List.app (concat (map changeLines (enChanges en))) [EmptyString]).

(** The commit that the entry stands for. *)
Definition entryCommit (en : entry) : Commit :=
  mkCommit (enHash en) (enName en) (enEmail en) (enTime en) EmptyString
           (map changeRecord (enChanges en)).

(** The entry has at least one change, no more than [maxFiles] of them when
    that is a cap, and can be read through a buffer of [n] bytes. *)
Definition entryFits (n : nat) (maxFiles : Z) (en : entry) : bool :=
  noLF (enHash en) && noLF (enName en) && noLF (enEmail en) && noLF (enTime en)
  && negb (Nat.eqb (List.length (enChanges en)) 0)
  && ((maxFiles <? 0) || (Z.of_nat (List.length (enChanges en)) <=? maxFiles))%Z
  && forallb (changeFits n) (enChanges en).


(** The parser state once an entry has been read in full: its commit is in
    the store, and the slice of commits ends with a pointer to it. *)
Definition afterEntry (st : state) (en : entry) : state :=
  mkState (List.app (commits st) [Some (List.length (heap st))])
          (List.app (heap st) [entryCommit en])
          (Some (List.length (heap st)))
          false.
(** ** ParseDiffHunkString *)

(** [s[i]] of a slice; panics when [i] is out of range. *)
Definition index {A : Type} (l : list A) (i : nat) : outcome A :=
  match nth_error l i with
  | Some x => Ret x
  | None => Panic IndexOutOfRange
  end.

(** [strings.Split(s, sep)] for a separator that is not empty, as at its
    three calls here: the pieces of [s] between the leftmost occurrences of
    [sep] that do not overlap; one piece more than there are such
    occurrences. The head of the result is the piece being read; [skip]
    counts the bytes of the occurrence being passed. *)
Fixpoint splitFrom (sep : string) (skip : nat) (s : string) : list string :=
  match s with
  | EmptyString => [EmptyString]
  | String c s' =>
      match skip with
      | S k => splitFrom sep k s'
      | O =>
          if HasPrefix s sep then EmptyString :: splitFrom sep (len sep - 1) s'
          else match splitFrom sep 0 s' with
               | p :: ps => String c p :: ps
               | [] => [String c EmptyString]
               end
      end
  end.

Definition Split (s sep : string) : list string := splitFrom sep 0 s.

(** The errors of [strconv]. *)
Inductive NumError : Type :=
| ErrSyntax
| ErrRange.

(** [ch -= '0'; if ch > 9 { syntax error }] on a byte: the value of a decimal
    digit. *)
Definition digitOf (c : ascii) : option Z :=
  let n := Z.of_nat (nat_of_ascii c) in
  if ((48 <=? n) && (n <=? 57))%Z then Some (n - 48)%Z else None.

(** The loop of the fast path of [strconv.Atoi]: fewer than 19 digits cannot
    overflow an [int] of 64 bits. *)
Fixpoint atoiLoop (s : string) (n : Z) : option Z :=
  match s with
  | EmptyString => Some n
  | String ch s' =>
      match digitOf ch with
      | None => None
      | Some d => atoiLoop s' (n * 10 + d)%Z
      end
  end.

Definition maxUint64 : Z := 18446744073709551615.

(** The loop of [strconv.ParseUint(s, 10, 64)]: it stops at the first byte
    that is not a digit, and at the first digit that takes the number out of
    64 bits. *)
Fixpoint parseUintLoop (s : string) (n : Z) : Z * option NumError :=
  match s with
  | EmptyString => (n, None)
  | String c s' =>
      match digitOf c with
      | None => (0%Z, Some ErrSyntax)
      | Some d =>
          if (n >=? maxUint64 / 10 + 1)%Z then (maxUint64, Some ErrRange)
          else
            let n1 := (n * 10 + d)%Z in
            if (n1 >? maxUint64)%Z then (maxUint64, Some ErrRange)
            else parseUintLoop s' n1
      end
  end.

Definition ParseUint (s : string) : Z * option NumError :=
  match s with
  | EmptyString => (0%Z, Some ErrSyntax)
  | _ => parseUintLoop s 0
  end.

(** [strconv.ParseInt(s, 10, 0)] where [int] has 64 bits. *)
Definition ParseInt (s : string) : Z * option NumError :=
  match s with
  | EmptyString => (0%Z, Some ErrSyntax)
  | String c0 s' =>
      let neg := Ascii.eqb c0 "-" in
      let s := if Ascii.eqb c0 "+" || Ascii.eqb c0 "-" then s' else s in
      let '(un, err) := ParseUint s in
      match err with
      | Some ErrSyntax => (0%Z, err)
      | _ =>
          let cutoff := (2 ^ 63)%Z in
          if negb neg && (un >=? cutoff)%Z then ((cutoff - 1)%Z, Some ErrRange)
          else if neg && (un >? cutoff)%Z then ((- cutoff)%Z, Some ErrRange)
          else (if neg then (- un)%Z else un, None)
      end
  end.

(** [strconv.Atoi(s)] where [int] has 64 bits. *)
Definition Atoi (s : string) : Z * option NumError :=
  let sLen := len s in
  if ((0 <? sLen) && (sLen <? 19))%nat then
    match s with
    | EmptyString => (0%Z, Some ErrSyntax)
    | String c0 s' =>
        let signed := Ascii.eqb c0 "-" || Ascii.eqb c0 "+" in
        let body := if signed then s' else s in
        if signed && (len body <? 1)%nat then (0%Z, Some ErrSyntax)
        else
          match atoiLoop body 0 with
          | None => (0%Z, Some ErrSyntax)
          | Some n => (if Ascii.eqb c0 "-" then (- n)%Z else n, None)
          end
    end
  else ParseInt s.

(** [ParseDiffHunkString(diffhunk)]: the four numbers of a hunk header
    [@@ -leftLine,leftHunk +rightLine,righHunk @@]. The errors of [Atoi] are
    dropped, the debug message of the last branch is not part of the
    result. *)
Definition ParseDiffHunkString (diffhunk : string) : outcome (Z * Z * Z * Z) :=
  let ss := Split diffhunk "@@" in
  ss1 <- index ss 1 ;;
  body <- sliceFrom ss1 1 ;;
  let ranges := Split body " " in
  ranges0 <- index ranges 0 ;;
  let leftRange := Split ranges0 "," in
  leftRange0 <- index leftRange 0 ;;
  digits <- sliceFrom leftRange0 1 ;;
  let leftLine := fst (Atoi digits) in
  leftHunk <-
    (if (1 <? List.length leftRange)%nat then
       leftRange1 <- index leftRange 1 ;; Ret (fst (Atoi leftRange1))
     else Ret 0%Z) ;;
  if (1 <? List.length ranges)%nat then
    ranges1 <- index ranges 1 ;;
    let rightRange := Split ranges1 "," in
    rightRange0 <- index rightRange 0 ;;
    let rightLine := fst (Atoi rightRange0) in
    righHunk <-
      (if (1 <? List.length rightRange)%nat then
         rightRange1 <- index rightRange 1 ;; Ret (fst (Atoi rightRange1))
       else Ret 0%Z) ;;
    Ret (leftLine, leftHunk, rightLine, righHunk)
  else
    Ret (leftLine, leftHunk, leftLine, leftHunk).

(** The decimal numeral of a natural number. *)
Definition digitChar (d : Z) : ascii := ascii_of_nat (Z.to_nat (48 + d)).

Fixpoint decimalFrom (fuel : nat) (n : Z) : string :=
  match fuel with
  | O => EmptyString
  | S fuel' =>
      if (n <? 10)%Z then String (digitChar n) EmptyString
      else decimalFrom fuel' (n / 10) ++ String (digitChar (n mod 10)) EmptyString
  end.

Definition decimal (n : Z) : string := decimalFrom (S (Z.to_nat (Z.log2 n))) n.

(** No byte of [s] is [c]. *)
Fixpoint without (c : ascii) (s : string) : bool :=
  match s with
  | EmptyString => true
  | String d s' => negb (Ascii.eqb d c) && without c s'
  end.

(** Every byte of [s] is a decimal digit. *)
Fixpoint allDigits (s : string) : bool :=
  match s with
  | EmptyString => true
  | String c s' =>
      match digitOf c with
      | Some _ => allDigits s'
      | None => false
      end
  end.

(** A string with none of the bytes that divide a hunk header: no [@], no
    space, no comma. *)
Definition plain (s : string) : bool :=
  without "@" s && without " " s && without "," s.

(** * The parser of [internal/git/output_parser.go]

    The same reader, data model and store as above; [headerParsed] is not
    part of this parser and stays as it is. *)

Module OutputParser.

(** The errors that [parseLog] returns: that of a read, or
    [fmt.Errorf("unexpected line in diff: %s for commit %s", line, hash)]. *)
Inductive failure : Type :=
| ReadFailure (e : error)
| UnexpectedLine (line hash : string).

(** How control leaves the loop over the header lines of one file. There is
    no [break currFileLoop]. *)
Inductive fileExit : Type :=
| ReturnErr (e : error)          (* return commits, err *)
| BreakLoopDiff (input : Reader) (* break loopDiff *).

Inductive diffExit : Type :=
| DiffReturn (e : failure)
| DiffBreak (input : Reader).

(** [currFileLoop]: [currentFile] points to a record of its own that is never
    appended to a commit. [parseRename] is set to [true] at the top of each
    iteration, so that it is [true] wherever it is read. *)
Fixpoint currFileLoop (fuel : nat) (currentFile : File) (input : Reader)
  : outcome fileExit :=
  match fuel with
  | O => OutOfFuel
  | S fuel' =>
      let parseRename := true in
      let '(line, err, input) := ReadString input in
      match err with
      | Some e => if isEOF e then Ret (BreakLoopDiff input) else Ret (ReturnErr e)
      | None =>
          if HasPrefix line "diff --git" then Ret (BreakLoopDiff input)
          else if HasPrefix line "old mode" then currFileLoop fuel' currentFile input
          else if HasPrefix line "new mode" then currFileLoop fuel' currentFile input
          else if HasPrefix line "index" then currFileLoop fuel' currentFile input
          else if HasPrefix line "similarity index" then currFileLoop fuel' currentFile input
          else if HasPrefix line "dissimilarity index" then
            currFileLoop fuel' currentFile input
          else if HasPrefix line "rename from " then
            name <- sliceFrom line 11 ;;
            currFileLoop fuel' (setOldFilename currentFile name) input
          else if HasPrefix line "rename to " then
            name <- sliceFrom line 9 ;;
            currFileLoop fuel' (setFilename currentFile name) input
          else if HasPrefix line "copy from " then
            name <- sliceFrom line 9 ;;
            currFileLoop fuel' (setOldFilename currentFile name) input
          else if HasPrefix line "copy to " then
            name <- sliceFrom line 7 ;;
            currFileLoop fuel' (setFilename currentFile name) input
          else if HasPrefix line "new file" then
            currFileLoop fuel' (setIsCreated currentFile true) input
          else if HasPrefix line "deleted file" then
            currFileLoop fuel' (setIsDeleted currentFile true) input
          else if HasPrefix line "--- " then
            name <- sliceFrom line 4 ;;
            currentFile <-
              (if parseRename && HasPrefix name "a/" then
                 n <- sliceFrom name 2 ;; Ret (setOldFilename currentFile n)
               else if parseRename && IsDeleted currentFile then
                 n <- sliceFrom name 2 ;; Ret (setFilename currentFile n)
               else Ret currentFile) ;;
            currFileLoop fuel' currentFile input
          else if HasPrefix line "+++ " then
            name <- sliceFrom line 4 ;;
            currentFile <-
              (if parseRename && HasPrefix name "b/" then
                 n <- sliceFrom name 2 ;; Ret (setFilename currentFile n)
               else Ret currentFile) ;;
            currFileLoop fuel' currentFile input
          else
            currFileLoop fuel' currentFile input
      end
  end.

(** [loopDiff]: its body runs once, since [currFileLoop] is left by a return
    or by [break loopDiff] only. *)
Definition loopDiff (fuel : nat) (maxFiles : Z) (st : state) (line : string)
  (input : Reader) : outcome diffExit :=
  if negb (HasPrefix line "diff --git") then
    c <- loadCommit st ;;
    Ret (DiffReturn (UnexpectedLine line (Hash c)))
  else
    capped <-
      (if (maxFiles >? -1)%Z then
         n <- lenFiles st ;; Ret (Z.of_nat n >=? maxFiles)%Z
       else Ret false) ;;
    if capped then Ret (DiffBreak (discardAll input))
    else
      x <- currFileLoop fuel emptyFile input ;;
      match x with
      | ReturnErr e => Ret (DiffReturn (ReadFailure e))
      | BreakLoopDiff input => Ret (DiffBreak input)
      end.

(** [loopCommits] *)
Fixpoint loopCommits (fuel : nat) (maxFiles : Z) (st : state) (input : Reader)
  : outcome (state * option failure) :=
  match fuel with
  | O => OutOfFuel
  | S fuel' =>
      let '(line, err, input) := ReadString input in
      match err with
      | Some e => if isEOF e then Ret (st, None) else Ret (st, Some (ReadFailure e))
      | None =>
          let line := chomp line in
          (* switch line[0] *)
          match line with
          | EmptyString => Panic IndexOutOfRange
          | String c _ =>
              if Ascii.eqb c "c"%char then
                hash <- sliceFrom line 2 ;;
                loopCommits fuel' maxFiles (newCommit st hash) input
              else if Ascii.eqb c "a"%char then
                st <- assignField st setAuthorName line ;;
                loopCommits fuel' maxFiles st input
              else if Ascii.eqb c "m"%char then
                st <- assignField st setAuthorEmail line ;;
                loopCommits fuel' maxFiles st input
              else if Ascii.eqb c "t"%char then
                st <- assignField st setTimestamp line ;;
                loopCommits fuel' maxFiles st input
              else
                x <- loopDiff fuel' maxFiles st line input ;;
                match x with
                | DiffReturn e => Ret (st, Some e)
                | DiffBreak input => loopCommits fuel' maxFiles (appendCommit st) input
                end
          end
      end
  end.

(** [parseLog(out, maxFiles, maxBytes)], for a stream that delivers [data] and
    then ends with [end_]. Each iteration that stays in its loop consumes at
    least one byte. *)
Definition parseLog (data : string) (end_ : error) (maxFiles maxBytes : Z)
  : outcome (list (option Commit) * option failure) :=
  r <- loopCommits (len data + 2) maxFiles initialState
         (NewReaderSize data end_ maxBytes) ;;
  Ret (deref (fst r), snd r).

(** A line that [currFileLoop] reads and goes past: not a [diff --git] line,
    and not the bare [--- ] line on which a slice can be out of range. *)
Definition inert (l : string) : bool :=
  noLF l && negb (HasPrefix l "diff --git") && negb (String.eqb l "--- ").

(** A line that [loopCommits] takes for the start of a diff and that is not
    one: not blank, not a metadata line, not a [diff --git] line. *)
Definition stray (l : string) : bool :=
  noLF l
  && match l with
     | EmptyString => false
     | String c _ =>
         negb (Ascii.eqb c "c" || Ascii.eqb c "a" || Ascii.eqb c "m" || Ascii.eqb c "t")
     end
  && negb (HasPrefix l "diff --git").

(** The reader with a buffer of [n] bytes instead of its own. *)
Definition resized (n : nat) (r : Reader) : Reader :=
  {| pending := pending r; fin := fin r; capacity := n |}.

Definition resizedExit (n : nat) (x : fileExit) : fileExit :=
  match x with
  | ReturnErr e => ReturnErr e
  | BreakLoopDiff input => BreakLoopDiff (resized n input)
  end.

(** No commit of the store has a file record. *)
Definition noFiles (st : state) : Prop :=
  Forall (fun c => Files c = []) (heap st).

End OutputParser.

(** * ParseCsv *)

Record CsvFile : Type := mkCsvFile {
  csvFile : File;
  Header : list string;
  Rows : list (list string)
}.

(** The errors that [ParseCsv] returns: that of the reader, or
    [fmt.Errorf("CSV file has invalid row at index %d", i)]. *)
Inductive csvFailure : Type :=
| CsvError (code : nat)
| InvalidRow (i : nat).

Section Csv.

(** [csv.NewReader(strings.NewReader(content)).ReadAll()]: the records of the
    content, or the error of the reader. How [encoding/csv] divides a content
    into records is left open. *)
Variable readAll : string -> list (list string) * option nat.

(** [for i := 1; i < len(records); i++]: the index of the first record, from
    the [i]-th on, that has not [numColumns] fields. *)
Fixpoint checkRows (rows : list (list string)) (numColumns i : nat) : option nat :=
  match rows with
  | [] => None
  | row :: rows' =>
      if (List.length row =? numColumns)%nat then checkRows rows' numColumns (S i)
      else Some i
  end.

Definition ParseCsv (file : File) : outcome (option CsvFile * option csvFailure) :=
  let '(records, err) := readAll (Content file) in
  match err with
  | Some e => Ret (None, Some (CsvError e))
  | None =>
      header <- index records 0 ;;
      let numColumns := List.length header in
      match checkRows (skipn 1 records) numColumns 1 with
      | Some i => Ret (None, Some (InvalidRow i))
      | None => Ret (Some (mkCsvFile file header (skipn 1 records)), None)
      end
  end.

End Csv.

(** * parseLog2 *)

(** [bytes.ReplaceAll(s, old, new)] for an [old] that is not empty: the pieces
    of [s] between the occurrences of [old], joined by [new]. *)
Definition ReplaceAll (s old new : string) : string :=
  String.concat new (Split s old).

(** [line = line[:len(line)-1]]; panics on the empty line, where the upper
    bound is -1. *)
Definition withoutLastByte (line : string) : outcome string :=
  match line with
  | EmptyString => Panic SliceOutOfRange
  | _ => Ret (dropLast line)
  end.

(** [line, _ = reader.ReadString('\n'); line = line[:len(line)-1]] *)
Definition readTrimmed (input : Reader) : outcome (string * Reader) :=
  let '(line, _, input) := ReadString input in
  line <- withoutLastByte line ;;
  Ret (line, input).

(** The last place where [s] can be divided into a first group, the text
    [ b/], and a second group that is not empty: the choice of the greedy
    [(.+)] when the rest of the expression has to match up to the end. *)
Fixpoint lastTarget (s : string) : option (string * string) :=
  match s with
  | EmptyString => None
  | String c s' =>
      match lastTarget s' with
      | Some (g1, g2) => Some (String c g1, g2)
      | None =>
          if HasPrefix s " b/" && (3 <? len s)%nat
          then Some (EmptyString, substring 3 (len s - 3) s)
          else None
      end
  end.

(** [regexp.MustCompile(`^diff --git a/(.+) b/(.+)$`).FindStringSubmatch(line)]:
    the two groups when the line matches. The dot matches every byte but the
    line feed. *)
Definition filenameRegex (line : string) : option (string * string) :=
  if HasPrefix line "diff --git a/" && noLF line then
    match lastTarget (substring 13 (len line - 13) line) with
    | Some (EmptyString, _) => None
    | Some (g1, g2) => Some (g1, g2)
    | None => None
    end
  else None.

Definition setChanged (c : Commit) (s : string) : Commit :=
  mkCommit (Hash c) (AuthorName c) (AuthorEmail c) (Timestamp c) s (Files c).

(** [line[0] == '@'], on a line that is not empty. *)
Definition startsAt (line : string) : bool :=
  match line with
  | String c _ => Ascii.eqb c "@"
  | EmptyString => false
  end.

(** The variables of [parseLog2] that live across its loops; [currentFile] is
    a pointer to a record of its own, [None] for [nil]. *)
Record log2 : Type := mkLog2 {
  store : state;
  currentFile : option File;
  isContent : bool;
  bytesRead : Z
}.

(** [*currentFile]; panics on [nil]. *)
Definition loadFile (s : log2) : outcome File :=
  match currentFile s with
  | Some f => Ret f
  | None => Panic NilDereference
  end.

(** [if currentFile != nil { currentCommit.Files = append(currentCommit.Files,
    *currentFile) }] *)
Definition flushFile (s : log2) : outcome state :=
  match currentFile s with
  | Some f => appendFile (store s) f
  | None => Ret (store s)
  end.

(** The inner loop of [parseLog2]: the changes of one commit, from [line]
    on. *)
Fixpoint filesLoop (fuel : nat) (maxBytes : Z) (s : log2) (line : string)
  (input : Reader) : outcome (log2 * Reader) :=
  match fuel with
  | O => OutOfFuel
  | S fuel' =>
      if (len line =? 0)%nat then
        (* end of content of file *)
        st <- flushFile s ;;
        Ret (mkLog2 st (currentFile s) false (bytesRead s), input)
      else if HasPrefix line "diff --git" then
        (* new file found *)
        st <- flushFile s ;;
        let file :=
          match filenameRegex line with
          | Some (g1, g2) =>
              if String.eqb g1 g2 then setFilename emptyFile g2
              else setOldFilename (setFilename emptyFile g2) g1
          | None => emptyFile
          end in
        r <- readTrimmed input ;;
        filesLoop fuel' maxBytes (mkLog2 st (Some file) false 0) (fst r) (snd r)
      else
        s <- (if HasPrefix line "new" then
                f <- loadFile s ;;
                Ret (mkLog2 (store s) (Some (setIsCreated f true)) (isContent s) (bytesRead s))
              else Ret s) ;;
        s <- (if HasPrefix line "deleted" then
                f <- loadFile s ;;
                Ret (mkLog2 (store s) (Some (setIsDeleted f true)) (isContent s) (bytesRead s))
              else Ret s) ;;
        (* file content found *)
        let s := if startsAt line
                 then mkLog2 (store s) (currentFile s) true (bytesRead s)
                 else s in
        s <- (if isContent s then
                f <- loadFile s ;;
                let f := setContent f (Content f ++ line ++ String LF EmptyString) in
                let n := (bytesRead s + Z.of_nat (len line))%Z in
                if (n >? maxBytes)%Z then
                  Ret (mkLog2 (store s)
                              (Some (setContent (setTruncated f true) EmptyString)) false n)
                else Ret (mkLog2 (store s) (Some f) true n)
              else Ret s) ;;
        let '(line, _, input) := ReadString input in
        filesLoop fuel' maxBytes s (chomp line) input
  end.

(** The outer loop of [parseLog2]: one commit after the other. *)
Fixpoint commitsLoop (fuel : nat) (maxBytes : Z) (s : log2) (scanNext : bool)
  (input : Reader) : outcome log2 :=
  match fuel with
  | O => OutOfFuel
  | S fuel' =>
      let '(line, err, input) := ReadString input in
      if scanNext && match err with Some e => isEOF e | None => false end then Ret s
      else
        (* new commit found *)
        hash <- sliceFrom line 2 ;;
        let st := newCommit (store s) hash in
        r <- readTrimmed input ;;
        st <- assignField st setAuthorName (fst r) ;;
        r <- readTrimmed (snd r) ;;
        st <- assignField st setAuthorEmail (fst r) ;;
        r <- readTrimmed (snd r) ;;
        st <- assignField st setTimestamp (fst r) ;;
        r <- readTrimmed (snd r) ;;
        let line := fst r in
        let input := snd r in
        match line with
        | EmptyString =>
            Ret (mkLog2 (appendCommit st) None (isContent s) (bytesRead s))
        | String c _ =>
            if negb (Ascii.eqb c " ") then
              (* no shortstat: the commit is empty *)
              commitsLoop fuel' maxBytes
                (mkLog2 (appendCommit st) None (isContent s) (bytesRead s)) false input
            else
              changed <- sliceFrom line 1 ;;
              let changed := ReplaceAll changed "(+)" EmptyString in
              let changed := ReplaceAll changed "(-)" EmptyString in
              c <- loadCommit st ;;
              let st := storeCommit st (setChanged c changed) in
              (* twice because --shortstat adds a new line *)
              r <- readTrimmed input ;;
              r <- readTrimmed (snd r) ;;
              x <- filesLoop fuel' maxBytes
                     (mkLog2 st None (isContent s) (bytesRead s)) (fst r) (snd r) ;;
              let s := fst x in
              commitsLoop fuel' maxBytes
                (mkLog2 (appendCommit (store s)) (currentFile s) (isContent s) (bytesRead s))
                true (snd x)
        end
  end.

(** [bufio.NewReader(out)]: a reader with the default buffer of 4096 bytes. *)
Definition NewReader (data : string) (end_ : error) : Reader :=
  NewReaderSize data end_ 4096.

(** [parseLog2(out, maxBytes)], for a stream that delivers [data] and then
    ends with [end_]. Each iteration that stays in its loop consumes at least
    one byte. *)
Definition parseLog2 (data : string) (end_ : error) (maxBytes : Z)
  : outcome (list (option Commit)) :=
  s <- commitsLoop (len data + 2) maxBytes (mkLog2 initialState None false 0) true
         (NewReader data end_) ;;
  Ret (deref (store s)).

(** The bytes of [s] other than line feeds. *)
Fixpoint payload (s : string) : nat :=
  match s with
  | EmptyString => 0
  | String c s' => if Ascii.eqb c LF then payload s' else S (payload s')
  end.

(** The content of [f] is within the cap: empty, or not marked and with no
    more than [maxBytes] bytes other than line feeds. *)
Definition withinCap (maxBytes : Z) (f : File) : Prop :=
  Content f = EmptyString
  \/ (Truncated f = false /\ (Z.of_nat (payload (Content f)) <= maxBytes)%Z).

(** The count [n] of [bytesRead] stands for the content of [f]. *)
Definition counted (maxBytes : Z) (f : File) (n : Z) : Prop :=
  if Truncated f then Content f = EmptyString /\ (maxBytes < n)%Z
  else Z.of_nat (payload (Content f)) = n
       /\ (Content f = EmptyString \/ (n <= maxBytes)%Z).

Definition log2ok (maxBytes : Z) (s : log2) : Prop :=
  allFiles (withinCap maxBytes) (store s)
  /\ forall f, currentFile s = Some f -> counted maxBytes f (bytesRead s).

(** ** A well-formed log for parseLog2 *)

(** A changed file as [parseLog2] expects it: the two paths of its
    [diff --git] line, and the lines that follow it, header lines first. *)
Record change2 : Type := mkChange2 {
  c2Old : string;
  c2New : string;
  c2Lines : list string
}.

Definition change2Lines (ch : change2) : list string :=
  ("diff --git a/" ++ c2Old ch ++ " b/" ++ c2New ch) :: c2Lines ch.

(** The lines from the first hunk header on. *)
Fixpoint contentLines (ls : list string) : list string :=
  match ls with
  | [] => []
  | l :: ls' => if startsAt l then ls else contentLines ls'
  end.

(** The file record that the change stands for. *)
Definition change2Record (ch : change2) : File :=
  mkFile (c2New ch) 0 EmptyString
         (if String.eqb (c2Old ch) (c2New ch) then EmptyString else c2Old ch)
         (unlines (contentLines (c2Lines ch)))
         false
         (existsb (fun l => HasPrefix l "new") (c2Lines ch))
         (existsb (fun l => HasPrefix l "deleted") (c2Lines ch)).

(** A path with no blank in it. *)
Definition path2 (p : string) : bool :=
  noLF p && without " " p && negb (String.eqb p EmptyString).

(** A line of a change other than its [diff --git] line. *)
Definition line2 (l : string) : bool :=
  noLF l && negb (String.eqb l EmptyString) && negb (HasPrefix l "diff --git").

(** The change can be read in full under the cap of [maxBytes]. *)
Definition change2Fits (maxBytes : Z) (ch : change2) : bool :=
  path2 (c2Old ch) && path2 (c2New ch) && forallb line2 (c2Lines ch)
  && (Z.of_nat (payload (unlines (contentLines (c2Lines ch)))) <=? maxBytes)%Z.

(** A commit as the log prints it for [parseLog2]: four metadata lines, the
    shortstat line and the blank line after it, the changes, a blank line. *)
Record entry2 : Type := mkEntry2 {
  e2Hash : string;
  e2Name : string;
  e2Email : string;
  e2Time : string;
  e2Stat : string;
  e2Changes : list change2
}.

Definition entry2Lines (en : entry2) : list string :=
  List.app (metadata (e2Hash en) (e2Name en) (e2Email en) (e2Time en))
           (List.app [" " ++ e2Stat en; EmptyString]
                     (List.app (concat (map change2Lines (e2Changes en))) [EmptyString])).

(** The commit that the entry stands for: its hash keeps the line feed. *)
Definition entry2Commit (en : entry2) : Commit :=
  mkCommit (e2Hash en ++ String LF EmptyString) (e2Name en) (e2Email en) (e2Time en)
           (ReplaceAll (ReplaceAll (e2Stat en) "(+)" EmptyString) "(-)" EmptyString)
           (map change2Record (e2Changes en)).

Definition entry2Fits (maxBytes : Z) (en : entry2) : bool :=
  noLF (e2Hash en) && noLF (e2Name en) && noLF (e2Email en) && noLF (e2Time en)
  && noLF (e2Stat en)
  && forallb (change2Fits maxBytes) (e2Changes en).

(** The lines kept as content, in a file whose content has begun ([b]) or
    not. *)
Definition kept (b : bool) (ls : list string) : list string :=
  if b then ls else contentLines ls.

(** The record [f] after the lines [ls] of its change. *)
Definition afterLines (f : File) (b : bool) (ls : list string) : File :=
  mkFile (Filename f) (Size f) (HumanSize f) (OldFilename f)
         (Content f ++ unlines (kept b ls))
         (Truncated f)
         (IsCreated f || existsb (fun l => HasPrefix l "new") ls)
         (IsDeleted f || existsb (fun l => HasPrefix l "deleted") ls).

(** The store once an entry has been read in full. *)
Definition afterEntry2 (st : state) (en : entry2) : state :=
  mkState (List.app (commits st) [Some (List.length (heap st))])
          (List.app (heap st) [entry2Commit en])
          (Some (List.length (heap st)))
          (headerParsed st).

(** The record that [currentFile] points to, if any. *)
Definition filesOf (cur : option File) : list File :=
  match cur with
  | Some f => [f]
  | None => []
  end.

(** The lines of the changes of an entry, with the blank line that ends
    them. *)
Definition changes2Lines (chs : list change2) : list string :=
  List.app (concat (map change2Lines chs)) [EmptyString].


(** * Properties *)

(** ** The reader consumes its input *)

Lemma cutLine_len (s l rest : string) :
  cutLine s = Some (l, rest) -> len s = len l + len rest /\ 1 <= len l.
Proof.
  revert l rest. induction s as [|c s IH]; intros l rest H; simpl in H.
  - discriminate.
  - destruct (Ascii.eqb c LF).
    + inversion H; subst. simpl. lia.
    + destruct (cutLine s) as [[l0 r0]|]; [|discriminate].
      inversion H; subst. destruct (IH _ _ eq_refl). simpl in *. lia.
Qed.

Lemma ReadString_spec (r r' : Reader) (l : string) (e : option error) :
  ReadString r = (l, e, r') ->
  fin r' = fin r /\ capacity r' = capacity r /\
  match e with
  | None => len (pending r') < len (pending r)
  | Some x => x = fin r /\ pending r' = EmptyString
  end.
Proof.
  unfold ReadString. destruct (cutLine (pending r)) as [[l0 r0]|] eqn:E; intros H;
    inversion H; subst; simpl.
  - destruct (cutLine_len _ _ _ E). repeat split; lia.
  - repeat split.
Qed.

Lemma scan_len (n : nat) (s l rest : string) (e : scanEnd) :
  scan n s = (l, e, rest) ->
  len s = len l + len rest /\
  match e with
  | Found => 1 <= len l
  | BufferFull => len l = n
  | Ended => rest = EmptyString
  end.
Proof.
  revert s l rest e. induction n as [|n IH]; intros s l rest e H; simpl in H.
  - inversion H; subst. simpl. lia.
  - destruct s as [|c s].
    + inversion H; subst. simpl. split; reflexivity.
    + destruct (Ascii.eqb c LF).
      * inversion H; subst. simpl. lia.
      * destruct (scan n s) as [[l0 e0] r0] eqn:E. inversion H; subst.
        destruct (IH _ _ _ _ E) as [H1 H2]. simpl in *. split; [lia|].
        destruct e; lia || assumption.
Qed.

Lemma dropLast_len (s : string) : len (dropLast s) = len s - 1.
Proof.
  induction s as [|c s IH]; simpl; [reflexivity|].
  destruct s; simpl in *; [reflexivity|]. rewrite IH. lia.
Qed.

Lemma ReadLine_spec (r r' : Reader) (l : string) (frag : bool) (e : option error) :
  ReadLine r = (l, frag, e, r') ->
  2 <= capacity r ->
  fin r' = fin r /\ capacity r' = capacity r /\
  match e with
  | None => len (pending r') < len (pending r)
  | Some x => x = fin r /\ pending r' = EmptyString /\ frag = false /\ l = EmptyString
  end.
Proof.
  unfold ReadLine. destruct (scan (capacity r) (pending r)) as [[l0 e0] rest] eqn:E.
  destruct (scan_len _ _ _ _ _ E) as [H1 H2]. intros H Hcap.
  destruct e0.
  - destruct (lastByte (dropLast l0)) as [c|]; [destruct (Ascii.eqb c CR)|];
      inversion H; subst; simpl; repeat split; lia.
  - destruct (lastByte l0) as [c|]; [destruct (Ascii.eqb c CR)|];
      inversion H; subst; simpl; repeat split; lia.
  - subst rest. destruct l0; inversion H; subst; simpl in *; repeat split; lia.
Qed.

(** ** The result monad *)

Lemma terminates_bind {A B : Type} (P : A -> Prop) (Q : B -> Prop)
  (m : outcome A) (k : A -> outcome B) :
  terminates P m -> (forall a, P a -> terminates Q (k a)) -> terminates Q (bind m k).
Proof. destruct m; simpl; auto. Qed.

Lemma returns_terminates {A : Type} (P : A -> Prop) (o : outcome A) :
  returns P o -> terminates P o.
Proof. destruct o; simpl; tauto. Qed.

Lemma returns_bind {A B : Type} (P : A -> Prop) (Q : B -> Prop)
  (m : outcome A) (k : A -> outcome B) :
  returns P m -> (forall a, P a -> returns Q (k a)) -> returns Q (bind m k).
Proof. destruct m; simpl; auto; tauto. Qed.

Lemma returns_weaken {A : Type} (P Q : A -> Prop) (o : outcome A) :
  returns P o -> (forall a, P a -> Q a) -> returns Q o.
Proof. destruct o; simpl; auto. Qed.

Lemma returns_inv {A : Type} (P : A -> Prop) (o : outcome A) :
  returns P o -> exists a, o = Ret a /\ P a.
Proof. destruct o; simpl; [eauto|tauto|tauto]. Qed.

Lemma bind_assoc {A B C : Type} (m : outcome A) (k : A -> outcome B) (k' : B -> outcome C) :
  bind (bind m k) k' = bind m (fun a => bind (k a) k').
Proof. destruct m; reflexivity. Qed.

(** ** Every call returns

    With a loop bound above the number of pending bytes (by one more per
    level of nesting) no loop of the model runs out of iterations. *)

Lemma terminates_weaken {A : Type} (P Q : A -> Prop) (o : outcome A) :
  terminates P o -> (forall a, P a -> Q a) -> terminates Q o.
Proof. destruct o; simpl; auto. Qed.

Lemma within_refl (r : Reader) : within r r.
Proof. unfold within. auto. Qed.

Lemma within_trans (r1 r2 r3 : Reader) : within r1 r2 -> within r2 r3 -> within r1 r3.
Proof. unfold within. intuition (try congruence; try lia). Qed.

Lemma strictly_within (r r' : Reader) : strictlyWithin r r' -> within r r'.
Proof. unfold within, strictlyWithin. intuition lia. Qed.

Lemma strictly_then_within (r1 r2 r3 : Reader) :
  strictlyWithin r1 r2 -> within r2 r3 -> strictlyWithin r1 r3.
Proof. unfold within, strictlyWithin. intuition (try congruence; try lia). Qed.

Lemma ReadString_within (r r' : Reader) (l : string) (e : option error) :
  ReadString r = (l, e, r') ->
  match e with None => strictlyWithin r r' | Some _ => within r r' end.
Proof.
  intros H. destruct (ReadString_spec _ _ _ _ H) as (H1 & H2 & H3).
  unfold within, strictlyWithin. destruct e as [x|].
  - destruct H3 as [_ H3]. rewrite H3. simpl. repeat split; try assumption; lia.
  - repeat split; assumption.
Qed.

Lemma ReadLine_within (r r' : Reader) (l : string) (frag : bool) (e : option error) :
  ReadLine r = (l, frag, e, r') -> 2 <= capacity r ->
  match e with None => strictlyWithin r r' | Some _ => within r r' end.
Proof.
  intros H Hc. destruct (ReadLine_spec _ _ _ _ _ H Hc) as (H1 & H2 & H3).
  unfold within, strictlyWithin. destruct e as [x|].
  - destruct H3 as (_ & H3 & _). rewrite H3. simpl. repeat split; try assumption; lia.
  - repeat split; assumption.
Qed.

Lemma discardFragments_returns (fuel : nat) (b : bool) (r : Reader) :
  2 <= capacity r -> len (pending r) < fuel ->
  returns (fun x => within r (snd x)) (discardFragments fuel b r).
Proof.
  revert b r. induction fuel as [|fuel IH]; intros b r Hc Hf; [lia|].
  simpl. destruct b; [|simpl; apply within_refl].
  destruct (ReadLine r) as [[[l frag] e] r'] eqn:E.
  pose proof (ReadLine_within _ _ _ _ _ E Hc) as Hw.
  destruct e as [x|]; simpl; [exact Hw|].
  destruct Hw as (Hfin & Hcap & Hlen).
  eapply returns_weaken; [apply IH; lia|].
  intros a Ha. eapply within_trans; [|exact Ha]. unfold within. intuition lia.
Qed.

Lemma parseHunksLoop_returns (fuel : nat) (cf : File) (maxBytes : Z) (b : bool) (r : Reader) :
  2 <= capacity r -> len (pending r) + 1 < fuel ->
  returns (fun h => within r (hInput h)) (parseHunksLoop fuel cf maxBytes b r).
Proof.
  revert cf b r. induction fuel as [|fuel IH]; intros cf b r Hc Hf; [lia|].
  simpl. eapply returns_bind; [apply discardFragments_returns; [exact Hc|lia]|].
  intros [e1 r1] Hw1; simpl in Hw1. destruct e1 as [x|]; [simpl; exact Hw1|].
  destruct (ReadLine r1) as [[[l frag] e] r2] eqn:E.
  assert (Hc1 : 2 <= capacity r1) by (destruct Hw1 as (_ & -> & _); exact Hc).
  pose proof (ReadLine_within _ _ _ _ _ E Hc1) as Hw2.
  destruct e as [x|]; [simpl; eapply within_trans; eassumption|].
  pose proof (strictly_within _ _ Hw2) as Hw2'.
  assert (Hr2 : within r r2) by (eapply within_trans; eassumption).
  assert (Hc2 : 2 <= capacity r2) by (destruct Hr2 as (_ & -> & _); exact Hc).
  assert (Hl2 : len (pending r2) < len (pending r)).
  { destruct Hw1 as (_ & _ & ?). destruct Hw2 as (_ & _ & ?). lia. }
  destruct l as [|c l]; [simpl; exact Hr2|].
  destruct (Ascii.eqb c "d"); [simpl; exact Hr2|].
  destruct ((maxBytes >? -1)%Z && (currFileLineCount >=? maxBytes)%Z).
  - eapply returns_weaken; [apply IH; [exact Hc2|lia]|].
    intros h Hh. simpl in Hh. eapply within_trans; eassumption.
  - eapply returns_bind; [apply discardFragments_returns; [exact Hc2|lia]|].
    intros [e3 r3] Hw3; simpl in Hw3.
    assert (Hr3 : within r r3) by (eapply within_trans; eassumption).
    destruct e3 as [x|]; [simpl; exact Hr3|].
    eapply returns_weaken;
      [apply IH; [destruct Hr3 as (_ & -> & _); exact Hc|destruct Hw3 as (_ & _ & ?); lia]|].
    intros h Hh. simpl in Hh. eapply within_trans; eassumption.
Qed.

Lemma slice_fuel (s : string) (lo hi : nat) : slice s lo hi <> OutOfFuel.
Proof. unfold slice. destruct ((lo <=? hi)%nat && (hi <=? len s)%nat); discriminate. Qed.

Lemma sliceFrom_fuel (s : string) (lo : nat) : sliceFrom s lo <> OutOfFuel.
Proof. apply slice_fuel. Qed.

Lemma loadCommit_fuel (st : state) : loadCommit st <> OutOfFuel.
Proof.
  unfold loadCommit. destruct (currentCommit st) as [p|]; [|discriminate].
  destruct (nth_error (heap st) p); discriminate.
Qed.

Lemma appendFile_fuel (st : state) (f : File) : appendFile st f <> OutOfFuel.
Proof.
  unfold appendFile. pose proof (loadCommit_fuel st).
  destruct (loadCommit st); simpl; congruence.
Qed.

Lemma lenFiles_fuel (st : state) : lenFiles st <> OutOfFuel.
Proof.
  unfold lenFiles. pose proof (loadCommit_fuel st).
  destruct (loadCommit st); simpl; congruence.
Qed.

Lemma assignField_fuel (st : state) (set : Commit -> string -> Commit) (line : string) :
  assignField st set line <> OutOfFuel.
Proof.
  unfold assignField. pose proof (sliceFrom_fuel line 2).
  destruct (sliceFrom line 2); simpl; try congruence.
  pose proof (loadCommit_fuel st). destruct (loadCommit st); simpl; congruence.
Qed.

(** A step that cannot run a loop either yields a value or panics. *)
Lemma terminates_bind_pure {A B : Type} (Q : B -> Prop) (m : outcome A) (k : A -> outcome B) :
  m <> OutOfFuel -> (forall a, m = Ret a -> terminates Q (k a)) -> terminates Q (bind m k).
Proof. destruct m; simpl; intros H1 H2; [auto|exact I|congruence]. Qed.

Lemma fileExitWithin_mono (r r1 : Reader) (x : fileExit) :
  strictlyWithin r r1 -> fileExitWithin r1 x -> fileExitWithin r x.
Proof.
  intros H. destruct x; simpl; [auto| |].
  - intros H1. eapply within_trans; [apply strictly_within; exact H|exact H1].
  - intros H1. eapply strictly_then_within; [exact H|apply strictly_within; exact H1].
Qed.

Ltac pure_step :=
  match goal with
  | |- terminates _ (bind (slice _ _ _) _) =>
      apply terminates_bind_pure; [apply slice_fuel|intros ? _]
  | |- terminates _ (bind (sliceFrom _ _) _) =>
      apply terminates_bind_pure; [apply sliceFrom_fuel|intros ? _]
  | |- terminates _ (bind (appendFile _ _) _) =>
      apply terminates_bind_pure; [apply appendFile_fuel|intros ? _]
  | |- terminates _ (bind (bind _ _) _) => rewrite bind_assoc
  | |- terminates _ (bind (Ret _) _) => simpl bind
  | |- terminates _ (bind (if ?b then _ else _) _) => destruct b
  | |- terminates _ (if ?b then _ else _) => destruct b
  end.

Lemma currFileLoop_terminates (fuel : nat) (maxBytes : Z) (st : state) (cf : File)
  (parseRename : bool) (r : Reader) :
  2 <= capacity r -> len (pending r) + 1 < fuel ->
  terminates (fileExitWithin r) (currFileLoop fuel maxBytes st cf parseRename r).
Proof.
  revert st cf parseRename r.
  induction fuel as [|fuel IH]; intros st cf parseRename r Hc Hf; [lia|].
  simpl. destruct (ReadString r) as [[line e] r1] eqn:E.
  pose proof (ReadString_within _ _ _ _ E) as Hw.
  destruct e as [x|].
  { destruct (isEOF x); simpl; [exact Hw|exact I]. }
  assert (Hc1 : 2 <= capacity r1) by (destruct Hw as (_ & -> & _); exact Hc).
  assert (Hf1 : len (pending r1) + 1 < fuel) by (destruct Hw as (_ & _ & ?); lia).
  assert (Hrec : forall st cf pr,
             terminates (fileExitWithin r) (currFileLoop fuel maxBytes st cf pr r1)).
  { intros. eapply terminates_weaken; [apply IH; assumption|].
    intros a. apply fileExitWithin_mono. exact Hw. }
  repeat first [apply Hrec | pure_step];
    try (simpl; apply strictly_within; exact Hw);
    try (simpl; exact Hw).
  (* the hunks of the file *)
  all: unfold parseHunks; eapply terminates_bind;
    [apply returns_terminates, parseHunksLoop_returns; [exact Hc1|lia]|].
  all: intros h Hh; simpl in Hh.
  all: assert (Hrh : strictlyWithin r (hInput h))
         by (eapply strictly_then_within; eassumption).
  all: destruct (hErr h) as [x|];
    [destruct (isEOF x); [|exact I]|];
    (apply terminates_bind_pure; [apply appendFile_fuel|intros st' _]);
    try (simpl; apply strictly_within; exact Hrh).
  all: destruct (String.eqb (hLineBytes h) EmptyString);
    [simpl; apply strictly_within; exact Hrh|].
  all: eapply terminates_bind;
    [apply returns_terminates, discardFragments_returns;
     [destruct Hh as (_ & -> & _); exact Hc1|destruct Hh as (_ & _ & ?); lia]|].
  all: intros [e2 r2] Hw2; simpl in Hw2; destruct e2; simpl; [exact I|].
  all: eapply strictly_then_within; eassumption.
Qed.

Lemma loopDiff_terminates (fuel : nat) (maxFiles maxBytes : Z) (st : state) (r : Reader) :
  2 <= capacity r -> len (pending r) + 2 < fuel ->
  terminates (diffExitWithin r) (loopDiff fuel maxFiles maxBytes st r).
Proof.
  revert st r. induction fuel as [|fuel IH]; intros st r Hc Hf; [lia|].
  simpl. apply terminates_bind_pure.
  { destruct (maxFiles >? -1)%Z; [|discriminate].
    pose proof (lenFiles_fuel st). destruct (lenFiles st); simpl; congruence. }
  intros capped _. destruct capped.
  { simpl. unfold within, discardAll. simpl. repeat split. lia. }
  eapply terminates_bind; [apply currFileLoop_terminates; [exact Hc|lia]|].
  intros [st1 e|st1 r1|st1 r1] Hx; simpl in Hx; simpl; [exact I|exact Hx|].
  eapply terminates_weaken;
    [apply IH; [destruct Hx as (_ & -> & _); exact Hc|destruct Hx as (_ & _ & ?); lia]|].
  intros [st2 e|st2 r2]; simpl; [auto|].
  intros H. eapply within_trans; [apply strictly_within; exact Hx|exact H].
Qed.

Lemma loopCommits_terminates (fuel : nat) (maxFiles maxBytes : Z) (st : state) (r : Reader) :
  2 <= capacity r -> len (pending r) + 2 < fuel ->
  terminates (fun _ => True) (loopCommits fuel maxFiles maxBytes st r).
Proof.
  revert st r. induction fuel as [|fuel IH]; intros st r Hc Hf; [lia|].
  simpl. destruct (ReadString r) as [[line e] r1] eqn:E.
  pose proof (ReadString_within _ _ _ _ E) as Hw.
  destruct e as [x|]; [destruct (isEOF x); exact I|].
  assert (Hc1 : 2 <= capacity r1) by (destruct Hw as (_ & -> & _); exact Hc).
  assert (Hf1 : len (pending r1) + 2 < fuel) by (destruct Hw as (_ & _ & ?); lia).
  destruct (chomp line) as [|c l]; [exact I|].
  destruct (Ascii.eqb c "c").
  { apply terminates_bind_pure; [apply sliceFrom_fuel|intros hash _].
    apply IH; assumption. }
  destruct (Ascii.eqb c "a").
  { apply terminates_bind_pure; [apply assignField_fuel|intros st1 _]. apply IH; assumption. }
  destruct (Ascii.eqb c "m").
  { apply terminates_bind_pure; [apply assignField_fuel|intros st1 _]. apply IH; assumption. }
  destruct (Ascii.eqb c "t").
  { apply terminates_bind_pure; [apply assignField_fuel|intros st1 _]. apply IH; assumption. }
  eapply terminates_bind; [apply loopDiff_terminates; assumption|].
  intros [st1 e|st1 r2] Hx; simpl in Hx; [exact I|].
  apply IH; [destruct Hx as (_ & -> & _); exact Hc1|destruct Hx as (_ & _ & ?); lia].
Qed.

Lemma NewReaderSize_capacity (data : string) (end_ : error) (size : Z) :
  16 <= capacity (NewReaderSize data end_ size).
Proof.
  unfold NewReaderSize, minReadBufferSize. simpl.
  destruct (size <? 16)%Z eqn:E; [simpl; lia|].
  apply Z.ltb_ge in E. lia.
Qed.

(** X1. The loop bound of [parseLog] is never reached: each run returns a result
    or panics. *)
Theorem parseLog_total (data : string) (end_ : error) (maxFiles maxBytes : Z) :
  parseLog data end_ maxFiles maxBytes <> OutOfFuel.
Proof.
  unfold parseLog, parseLogState.
  pose proof (loopCommits_terminates (len data + 3) maxFiles maxBytes initialState
                (NewReaderSize data end_ maxBytes)) as H.
  pose proof (NewReaderSize_capacity data end_ maxBytes) as Hc.
  destruct (loopCommits _ _ _ _ _); simpl; try discriminate.
  intros _. apply H; [lia|simpl; lia].
Qed.

(** ** Evaluations at concrete streams *)

(** C1. A commit that changes the mode of [x] and then edits [y] comes out
    with the single file [y]: the header of [x] has no [+++] line, and at the
    next [diff --git] line the record of [x] is dropped instead of appended
    (a blank line in the same place appends it). *)
Theorem parseLog_drops_file_without_hunks :
  parseLog (unlines (metadata "h1" "n" "e" "1" ++ chmod "x" ++ edit "y")) EOF 10 100
  = Ret ([Some (mkCommit "h1" "n" "e" "1" "" [edited "y"])], None).
Proof. vm_compute. reflexivity. Qed.

(** The test of the byte cap in [parseHunks] holds for a cap of 0 only. *)
Lemma byte_cap_test (maxBytes : Z) :
  ((maxBytes >? -1) && (currFileLineCount >=? maxBytes))%Z = (maxBytes =? 0)%Z.
Proof.
  unfold currFileLineCount.
  destruct (Z.gtb_spec maxBytes (-1)), (Z.geb_spec 0 maxBytes), (Z.eqb_spec maxBytes 0);
    simpl; try reflexivity; lia.
Qed.

(** C2. With a cap of 5 bytes (and a buffer of 16, which every line fits), a
    file with 41 bytes of hunk lines keeps all of them and is not marked
    truncated: the counter compared with the cap is never advanced. *)
Theorem parseLog_ignores_byte_cap :
  exists f,
    parseLog (unlines (metadata "h1" "n" "e" "1" ++
                       ["diff --git a/y b/y"; "--- a/y"; "+++ b/y";
                        "@@ -1 +1 @@"; "-aaaaaaaaaaaa"; "+bbbbbbbbbbbbb"]))
             EOF 5 5
    = Ret ([Some (mkCommit "h1" "n" "e" "1" "" [f])], None)
    /\ Truncated f = false
    /\ len (Content f) = 41
    /\ Content f = unlines ["@@ -1 +1 @@"; "-aaaaaaaaaaaa"; "+bbbbbbbbbbbbb"].
Proof.
  eexists. split; [vm_compute; reflexivity|].
  repeat split; reflexivity.
Qed.

(** C4. The parser panics on a stream that is one blank line ([line[0]] of
    the empty string) and on an author line that no commit line precedes
    (assignment through the nil [currentCommit]). *)
Theorem parseLog_panics_on_malformed_input :
  forall maxFiles maxBytes : Z,
    parseLog (unlines [""]) EOF maxFiles maxBytes = Panic IndexOutOfRange
    /\ parseLog (unlines ["a name"]) EOF maxFiles maxBytes = Panic NilDereference.
Proof. intros. split; reflexivity. Qed.

(** C8. Four metadata lines and a blank line: the blank line is read by the
    commit loop, stripped to the empty string, and indexed. *)
Theorem parseLog_panics_on_empty_commit :
  forall maxFiles maxBytes : Z,
    parseLog (unlines (metadata "h1" "n" "e" "1" ++ [""])) EOF maxFiles maxBytes
    = Panic IndexOutOfRange.
Proof. intros. reflexivity. Qed.

(** C9. A stream that ends after the four metadata lines yields no commit:
    the commit loop leaves at end of input without appending the open
    commit. *)
Theorem parseLog_drops_open_commit_at_EOF :
  forall maxFiles maxBytes : Z,
    parseLog (unlines (metadata "h1" "n" "e" "1")) EOF maxFiles maxBytes
    = Ret ([], None).
Proof. intros. reflexivity. Qed.

(** ** Lines *)

Lemma len_app (a b : string) : len (a ++ b) = len a + len b.
Proof. unfold len. induction a as [|c a IH]; simpl; [reflexivity|]. rewrite IH. reflexivity. Qed.

Lemma cutLine_line (l rest : string) :
  noLF l = true -> cutLine (l ++ String LF rest) = Some (l ++ String LF EmptyString, rest).
Proof.
  induction l as [|c l IH]; simpl; intros H; [reflexivity|].
  apply andb_true_iff in H. destruct H as [H1 H2].
  apply negb_true_iff in H1. rewrite H1, (IH H2). reflexivity.
Qed.

Lemma ReadString_line (r : Reader) (l rest : string) :
  noLF l = true -> pending r = l ++ String LF rest ->
  ReadString r = (l ++ String LF EmptyString, None, withPending r rest).
Proof. intros H E. unfold ReadString. rewrite E, (cutLine_line _ _ H). reflexivity. Qed.

Lemma substring_whole (s t : string) : substring 0 (len s) (s ++ t) = s.
Proof.
  unfold len. induction s as [|c s IH]; simpl.
  - destruct t; reflexivity.
  - rewrite IH. reflexivity.
Qed.

Lemma substring_skip (p s : string) (m : nat) :
  substring (len p) m (p ++ s) = substring 0 m s.
Proof. unfold len. induction p as [|c p IH]; simpl; [reflexivity|exact IH]. Qed.

(** [line[k : len(line)-1]] of a line that starts with [k] bytes of keyword is
    the text between the keyword and the line feed. *)
Lemma slice_line (pre body : string) :
  slice (pre ++ body ++ String LF EmptyString) (len pre)
        (len (pre ++ body ++ String LF EmptyString) - 1) = Ret body.
Proof.
  unfold slice. rewrite !len_app. simpl len.
  replace (len pre + (len body + 1) - 1) with (len pre + len body) by lia.
  replace (len pre + len body - len pre) with (len body) by lia.
  destruct (Nat.leb_spec (len pre) (len pre + len body)); [|lia].
  destruct (Nat.leb_spec (len pre + len body) (len pre + (len body + 1))); [|lia].
  simpl. rewrite substring_skip, substring_whole. reflexivity.
Qed.

Lemma sliceFrom_app (pre s : string) : sliceFrom (pre ++ s) (len pre) = Ret s.
Proof.
  unfold sliceFrom, slice. rewrite len_app.
  destruct (Nat.leb_spec (len pre) (len pre + len s)); [|lia].
  rewrite Nat.leb_refl. simpl.
  replace (len pre + len s - len pre) with (len s) by lia.
  rewrite substring_skip. f_equal.
  clear. unfold len. induction s as [|c s IH]; simpl; [reflexivity|]. rewrite IH. reflexivity.
Qed.

Lemma app_assoc_string (a b c : string) : (a ++ b) ++ c = a ++ b ++ c.
Proof. induction a as [|x a IH]; simpl; [reflexivity|]. rewrite IH. reflexivity. Qed.

Lemma HasPrefix_empty (s : string) : HasPrefix s EmptyString = true.
Proof. destruct s; reflexivity. Qed.

(** ** One header line at a time *)

Lemma currFileLoop_deleted (fuel : nat) (maxBytes : Z) (st : state) (cf : File)
  (pr : bool) (r : Reader) (m rest : string) :
  noLF m = true ->
  pending r = "deleted file" ++ m ++ String LF rest ->
  currFileLoop (S fuel) maxBytes st cf pr r
  = currFileLoop fuel maxBytes st (setIsDeleted cf true) pr (withPending r rest).
Proof.
  intros Hm E. cbn [currFileLoop].
  rewrite (ReadString_line r ("deleted file" ++ m) rest); [|exact Hm|exact E].
  simpl. rewrite HasPrefix_empty. reflexivity.
Qed.

Lemma prefix_split (p s : string) : prefix p s = true -> exists t, s = p ++ t.
Proof.
  revert s. induction p as [|c p IH]; intros s H.
  - exists s. reflexivity.
  - destruct s as [|d s]; simpl in H; [discriminate|].
    destruct (ascii_dec c d) as [->|]; [|discriminate].
    destruct (IH _ H) as [t ->]. exists t. reflexivity.
Qed.

Lemma noLF_app (a b : string) : noLF (a ++ b) = noLF a && noLF b.
Proof.
  induction a as [|c a IH]; simpl; [reflexivity|]. rewrite IH, andb_assoc. reflexivity.
Qed.

Lemma unlines_cons_app (l : string) (ls : list string) (rest : string) :
  unlines (l :: ls) ++ rest = l ++ String LF (unlines ls ++ rest).
Proof. simpl. rewrite app_assoc_string. reflexivity. Qed.

Lemma fuel_step (fuel : nat) (l rest : string) :
  len (l ++ String LF rest) + 1 < fuel -> exists f, fuel = S f /\ len rest + 1 < f.
Proof.
  rewrite len_app. simpl len. intros H. destruct fuel as [|f]; [lia|].
  exists f. split; [reflexivity|]. unfold len in *. lia.
Qed.

Lemma currFileLoop_passedOver (fuel : nat) (maxBytes : Z) (st : state) (cf : File)
  (pr : bool) (r : Reader) (l rest : string) :
  passedOver l = true ->
  pending r = l ++ String LF rest ->
  currFileLoop (S fuel) maxBytes st cf pr r
  = currFileLoop fuel maxBytes st cf pr (withPending r rest).
Proof.
  unfold passedOver. intros H E. apply andb_true_iff in H. destruct H as [Hl H].
  cbn [currFileLoop]. rewrite (ReadString_line r l rest Hl E).
  repeat (apply orb_true_iff in H; destruct H as [H|H]);
    apply prefix_split in H; destruct H as [t ->]; simpl;
    rewrite ?HasPrefix_empty; reflexivity.
Qed.

Lemma currFileLoop_passedOver_all (mids : list string) :
  forall (fuel : nat) (maxBytes : Z) (st : state) (cf : File) (pr : bool) (r : Reader)
         (rest : string),
    forallb passedOver mids = true ->
    pending r = unlines mids ++ rest ->
    currFileLoop (List.length mids + fuel) maxBytes st cf pr r
    = currFileLoop fuel maxBytes st cf pr (withPending r rest).
Proof.
  induction mids as [|l mids IH]; intros fuel maxBytes st cf pr r rest H E.
  - simpl in *. destruct r; unfold withPending; simpl in *. subst. reflexivity.
  - simpl in H. apply andb_true_iff in H. destruct H as [Hl H].
    rewrite unlines_cons_app in E. simpl List.length. simpl Nat.add.
    rewrite (currFileLoop_passedOver _ _ _ _ _ _ _ _ Hl E).
    rewrite (IH fuel maxBytes st cf pr (withPending r (unlines mids ++ rest)) rest H eq_refl).
    reflexivity.
Qed.

Lemma currFileLoop_minus (fuel : nat) (maxBytes : Z) (st : state) (cf : File)
  (pr : bool) (r : Reader) (name rest : string) :
  noLF name = true ->
  pending r = "--- " ++ name ++ String LF rest ->
  currFileLoop (S fuel) maxBytes st cf pr r
  = (cf' <- (if pr && IsDeleted cf then
               n <- sliceFrom name 2 ;; Ret (setFilename cf n)
             else if pr && HasPrefix name "a/" then
               n <- sliceFrom name 2 ;; Ret (setOldFilename cf n)
             else Ret cf) ;;
     currFileLoop fuel maxBytes st cf' pr (withPending r rest)).
Proof.
  intros Hm E. cbn [currFileLoop].
  rewrite (ReadString_line r ("--- " ++ name) rest); [|exact Hm|exact E].
  pose proof (slice_line "--- " name) as Hs.
  change (len "--- ") with 4 in Hs.
  cbn [append] in Hs |- *.
  set (line := String "-" (String "-" (String "-" (String " " (name ++ String LF ""))))) in *.
  assert (Hp : HasPrefix line "--- " = true) by (subst line; simpl; apply HasPrefix_empty).
  assert (Hn : forall p c, (p <> "-")%char -> HasPrefix line (String p c) = false).
  { intros p c Hpc. subst line. simpl. destruct (ascii_dec p "-"); [contradiction|reflexivity]. }
  assert (He : String.eqb line (String LF "") = false) by (subst line; reflexivity).
  rewrite He.
  repeat (rewrite Hn by discriminate).
  rewrite Hp, Hs. reflexivity.
Qed.

(** ** The store *)

Lemma nth_error_update_same {A : Type} (l : list A) (n : nat) (x y : A) :
  nth_error l n = Some y -> nth_error (update n x l) n = Some x.
Proof.
  revert n. induction l as [|a l IH]; intros [|n] H; simpl in *; try discriminate.
  - reflexivity.
  - apply IH. exact H.
Qed.

Lemma loadCommit_inv (st : state) (c : Commit) :
  loadCommit st = Ret c ->
  exists p, currentCommit st = Some p /\ nth_error (heap st) p = Some c.
Proof.
  unfold loadCommit. destruct (currentCommit st) as [p|]; [|discriminate].
  destruct (nth_error (heap st) p) as [c'|] eqn:E; [|discriminate].
  intros H. inversion H; subst. eauto.
Qed.

Lemma loadCommit_storeCommit (st : state) (c c' : Commit) :
  loadCommit st = Ret c -> loadCommit (storeCommit st c') = Ret c'.
Proof.
  intros H. destruct (loadCommit_inv _ _ H) as (p & Hp & Hn).
  unfold loadCommit, storeCommit. rewrite Hp. simpl.
  rewrite (nth_error_update_same _ _ _ _ Hn). reflexivity.
Qed.

Lemma appendFile_ok (st : state) (c : Commit) (f : File) :
  loadCommit st = Ret c ->
  appendFile st f = Ret (storeCommit st (setFiles c (Files c ++ [f]))).
Proof. intros H. unfold appendFile. rewrite H. reflexivity. Qed.

Lemma loadCommit_setHeaderParsed (st : state) (b : bool) :
  loadCommit (setHeaderParsed st b) = loadCommit st.
Proof. reflexivity. Qed.

(** ** parseHunks only writes the content and the truncation mark *)

Lemma sameHeader_refl (f : File) : sameHeader f f.
Proof. unfold sameHeader. auto. Qed.

Lemma sameHeader_trans (f g h : File) : sameHeader f g -> sameHeader g h -> sameHeader f h.
Proof. unfold sameHeader. intuition congruence. Qed.

Lemma parseHunksLoop_sameHeader (fuel : nat) (cf : File) (maxBytes : Z) (b : bool)
  (r : Reader) (h : hunks) :
  parseHunksLoop fuel cf maxBytes b r = Ret h -> sameHeader (hFile h) cf.
Proof.
  revert cf b r. induction fuel as [|fuel IH]; intros cf b r H; [discriminate|].
  simpl in H.
  assert (H0 : sameHeader (if b then setTruncated cf true else cf) cf)
    by (destruct b; unfold sameHeader; auto).
  set (cf0 := if b then setTruncated cf true else cf) in *.
  destruct (discardFragments fuel b r) as [[e1 r1]|p|]; simpl in H; try discriminate.
  destruct e1 as [x|]; [inversion H; subst; exact H0|].
  destruct (ReadLine r1) as [[[l frag] e] r2].
  destruct e as [x|]; [inversion H; subst; exact H0|].
  destruct l as [|c l]; [inversion H; subst; exact H0|].
  destruct (Ascii.eqb c "d"); [inversion H; subst; exact H0|].
  destruct ((maxBytes >? -1)%Z && (currFileLineCount >=? maxBytes)%Z).
  - apply IH in H. eapply sameHeader_trans; [exact H|].
    eapply sameHeader_trans; [|exact H0]. unfold sameHeader. auto.
  - assert (H1 : sameHeader (if frag then setTruncated cf0 true else cf0) cf)
      by (eapply sameHeader_trans; [|exact H0]; destruct frag; unfold sameHeader; auto).
    set (cf1 := if frag then setTruncated cf0 true else cf0) in *.
    destruct (discardFragments fuel frag r2) as [[e3 r3]|p|]; simpl in H; try discriminate.
    destruct e3 as [x|]; [inversion H; subst; exact H1|].
    apply IH in H. eapply sameHeader_trans; [exact H|].
    eapply sameHeader_trans; [|exact H1]. unfold sameHeader. auto.
Qed.

(** ** The [+++] line and what follows it *)

Lemma currFileLoop_plus (fuel : nat) (maxBytes : Z) (st : state) (c : Commit) (cf : File)
  (pr : bool) (r : Reader) (name rest : string) :
  loadCommit st = Ret c ->
  noLF name = true ->
  pending r = "+++ " ++ name ++ String LF rest ->
  pr && HasPrefix name "b/" = false ->
  2 <= capacity r -> len rest + 1 < fuel ->
  returns (emits st c (fun f => sameHeader f cf))
          (currFileLoop (S fuel) maxBytes st cf pr r).
Proof.
  intros Hc Hm E Hb Hcap Hf. cbn [currFileLoop].
  rewrite (ReadString_line r ("+++ " ++ name) rest); [|exact Hm|exact E].
  pose proof (slice_line "+++ " name) as Hs.
  change (len "+++ ") with 4 in Hs.
  cbn [append] in Hs |- *.
  set (line := String "+" (String "+" (String "+" (String " " (name ++ String LF ""))))) in *.
  assert (Hp : HasPrefix line "+++ " = true) by (subst line; simpl; apply HasPrefix_empty).
  assert (Hn : forall p s, (p <> "+")%char -> HasPrefix line (String p s) = false).
  { intros p s Hps. subst line. simpl. destruct (ascii_dec p "+"); [contradiction|reflexivity]. }
  assert (He : String.eqb line (String LF "") = false) by (subst line; reflexivity).
  rewrite He.
  repeat (rewrite Hn by discriminate).
  rewrite Hp, Hs. cbn [bind]. rewrite Hb. cbn [bind].
  unfold parseHunks.
  pose proof (parseHunksLoop_returns fuel cf maxBytes false (withPending r rest) Hcap) as Hh.
  apply returns_inv in Hh; [|simpl; exact Hf]. destruct Hh as (h & Eh & Hw).
  rewrite Eh. cbn [bind].
  pose proof (parseHunksLoop_sameHeader _ _ _ _ _ _ Eh) as Hsame.
  assert (Hemit : forall b input x,
             x = BreakLoopDiff (setHeaderParsed (storeCommit st (setFiles c (Files c ++ [hFile h]))) b) input
             \/ x = BreakCurrFileLoop (storeCommit st (setFiles c (Files c ++ [hFile h]))) input
             \/ (exists e, x = ReturnErr (storeCommit st (setFiles c (Files c ++ [hFile h]))) e) ->
             emits st c (fun f => sameHeader f cf) x).
  { intros b input x Hx. right. exists (hFile h). split; [|exact Hsame].
    destruct Hx as [->|[->|[e ->]]]; simpl;
      rewrite ?loadCommit_setHeaderParsed; apply (loadCommit_storeCommit _ _ _ Hc). }
  rewrite (appendFile_ok _ _ (hFile h) Hc). cbn [bind].
  destruct (hErr h) as [e|].
  - destruct (isEOF e); simpl.
    + eapply Hemit. left. reflexivity.
    + left. exists e. reflexivity.
  - destruct (String.eqb (hLineBytes h) EmptyString); simpl.
    + eapply Hemit. left. reflexivity.
    + pose proof (discardFragments_returns fuel (hIsFragment h) (hInput h)) as Hd.
      apply returns_inv in Hd;
        [|destruct Hw as (_ & -> & _); exact Hcap|destruct Hw as (_ & _ & Hw); simpl in Hw; lia].
      destruct Hd as ([e2 r2] & Ed & _). rewrite Ed. cbn [bind].
      destruct e2 as [e2|]; simpl.
      * apply (Hemit false r2). right. right. eauto.
      * apply (Hemit false r2). right. left. reflexivity.
Qed.

Lemma unlines_app (xs ys : list string) : unlines (xs ++ ys) = unlines xs ++ unlines ys.
Proof.
  induction xs as [|x xs IH]; simpl; [reflexivity|].
  rewrite IH, app_assoc_string. reflexivity.
Qed.

Lemma unlines_len (ls : list string) : List.length ls <= len (unlines ls).
Proof.
  induction ls as [|l ls IH]; simpl; [lia|].
  rewrite len_app. simpl len. unfold len in *. lia.
Qed.

Lemma emits_weaken (st : state) (c : Commit) (P Q : File -> Prop) (x : fileExit) :
  emits st c P x -> (forall f, P f -> Q f) -> emits st c Q x.
Proof.
  intros [H|(f & H1 & H2)] HPQ; [left; exact H|right; exists f; auto].
Qed.

(** ** Deleted files *)

(** C7. In the header of a file, after a [deleted file] line, any mode and
    index lines, [--- a/<path>] and [+++ /dev/null], with no [rename to] or
    [copy to] line read before for that file, the record appended to the
    commit (when no read error ends the parse before) has [Filename = path],
    the [a/] stripped, and [IsDeleted = true]. *)
Theorem deleted_file_record (fuel : nat) (maxBytes : Z) (st : state) (c : Commit)
  (cf : File) (r : Reader) (m : string) (mids : list string) (path rest : string) :
  loadCommit st = Ret c ->
  noLF m = true -> forallb passedOver mids = true -> noLF path = true ->
  pending r
  = unlines (("deleted file" ++ m) :: mids ++ ["--- a/" ++ path; "+++ /dev/null"]) ++ rest ->
  2 <= capacity r -> len (pending r) + 1 < fuel ->
  returns (emits st c (fun f => Filename f = path /\ IsDeleted f = true))
          (currFileLoop fuel maxBytes st cf true r).
Proof.
  intros Hc Hm Hmids Hpath E Hcap Hf.
  assert (E' : pending r
               = "deleted file" ++ m
                 ++ String LF (unlines mids
                               ++ ("--- a/" ++ path)
                               ++ String LF ("+++ /dev/null" ++ String LF rest))).
  { rewrite E, unlines_cons_app, app_assoc_string. f_equal. f_equal. f_equal.
    rewrite unlines_app, (app_assoc_string (unlines mids)). f_equal.
    rewrite !unlines_cons_app. reflexivity. }
  clear E. rename E' into E.
  assert (Hfuel : exists f, fuel = S (List.length mids + S (S f)) /\ len rest + 1 < f).
  { rewrite E in Hf. rewrite !len_app in Hf. simpl len in Hf. rewrite !len_app in Hf.
    simpl len in Hf. rewrite !len_app in Hf. simpl len in Hf.
    pose proof (unlines_len mids) as Hl. unfold len in *.
    exists (fuel - (3 + List.length mids)). lia. }
  destruct Hfuel as (f & -> & Hf').
  rewrite (currFileLoop_deleted _ _ _ _ _ _ _ _ Hm E).
  rewrite (currFileLoop_passedOver_all mids _ _ _ _ _
             (withPending r (unlines mids ++ ("--- a/" ++ path)
                             ++ String LF ("+++ /dev/null" ++ String LF rest)))
             (("--- a/" ++ path) ++ String LF ("+++ /dev/null" ++ String LF rest))
             Hmids eq_refl).
  rewrite (currFileLoop_minus _ _ _ _ _ _ ("a/" ++ path)
             ("+++ /dev/null" ++ String LF rest));
    [|simpl; exact Hpath|simpl; rewrite ?app_assoc_string; reflexivity].
  change (IsDeleted (setIsDeleted cf true)) with true. cbn [andb].
  pose proof (sliceFrom_app "a/" path) as Hs. change (len "a/") with 2 in Hs.
  rewrite Hs. cbn [bind].
  eapply returns_weaken.
  - apply (currFileLoop_plus f maxBytes st c _ true _ "/dev/null" rest Hc);
      [reflexivity|reflexivity|reflexivity|exact Hcap|exact Hf'].
  - intros x Hx. eapply emits_weaken; [exact Hx|].
    intros g (H1 & _ & _ & H4). rewrite H1, H4. split; reflexivity.
Qed.

(** A commit with a deleted file, as git prints it. *)
Lemma deleted_file_record_witness :
  returns (emits (newCommit initialState "h1")
                 (mkCommit "h1" "" "" "" "" [])
                 (fun f => Filename f = "path.txt" /\ IsDeleted f = true))
          (currFileLoop 200 100 (newCommit initialState "h1") emptyFile true
             (NewReaderSize
                (unlines ["deleted file mode 100644"; "index e69de29..0000000";
                          "--- a/path.txt"; "+++ /dev/null"; "@@ -1 +0,0 @@"; "-a"])
                EOF 100)).
Proof.
  apply (deleted_file_record 200 100 (newCommit initialState "h1")
           (mkCommit "h1" "" "" "" "" []) emptyFile _
           " mode 100644" ["index e69de29..0000000"] "path.txt"
           (unlines ["@@ -1 +0,0 @@"; "-a"]));
    [reflexivity|reflexivity|reflexivity|reflexivity|reflexivity|vm_compute; lia|vm_compute; lia].
Defined.

(** ** Renames and copies *)

Lemma currFileLoop_from (fuel : nat) (maxBytes : Z) (st : state) (cf : File)
  (pr : bool) (r : Reader) (kw path rest : string) :
  kw = "rename" \/ kw = "copy" ->
  noLF path = true ->
  pending r = kw ++ " from " ++ path ++ String LF rest ->
  currFileLoop (S fuel) maxBytes st cf pr r
  = currFileLoop fuel maxBytes st (setOldFilename cf (" " ++ path)) pr (withPending r rest).
Proof.
  intros Hkw Hm E. cbn [currFileLoop]. destruct Hkw; subst kw.
  - rewrite (ReadString_line r ("rename from " ++ path) rest); [|exact Hm|exact E].
    pose proof (slice_line "rename from" (" " ++ path)) as Hs.
    change (len "rename from") with 11 in Hs.
    cbn [append] in Hs |- *.
    set (line := String "r" (String "e" (String "n" (String "a" (String "m" (String "e" (String " " _))))))) in *.
    assert (Hn : forall p s, (p <> "r")%char -> HasPrefix line (String p s) = false).
    { intros p s Hps. subst line. simpl. destruct (ascii_dec p "r"); [contradiction|reflexivity]. }
    assert (He : String.eqb line (String LF "") = false) by (subst line; reflexivity).
    assert (Hp : HasPrefix line "rename from " = true) by (subst line; simpl; apply HasPrefix_empty).
    rewrite He. repeat (rewrite Hn by discriminate). rewrite Hp, Hs. reflexivity.
  - rewrite (ReadString_line r ("copy from " ++ path) rest); [|exact Hm|exact E].
    pose proof (slice_line "copy from" (" " ++ path)) as Hs.
    change (len "copy from") with 9 in Hs.
    cbn [append] in Hs |- *.
    set (line := String "c" (String "o" (String "p" (String "y" (String " " _))))) in *.
    assert (Hn : forall p s, (p <> "c")%char -> HasPrefix line (String p s) = false).
    { intros p s Hps. subst line. simpl. destruct (ascii_dec p "c"); [contradiction|reflexivity]. }
    assert (He : String.eqb line (String LF "") = false) by (subst line; reflexivity).
    assert (Hp : HasPrefix line "copy from " = true) by (subst line; simpl; apply HasPrefix_empty).
    rewrite He. repeat (rewrite Hn by discriminate). rewrite Hp, Hs. reflexivity.
Qed.

Lemma currFileLoop_to (fuel : nat) (maxBytes : Z) (st : state) (cf : File)
  (pr : bool) (r : Reader) (kw path rest : string) :
  kw = "rename" \/ kw = "copy" ->
  noLF path = true ->
  pending r = kw ++ " to " ++ path ++ String LF rest ->
  currFileLoop (S fuel) maxBytes st cf pr r
  = currFileLoop fuel maxBytes st (setFilename cf (" " ++ path)) false (withPending r rest).
Proof.
  intros Hkw Hm E. cbn [currFileLoop]. destruct Hkw; subst kw.
  - rewrite (ReadString_line r ("rename to " ++ path) rest); [|exact Hm|exact E].
    pose proof (slice_line "rename to" (" " ++ path)) as Hs.
    change (len "rename to") with 9 in Hs.
    cbn [append] in Hs |- *.
    set (line := String "r" (String "e" (String "n" (String "a" (String "m" (String "e" (String " " _))))))) in *.
    assert (Hn : forall p s, (p <> "r")%char -> HasPrefix line (String p s) = false).
    { intros p s Hps. subst line. simpl. destruct (ascii_dec p "r"); [contradiction|reflexivity]. }
    assert (He : String.eqb line (String LF "") = false) by (subst line; reflexivity).
    assert (Hq : HasPrefix line "rename from " = false) by (subst line; reflexivity).
    assert (Hp : HasPrefix line "rename to " = true) by (subst line; simpl; apply HasPrefix_empty).
    rewrite He. repeat (rewrite Hn by discriminate). rewrite Hq, Hp, Hs. reflexivity.
  - rewrite (ReadString_line r ("copy to " ++ path) rest); [|exact Hm|exact E].
    pose proof (slice_line "copy to" (" " ++ path)) as Hs.
    change (len "copy to") with 7 in Hs.
    cbn [append] in Hs |- *.
    set (line := String "c" (String "o" (String "p" (String "y" (String " " _))))) in *.
    assert (Hn : forall p s, (p <> "c")%char -> HasPrefix line (String p s) = false).
    { intros p s Hps. subst line. simpl. destruct (ascii_dec p "c"); [contradiction|reflexivity]. }
    assert (He : String.eqb line (String LF "") = false) by (subst line; reflexivity).
    assert (Hq : HasPrefix line "copy from " = false) by (subst line; reflexivity).
    assert (Hp : HasPrefix line "copy to " = true) by (subst line; simpl; apply HasPrefix_empty).
    rewrite He. repeat (rewrite Hn by discriminate). rewrite Hq, Hp, Hs. reflexivity.
Qed.

(** C6, as the code has it. After [rename from <old>] and [rename to <new>]
    (or the [copy] pair), any mode and index lines, and then [--- ] and [+++ ]
    lines with any paths, the record appended to the commit still ends its
    [OldFilename] with [<old>] and its [Filename] with [<new>], the text of
    the rename lines as written there: the later path lines overwrite
    neither. *)
Theorem rename_pair_record (fuel : nat) (maxBytes : Z) (st : state) (c : Commit)
  (cf : File) (pr : bool) (r : Reader) (kw old new : string) (mids : list string)
  (x y rest : string) :
  kw = "rename" \/ kw = "copy" ->
  loadCommit st = Ret c ->
  noLF old = true -> noLF new = true -> forallb passedOver mids = true ->
  noLF x = true -> noLF y = true ->
  pending r
  = unlines ([kw ++ " from " ++ old; kw ++ " to " ++ new] ++ mids
             ++ ["--- " ++ x; "+++ " ++ y]) ++ rest ->
  2 <= capacity r -> len (pending r) + 1 < fuel ->
  returns (emits st c (fun f => endsWith (OldFilename f) old /\ endsWith (Filename f) new))
          (currFileLoop fuel maxBytes st cf pr r).
Proof.
  intros Hkw Hc Hold Hnew Hmids Hx Hy E Hcap Hf.
  assert (E' : pending r
               = kw ++ " from " ++ old
                 ++ String LF (kw ++ " to " ++ new
                 ++ String LF (unlines mids
                               ++ "--- " ++ x ++ String LF ("+++ " ++ y ++ String LF rest)))).
  { rewrite E. cbn [List.app]. rewrite !unlines_cons_app, unlines_app.
    repeat first [rewrite !app_assoc_string | progress cbn [append unlines]].
    reflexivity. }
  clear E. rename E' into E.
  assert (Hfuel : exists f, fuel = S (S (List.length mids + S (S f))) /\ len rest + 1 < f).
  { rewrite E in Hf. repeat (rewrite ?len_app in Hf; simpl len in Hf).
    pose proof (unlines_len mids) as Hl. unfold len in *.
    exists (fuel - (4 + List.length mids)). lia. }
  destruct Hfuel as (f & -> & Hf').
  rewrite (currFileLoop_from _ _ _ _ _ _ _ _ _ Hkw Hold E).
  rewrite (currFileLoop_to _ _ _ _ _ (withPending r _) kw new
             (unlines mids ++ "--- " ++ x ++ String LF ("+++ " ++ y ++ String LF rest))
             Hkw Hnew eq_refl).
  rewrite (currFileLoop_passedOver_all mids _ _ _ _ _
             (withPending (withPending r _) _)
             ("--- " ++ x ++ String LF ("+++ " ++ y ++ String LF rest))
             Hmids eq_refl).
  rewrite (currFileLoop_minus _ _ _ _ _ (withPending (withPending (withPending r _) _) _)
             x ("+++ " ++ y ++ String LF rest) Hx eq_refl).
  cbn [andb bind].
  eapply returns_weaken.
  - apply (currFileLoop_plus f maxBytes st c _ false
             (withPending (withPending (withPending (withPending r _) _) _) _)
             y rest Hc Hy eq_refl eq_refl Hcap Hf').
  - intros e He. eapply emits_weaken; [exact He|].
    intros g (H1 & H2 & _). rewrite H1, H2. simpl.
    split; exists " "; reflexivity.
Qed.

(** A renamed file, as git prints it. *)
Lemma rename_pair_record_witness :
  returns (emits (newCommit initialState "h1")
                 (mkCommit "h1" "" "" "" "" [])
                 (fun f => endsWith (OldFilename f) "old.txt" /\ endsWith (Filename f) "new.txt"))
          (currFileLoop 200 100 (newCommit initialState "h1") emptyFile true
             (NewReaderSize
                (unlines ["rename from old.txt"; "rename to new.txt";
                          "index e69de29..4b825dc 100644";
                          "--- a/old.txt"; "+++ b/new.txt"; "@@ -1 +1 @@"; "-a"; "+b"])
                EOF 100)).
Proof.
  apply (rename_pair_record 200 100 (newCommit initialState "h1")
           (mkCommit "h1" "" "" "" "" []) emptyFile true _
           "rename" "old.txt" "new.txt" ["index e69de29..4b825dc 100644"]
           "a/old.txt" "b/new.txt" editHunk);
    [left; reflexivity|reflexivity|reflexivity|reflexivity|reflexivity|reflexivity
    |reflexivity|reflexivity|vm_compute; lia|vm_compute; lia].
Defined.

(** C6, as stated, fails on the stream it describes: the names keep the
    blank that ends the keyword and the [a/], [b/] written on the rename
    lines. *)
Lemma rename_record_counterexample :
  exists f,
    parseLog (unlines (metadata "h1" "n" "e" "1" ++
                       ["diff --git a/old.txt b/new.txt"; "similarity index 90%";
                        "rename from a/old.txt"; "rename to b/new.txt";
                        "--- a/old.txt"; "+++ b/new.txt"; "@@ -1 +1 @@"; "-a"; "+b"]))
             EOF 5 100
    = Ret ([Some (mkCommit "h1" "n" "e" "1" "" [f])], None)
    /\ OldFilename f = " a/old.txt" /\ Filename f = " b/new.txt"
    /\ OldFilename f <> "old.txt" /\ Filename f <> "new.txt".
Proof.
  eexists. split; [vm_compute; reflexivity|].
  repeat split; simpl; discriminate.
Qed.

(** ** Oversized lines *)

Lemma discardFragments_fuel_mono (k k' : nat) (b : bool) (r : Reader)
  (x : option error * Reader) :
  discardFragments k b r = Ret x -> k <= k' -> discardFragments k' b r = Ret x.
Proof.
  revert k' b r. induction k as [|k IH]; intros k' b r H Hk.
  - destruct b; simpl in H; [discriminate|]. destruct k'; exact H.
  - destruct k' as [|k']; [lia|]. simpl in *. destruct b; [|exact H].
    destruct (ReadLine r) as [[[l frag] e] r1]. destruct e; [exact H|].
    apply IH; [exact H|lia].
Qed.

Lemma ReadLine_fragment_nonempty (r r' : Reader) (l : string) (e : option error) :
  ReadLine r = (l, true, e, r') -> 2 <= capacity r -> l <> EmptyString.
Proof.
  unfold ReadLine. destruct (scan (capacity r) (pending r)) as [[l0 e0] rest] eqn:E.
  destruct (scan_len _ _ _ _ _ E) as [_ H2]. intros H Hcap.
  destruct e0.
  - destruct (lastByte (dropLast l0)) as [c|]; [destruct (Ascii.eqb c CR)|];
      inversion H.
  - assert (Hd : len (dropLast l0) = len l0 - 1) by apply dropLast_len.
    destruct (lastByte l0) as [c|]; [destruct (Ascii.eqb c CR)|];
      inversion H; subst; intros Hl;
      [rewrite Hl in Hd; simpl in Hd; lia|rewrite Hl in H2; simpl in H2; lia
      |rewrite Hl in H2; simpl in H2; lia].
  - destruct l0; inversion H.
Qed.

(** The content only grows, and a truncation mark stays. *)
Lemma parseHunksLoop_grows (fuel : nat) (cf : File) (maxBytes : Z) (b : bool)
  (r : Reader) (h : hunks) :
  parseHunksLoop fuel cf maxBytes b r = Ret h ->
  (exists more, Content (hFile h) = Content cf ++ more)
  /\ (Truncated cf = true -> Truncated (hFile h) = true).
Proof.
  revert cf b r. induction fuel as [|fuel IH]; intros cf b r H; [discriminate|].
  simpl in H.
  assert (H0 : Content (if b then setTruncated cf true else cf) = Content cf
               /\ (Truncated cf = true ->
                   Truncated (if b then setTruncated cf true else cf) = true))
    by (destruct b; simpl; auto).
  set (cf0 := if b then setTruncated cf true else cf) in *.
  destruct H0 as [Hc0 Ht0].
  assert (Hstop : (exists more, Content cf0 = Content cf ++ more)
                  /\ (Truncated cf = true -> Truncated cf0 = true)).
  { split; [exists EmptyString; rewrite Hc0|exact Ht0].
    clear. induction (Content cf) as [|c s IH]; simpl; [reflexivity|]. rewrite <- IH. reflexivity. }
  destruct (discardFragments fuel b r) as [[e1 r1]|p|]; simpl in H; try discriminate.
  destruct e1 as [x|]; [inversion H; subst; exact Hstop|].
  destruct (ReadLine r1) as [[[l frag] e] r2].
  destruct e as [x|]; [inversion H; subst; exact Hstop|].
  destruct l as [|c l]; [inversion H; subst; exact Hstop|].
  destruct (Ascii.eqb c "d"); [inversion H; subst; exact Hstop|].
  destruct ((maxBytes >? -1)%Z && (currFileLineCount >=? maxBytes)%Z).
  - apply IH in H. simpl in H. rewrite Hc0 in H. destruct H as [H1 H2].
    split; [exact H1|intros _; apply H2; reflexivity].
  - assert (H1 : Content (if frag then setTruncated cf0 true else cf0) = Content cf
               /\ (Truncated cf = true ->
                   Truncated (if frag then setTruncated cf0 true else cf0) = true))
      by (destruct frag; simpl; auto).
    set (cf1 := if frag then setTruncated cf0 true else cf0) in *.
    destruct H1 as [Hc1 Ht1].
    destruct (discardFragments fuel frag r2) as [[e3 r3]|p|]; simpl in H; try discriminate.
    destruct e3 as [x|].
    + inversion H; subst; simpl. split; [|exact Ht1].
      rewrite Hc1. destruct Hstop as [[more Hm] _]. rewrite Hc0 in Hm. eauto.
    + apply IH in H. simpl in H. rewrite Hc1 in H. destruct H as [[more Hm] H2].
      split; [|exact (fun Ht => H2 (Ht1 Ht))].
      exists (String c (l ++ String LF "") ++ more). rewrite Hm.
      apply app_assoc_string.
Qed.

Lemma discardFragments_false (fuel : nat) (r : Reader) :
  discardFragments fuel false r = Ret (None, r).
Proof. destruct fuel; reflexivity. Qed.

(** C5, as the code has it. When [ReadLine] reports a fragment of a hunk line
    (one that does not start with [d], and with a byte cap other than 0) and
    the fragments that remain of the line are read without error, the file is
    marked truncated, those remaining fragments are dropped, the parse goes on
    right after them, and the first fragment, a buffer-full of the line, is
    appended to the content with a line feed. *)
Theorem fragmented_line_keeps_first_fragment (fuel : nat) (cf : File) (maxBytes : Z)
  (r r1 r2 : Reader) (frag : string) :
  2 <= capacity r -> len (pending r) + 1 < fuel ->
  ReadLine r = (frag, true, None, r1) ->
  HasPrefix frag "d" = false ->
  maxBytes <> 0%Z ->
  discardFragments (len (pending r1) + 1) true r1 = Ret (None, r2) ->
  parseHunks fuel cf maxBytes r
  = parseHunksLoop (fuel - 1)
      (setContent (setTruncated cf true) (Content cf ++ frag ++ String LF EmptyString))
      maxBytes false r2
  /\ exists h,
       parseHunks fuel cf maxBytes r = Ret h
       /\ Truncated (hFile h) = true
       /\ exists more, Content (hFile h) = Content cf ++ frag ++ String LF more.
Proof.
  intros Hcap Hf Hread Hd Hmax Hdrain.
  destruct fuel as [|f]; [lia|]. replace (S f - 1) with f by lia.
  pose proof (ReadLine_within _ _ _ _ _ Hread Hcap) as Hw1. simpl in Hw1.
  pose proof (discardFragments_returns (len (pending r1) + 1) true r1) as Hw2.
  rewrite Hdrain in Hw2. simpl in Hw2.
  assert (Hcap1 : 2 <= capacity r1) by (destruct Hw1 as (_ & -> & _); exact Hcap).
  specialize (Hw2 Hcap1 ltac:(lia)).
  assert (Hlen1 : len (pending r1) < len (pending r)) by (destruct Hw1 as (_ & _ & ?); assumption).
  assert (Hstep : parseHunks (S f) cf maxBytes r
                  = parseHunksLoop f
                      (setContent (setTruncated cf true)
                         (Content cf ++ frag ++ String LF EmptyString))
                      maxBytes false r2).
  { unfold parseHunks. cbn [parseHunksLoop].
    rewrite discardFragments_false. cbn [bind]. rewrite Hread.
    pose proof (ReadLine_fragment_nonempty _ _ _ _ Hread Hcap) as Hne.
    destruct frag as [|c s]; [contradiction|].
    assert (Hc : Ascii.eqb c "d" = false).
    { unfold HasPrefix in Hd. simpl in Hd.
      destruct (ascii_dec "d" c) as [<-|Hn].
      - destruct s; discriminate.
      - apply Ascii.eqb_neq. congruence. }
    rewrite Hc.
    assert (Hm : ((maxBytes >? -1)%Z && (currFileLineCount >=? maxBytes)%Z) = false).
    { unfold currFileLineCount. apply andb_false_iff.
      destruct (Z.gtb_spec maxBytes (-1)); [|left; reflexivity].
      right. rewrite Z.geb_leb. apply Z.leb_gt. lia. }
    rewrite Hm.
    rewrite (discardFragments_fuel_mono _ f _ _ _ Hdrain) by lia.
    reflexivity. }
  split; [exact Hstep|].
  rewrite Hstep.
  pose proof (parseHunksLoop_returns f
                (setContent (setTruncated cf true)
                   (Content cf ++ frag ++ String LF EmptyString))
                maxBytes false r2) as Hret.
  apply returns_inv in Hret;
    [|destruct Hw2 as (_ & -> & _); exact Hcap1|destruct Hw2 as (_ & _ & ?); lia].
  destruct Hret as (h & Eh & _). exists h. split; [exact Eh|].
  destruct (parseHunksLoop_grows _ _ _ _ _ _ Eh) as [[more Hmore] Htr].
  split; [apply Htr; reflexivity|].
  exists more. rewrite Hmore. simpl.
  rewrite !app_assoc_string. reflexivity.
Qed.

(** A line of 38 bytes read through a buffer of 16. *)
Lemma fragmented_line_keeps_first_fragment_witness :
  exists h,
    parseHunks 100 emptyFile 5
      (mkReader (unlines ["-aaaaaaaaaaaaaaaaaaaaaaaaaaaaaaaaaaaaa"; "+b"]) EOF 16) = Ret h
    /\ Truncated (hFile h) = true
    /\ exists more, Content (hFile h) = "" ++ "-aaaaaaaaaaaaaaa" ++ String LF more.
Proof.
  apply (fragmented_line_keeps_first_fragment 100 emptyFile 5
           (mkReader (unlines ["-aaaaaaaaaaaaaaaaaaaaaaaaaaaaaaaaaaaaa"; "+b"]) EOF 16)
           (mkReader (unlines ["aaaaaaaaaaaaaaaaaaaaaa"; "+b"]) EOF 16)
           (mkReader (unlines ["+b"]) EOF 16)
           "-aaaaaaaaaaaaaaa");
    [simpl; lia|vm_compute; lia|reflexivity|reflexivity|discriminate|reflexivity].
Defined.

(** C5, as stated, fails: the first 16 bytes of the oversized line are in the
    content of the record. *)
Lemma fragmented_line_counterexample :
  exists f,
    parseLog (unlines (metadata "h1" "n" "e" "1" ++
                       ["diff --git a/y b/y"; "--- a/y"; "+++ b/y"; "@@ -1 +1 @@";
                        "-aaaaaaaaaaaaaaaaaaaaaaaaaaaaaaaaaaaaa"; "+b"]))
             EOF 5 5
    = Ret ([Some (mkCommit "h1" "n" "e" "1" "" [f])], None)
    /\ Truncated f = true
    /\ Content f = unlines ["@@ -1 +1 @@"; "-aaaaaaaaaaaaaaa"; "+b"]
    /\ Content f <> unlines ["@@ -1 +1 @@"; "+b"].
Proof.
  eexists. split; [vm_compute; reflexivity|].
  repeat split; simpl; discriminate.
Qed.

(** ** The file cap *)

Lemma Forall_update {A : Type} (P : A -> Prop) (l : list A) (n : nat) (x : A) :
  Forall P l -> P x -> Forall P (update n x l).
Proof.
  intros H Hx. revert n. induction H as [|a l Ha Hl IH]; intros n; destruct n; simpl;
    constructor; auto.
Qed.

Lemma loadCommit_In (st : state) (c : Commit) : loadCommit st = Ret c -> In c (heap st).
Proof.
  intros H. destruct (loadCommit_inv _ _ H) as (p & _ & Hn).
  eapply nth_error_In. exact Hn.
Qed.

Lemma capped_storeCommit (maxFiles : Z) (st : state) (c : Commit) :
  capped maxFiles st -> (Z.of_nat (List.length (Files c)) <= maxFiles)%Z ->
  capped maxFiles (storeCommit st c).
Proof.
  unfold capped, storeCommit. intros H Hc.
  destruct (currentCommit st); simpl; [apply Forall_update; assumption|exact H].
Qed.

Lemma capped_newCommit (maxFiles : Z) (st : state) (hash : string) :
  (0 <= maxFiles)%Z -> capped maxFiles st -> capped maxFiles (newCommit st hash).
Proof.
  unfold capped, newCommit. simpl. intros H0 H. apply Forall_app. split; [exact H|].
  constructor; [simpl; lia|constructor].
Qed.

Lemma capped_assignField (maxFiles : Z) (st st' : state)
  (set : Commit -> string -> Commit) (line : string) :
  (forall c v, Files (set c v) = Files c) ->
  capped maxFiles st -> assignField st set line = Ret st' -> capped maxFiles st'.
Proof.
  intros Hset H E. unfold assignField in E.
  destruct (sliceFrom line 2) as [v| |]; simpl in E; try discriminate.
  destruct (loadCommit st) as [c| |] eqn:Ec; simpl in E; try discriminate.
  inversion E; subst. apply capped_storeCommit; [exact H|].
  rewrite Hset. apply loadCommit_In in Ec.
  unfold capped in H. rewrite Forall_forall in H. apply H. exact Ec.
Qed.

Lemma capped_appendFile (maxFiles : Z) (st st' : state) (f : File) :
  capped maxFiles st ->
  (forall c, loadCommit st = Ret c -> (Z.of_nat (List.length (Files c)) < maxFiles)%Z) ->
  appendFile st f = Ret st' -> capped maxFiles st'.
Proof.
  intros H Hlt E. unfold appendFile in E.
  destruct (loadCommit st) as [c| |] eqn:Ec; simpl in E; try discriminate.
  inversion E; subst. apply capped_storeCommit; [exact H|].
  simpl. rewrite length_app. simpl. specialize (Hlt c eq_refl). lia.
Qed.

Ltac invert_run H IH :=
  repeat match type of H with
    | Ret _ = Ret _ => inversion H; subst; clear H
    | Panic _ = Ret _ => discriminate H
    | OutOfFuel = Ret _ => discriminate H
    | (if ?b then _ else _) = Ret _ => destruct b
    | match ?o with Some _ => _ | None => _ end = Ret _ => destruct o
    | (let '(_, _) := ?p in _) = Ret _ => destruct p
    | bind (if ?b then _ else _) _ = Ret _ => destruct b
    | bind (bind _ _) _ = Ret _ => rewrite bind_assoc in H
    | bind (Ret _) _ = Ret _ => cbn [bind] in H
    | bind (slice ?a ?b ?c) _ = Ret _ =>
        destruct (slice a b c); cbn [bind] in H
    | bind (sliceFrom ?a ?b) _ = Ret _ =>
        destruct (sliceFrom a b); cbn [bind] in H
    | bind (parseHunks ?a ?b ?c ?d) _ = Ret _ =>
        destruct (parseHunks a b c d); cbn [bind] in H
    | bind (discardFragments ?a ?b ?c) _ = Ret _ =>
        destruct (discardFragments a b c) as [[? ?]| |]; cbn [bind] in H
    | bind (appendFile ?a ?b) _ = Ret _ =>
        let E := fresh "E" in
        destruct (appendFile a b) eqn:E; cbn [bind] in H
    | currFileLoop _ _ _ _ _ _ = Ret _ => apply IH in H
    end.

Lemma currFileLoop_capped (maxFiles : Z) (fuel : nat) (maxBytes : Z) (st : state)
  (cf : File) (pr : bool) (r : Reader) (x : fileExit) :
  capped maxFiles st ->
  (forall c, loadCommit st = Ret c -> (Z.of_nat (List.length (Files c)) < maxFiles)%Z) ->
  currFileLoop fuel maxBytes st cf pr r = Ret x ->
  capped maxFiles (exitState x).
Proof.
  intros Hcap Hlt. revert cf pr r.
  induction fuel as [|fuel IH]; intros cf pr r H; [discriminate|].
  simpl in H. destruct (ReadString r) as [[line e] r1].
  destruct e as [e|].
  { destruct (isEOF e); inversion H; subst; exact Hcap. }
  invert_run H IH; simpl; try assumption;
    match goal with
    | E : appendFile _ _ = Ret _ |- _ => exact (capped_appendFile _ _ _ _ Hcap Hlt E)
    end.
Qed.

Lemma loopDiff_capped (maxFiles : Z) (fuel : nat) (maxBytes : Z) (st : state)
  (r : Reader) (x : diffExit) :
  (0 <= maxFiles)%Z -> capped maxFiles st ->
  loopDiff fuel maxFiles maxBytes st r = Ret x ->
  capped maxFiles (diffExitState x).
Proof.
  intros H0. revert st r. induction fuel as [|fuel IH]; intros st r Hcap H; [discriminate|].
  simpl in H. destruct (Z.gtb_spec maxFiles (-1)) as [_|Hn]; [|lia].
  unfold lenFiles in H.
  destruct (loadCommit st) as [c| |] eqn:Ec; cbn [bind] in H; try discriminate.
  destruct (Z.geb_spec (Z.of_nat (List.length (Files c))) maxFiles) as [Hge|Hlt].
  { inversion H; subst. exact Hcap. }
  destruct (currFileLoop fuel maxBytes st emptyFile true r) as [y| |] eqn:Ey;
    cbn [bind] in H; try discriminate.
  assert (Hy : capped maxFiles (exitState y)).
  { apply (currFileLoop_capped _ _ _ _ _ _ _ _ Hcap) in Ey; [exact Ey|].
    intros c' Hc'. rewrite Ec in Hc'. inversion Hc'; subst. lia. }
  destruct y as [st1 e|st1 r1|st1 r1]; simpl in Hy.
  - inversion H; subst. exact Hy.
  - inversion H; subst. exact Hy.
  - exact (IH _ _ Hy H).
Qed.

Lemma loopCommits_capped (maxFiles : Z) (fuel : nat) (maxBytes : Z) (st st' : state)
  (r : Reader) (e : option error) :
  (0 <= maxFiles)%Z -> capped maxFiles st ->
  loopCommits fuel maxFiles maxBytes st r = Ret (st', e) ->
  capped maxFiles st'.
Proof.
  intros H0. revert st r. induction fuel as [|fuel IH]; intros st r Hcap H; [discriminate|].
  simpl in H. destruct (ReadString r) as [[line e1] r1].
  destruct e1 as [e1|].
  { destruct (isEOF e1); inversion H; subst; exact Hcap. }
  destruct (chomp line) as [|ch l]; [discriminate|].
  destruct (Ascii.eqb ch "c").
  { destruct (sliceFrom (String ch l) 2) as [hash| |]; cbn [bind] in H; try discriminate.
    apply IH in H; [exact H|]. apply capped_newCommit; [exact H0|].
    destruct (headerParsed st); exact Hcap. }
  destruct (Ascii.eqb ch "a").
  { destruct (assignField _ setAuthorName _) as [st1| |] eqn:E; cbn [bind] in H;
      try discriminate.
    apply IH in H; [exact H|].
    refine (capped_assignField maxFiles _ _ setAuthorName _ (fun _ _ => eq_refl) _ E). exact Hcap. }
  destruct (Ascii.eqb ch "m").
  { destruct (assignField _ setAuthorEmail _) as [st1| |] eqn:E; cbn [bind] in H;
      try discriminate.
    apply IH in H; [exact H|].
    refine (capped_assignField maxFiles _ _ setAuthorEmail _ (fun _ _ => eq_refl) _ E). exact Hcap. }
  destruct (Ascii.eqb ch "t").
  { destruct (assignField _ setTimestamp _) as [st1| |] eqn:E; cbn [bind] in H;
      try discriminate.
    apply IH in H; [exact H|].
    refine (capped_assignField maxFiles _ _ setTimestamp _ (fun _ _ => eq_refl) _ E). exact Hcap. }
  destruct (loopDiff fuel maxFiles maxBytes st r1) as [y| |] eqn:Ey; cbn [bind] in H;
    try discriminate.
  apply (loopDiff_capped _ _ _ _ _ _ H0 Hcap) in Ey.
  destruct y as [st1 e1|st1 r2]; simpl in Ey.
  - inversion H; subst. exact Ey.
  - apply IH in H; [exact H|exact Ey].
Qed.

(** No commit comes out of [parseLog] with more than [maxFiles] records. *)
Lemma parseLog_capped (data : string) (end_ : error) (maxFiles maxBytes : Z)
  (cs : list (option Commit)) (e : option error) (c : Commit) :
  (0 <= maxFiles)%Z ->
  parseLog data end_ maxFiles maxBytes = Ret (cs, e) -> In (Some c) cs ->
  (Z.of_nat (List.length (Files c)) <= maxFiles)%Z.
Proof.
  intros H0 H Hin. unfold parseLog, parseLogState in H.
  destruct (loopCommits _ _ _ _ _) as [[st e']| |] eqn:E; cbn [bind] in H; try discriminate.
  inversion H; subst. simpl in Hin.
  apply loopCommits_capped in E; [|exact H0|constructor].
  unfold deref in Hin. apply in_map_iff in Hin. destruct Hin as ([p|] & Hp & _); [|discriminate].
  apply nth_error_In in Hp. unfold capped in E. rewrite Forall_forall in E.
  apply (E _ Hp).
Qed.

(** At the cap the file loop empties the reader and leaves the commit as it
    is; the commit loop, resumed there, returns with that commit last. *)
Lemma loopDiff_at_cap (fuel : nat) (maxFiles maxBytes : Z) (st : state) (c : Commit)
  (r : Reader) :
  (0 <= maxFiles)%Z ->
  loadCommit st = Ret c -> (maxFiles <= Z.of_nat (List.length (Files c)))%Z ->
  loopDiff (S fuel) maxFiles maxBytes st r
  = Ret (DiffBreak (setHeaderParsed st false) (discardAll r))
  /\ loopCommits (S fuel) maxFiles maxBytes (appendCommit (setHeaderParsed st false))
       (discardAll r)
     = Ret (appendCommit (setHeaderParsed st false),
            if isEOF (fin r) then None else Some (fin r)).
Proof.
  intros H0 Hc Hge. split.
  - simpl. destruct (Z.gtb_spec maxFiles (-1)) as [_|Hn]; [|lia].
    unfold lenFiles. rewrite Hc. cbn [bind].
    destruct (Z.geb_spec (Z.of_nat (List.length (Files c))) maxFiles) as [_|Hlt]; [|lia].
    reflexivity.
  - simpl. destruct (isEOF (fin r)); reflexivity.
Qed.

(** C3, as the code has it. With a cap [maxFiles >= 0], no commit is returned
    with more than [maxFiles] file records; and when a pass of the file loop
    starts on a commit that holds [maxFiles] records or more, no record is
    added to it, all that is left of the stream is read and dropped, the
    commits that follow included, and that commit is the last one
    returned. *)
Theorem file_cap_drains_stream (maxFiles maxBytes : Z) :
  (0 <= maxFiles)%Z ->
  (forall (data : string) (end_ : error) (cs : list (option Commit)) (e : option error)
          (c : Commit),
      parseLog data end_ maxFiles maxBytes = Ret (cs, e) -> In (Some c) cs ->
      (Z.of_nat (List.length (Files c)) <= maxFiles)%Z)
  /\ (forall (fuel : nat) (st : state) (c : Commit) (r : Reader),
        loadCommit st = Ret c -> (maxFiles <= Z.of_nat (List.length (Files c)))%Z ->
        loopDiff (S fuel) maxFiles maxBytes st r
        = Ret (DiffBreak (setHeaderParsed st false) (discardAll r))
        /\ loopCommits (S fuel) maxFiles maxBytes
             (appendCommit (setHeaderParsed st false)) (discardAll r)
           = Ret (appendCommit (setHeaderParsed st false),
                  if isEOF (fin r) then None else Some (fin r))).
Proof.
  intros H0. split.
  - intros data end_ cs e c H Hin. exact (parseLog_capped _ _ _ _ _ _ _ H0 H Hin).
  - intros fuel st c r Hc Hge. exact (loopDiff_at_cap _ _ _ _ _ _ H0 Hc Hge).
Qed.

(** A commit of two files and a later commit, read with a cap of one file. *)
Lemma file_cap_drains_stream_witness :
  (forall c,
      In (Some c) [Some (mkCommit "h1" "n" "e" "1" "" [edited "y"])] ->
      (Z.of_nat (List.length (Files c)) <= 1)%Z)
  /\ loopDiff 1 1 100
       (storeCommit (newCommit initialState "h1") (mkCommit "h1" "n" "e" "1" "" [edited "y"]))
       (NewReaderSize (unlines (tl (edit "z") ++ [""] ++ metadata "h2" "n" "e" "2")) EOF 100)
     = Ret (DiffBreak
              (setHeaderParsed
                 (storeCommit (newCommit initialState "h1")
                    (mkCommit "h1" "n" "e" "1" "" [edited "y"])) false)
              (NewReaderSize EmptyString EOF 100))
  /\ loopCommits 1 1 100
       (appendCommit
          (setHeaderParsed
             (storeCommit (newCommit initialState "h1")
                (mkCommit "h1" "n" "e" "1" "" [edited "y"])) false))
       (NewReaderSize EmptyString EOF 100)
     = Ret (appendCommit
              (setHeaderParsed
                 (storeCommit (newCommit initialState "h1")
                    (mkCommit "h1" "n" "e" "1" "" [edited "y"])) false),
            None).
Proof.
  destruct (file_cap_drains_stream 1 100 ltac:(lia)) as [A B].
  split.
  - intros c Hin.
    apply (A (unlines (metadata "h1" "n" "e" "1" ++ edit "y" ++ edit "z" ++ [""]
                       ++ metadata "h2" "n" "e" "2"))
             EOF [Some (mkCommit "h1" "n" "e" "1" "" [edited "y"])] None c);
      [vm_compute; reflexivity|exact Hin].
  - apply (B 0
             (storeCommit (newCommit initialState "h1")
                (mkCommit "h1" "n" "e" "1" "" [edited "y"]))
             (mkCommit "h1" "n" "e" "1" "" [edited "y"])
             (NewReaderSize (unlines (tl (edit "z") ++ [""] ++ metadata "h2" "n" "e" "2"))
                EOF 100));
      [reflexivity|simpl; lia].
Defined.

(** C3, as stated, fails: with a cap of one file, the commit [h2] that
    follows a commit of two files is not returned. *)
Lemma file_cap_counterexample :
  exists cs,
    parseLog (unlines (metadata "h1" "n" "e" "1" ++ edit "y" ++ edit "z" ++ [""]
                       ++ metadata "h2" "n" "e" "2" ++ edit "w" ++ [""]))
             EOF 1 100
    = Ret (cs, None)
    /\ cs = [Some (mkCommit "h1" "n" "e" "1" "" [edited "y"])]
    /\ ~ (exists c, In (Some c) cs /\ Hash c = "h2").
Proof.
  eexists. split; [vm_compute; reflexivity|]. split; [reflexivity|].
  intros (c & [Hc|[]] & Hh). inversion Hc; subst. discriminate Hh.
Qed.

(** ** Read errors

    A run over a stream that ends in a read error, next to the run over the
    same bytes followed by a clean end. *)

Lemma ReadString_atEOF (r : Reader) :
  ReadString (atEOF r)
  = let '(l, e, r') := ReadString r in (l, option_map (fun _ => EOF) e, atEOF r').
Proof.
  unfold ReadString, atEOF. simpl. destruct (cutLine (pending r)) as [[l rest]|]; reflexivity.
Qed.

Lemma ReadLine_atEOF (r : Reader) :
  ReadLine (atEOF r)
  = let '(l, b, e, r') := ReadLine r in (l, b, option_map (fun _ => EOF) e, atEOF r').
Proof.
  unfold ReadLine, atEOF. simpl.
  destruct (scan (capacity r) (pending r)) as [[l e] rest]. destruct e.
  - destruct (lastByte (dropLast l)) as [c|]; [destruct (Ascii.eqb c CR)|]; reflexivity.
  - destruct (lastByte l) as [c|]; [destruct (Ascii.eqb c CR)|]; reflexivity.
  - destruct l; reflexivity.
Qed.

Lemma ReadString_fin (r r' : Reader) (l : string) (e : option error) :
  ReadString r = (l, e, r') ->
  fin r' = fin r /\ (forall x, e = Some x -> x = fin r /\ pending r' = EmptyString).
Proof.
  intros H. destruct (ReadString_spec _ _ _ _ H) as (H1 & _ & H3). split; [exact H1|].
  intros x ->. exact H3.
Qed.

Lemma ReadLine_fin (r r' : Reader) (l : string) (b : bool) (e : option error) :
  ReadLine r = (l, b, e, r') ->
  fin r' = fin r /\ (forall x, e = Some x -> x = fin r /\ pending r' = EmptyString).
Proof.
  unfold ReadLine. destruct (scan (capacity r) (pending r)) as [[l0 e0] rest] eqn:E.
  destruct (scan_len _ _ _ _ _ E) as [_ H2].
  destruct e0.
  - destruct (lastByte (dropLast l0)) as [c|]; [destruct (Ascii.eqb c CR)|];
      intros H; inversion H; subst; simpl; split; try reflexivity; intros; discriminate.
  - destruct (lastByte l0) as [c|]; [destruct (Ascii.eqb c CR)|];
      intros H; inversion H; subst; simpl; split; try reflexivity; intros; discriminate.
  - subst rest. destruct l0; intros H; inversion H; subst; simpl; split; try reflexivity.
    + intros x Hx. inversion Hx. split; reflexivity.
    + intros; discriminate.
Qed.

Lemma discardFragments_fin (fuel : nat) (b : bool) (r r' : Reader) (e : option error) :
  discardFragments fuel b r = Ret (e, r') ->
  fin r' = fin r /\ (forall x, e = Some x -> x = fin r /\ pending r' = EmptyString).
Proof.
  revert b r. induction fuel as [|fuel IH]; intros b r H.
  - destruct b; simpl in H; [discriminate|]. inversion H; subst. split; [reflexivity|].
    intros; discriminate.
  - simpl in H. destruct b.
    + destruct (ReadLine r) as [[[l b'] e1] r1] eqn:E.
      destruct (ReadLine_fin _ _ _ _ _ E) as [H1 H2]. destruct e1 as [x|].
      * inversion H; subst. split; [exact H1|]. intros y Hy. inversion Hy; subst.
        apply H2. reflexivity.
      * destruct (IH _ _ H) as [H3 H4]. split; [congruence|].
        intros y Hy. destruct (H4 y Hy). split; congruence.
    + inversion H; subst. split; [reflexivity|]. intros; discriminate.
Qed.

Lemma discardFragments_atEOF (fuel : nat) (b : bool) (r : Reader) :
  discardFragments fuel b (atEOF r)
  = match discardFragments fuel b r with
    | Ret (e, r') => Ret (option_map (fun _ => EOF) e, atEOF r')
    | Panic p => Panic p
    | OutOfFuel => OutOfFuel
    end.
Proof.
  revert b r. induction fuel as [|fuel IH]; intros b r; simpl.
  - destruct b; reflexivity.
  - destruct b; [|reflexivity].
    rewrite ReadLine_atEOF. destruct (ReadLine r) as [[[l b'] e] r1].
    destruct e; simpl; [reflexivity|apply IH].
Qed.

Section ReadError.

(** The code of the error in which the stream ends. *)
Variable code : nat.

Lemma parseHunksLoop_atEOF (fuel : nat) (cf : File) (maxBytes : Z) (b : bool)
  (r : Reader) :
  fin r = ReadError code ->
  parseHunksLoop fuel cf maxBytes b (atEOF r)
  = match parseHunksLoop fuel cf maxBytes b r with
    | Ret h => Ret (hunksAtEOF h)
    | Panic p => Panic p
    | OutOfFuel => OutOfFuel
    end.
Proof.
  revert cf b r. induction fuel as [|fuel IH]; intros cf b r Hfin; [reflexivity|].
  cbn [parseHunksLoop]. rewrite discardFragments_atEOF.
  destruct (discardFragments fuel b r) as [[e1 r1]| |] eqn:E1; cbn [bind]; try reflexivity.
  destruct (discardFragments_fin _ _ _ _ _ E1) as [Hf1 He1].
  destruct e1 as [x|]; cbn [option_map].
  { destruct (He1 x eq_refl) as [-> _]. rewrite Hfin. reflexivity. }
  rewrite ReadLine_atEOF. destruct (ReadLine r1) as [[[l frag] e] r2] eqn:E2.
  destruct (ReadLine_fin _ _ _ _ _ E2) as [Hf2 He2].
  assert (Hfin2 : fin r2 = ReadError code) by congruence.
  destruct e as [x|]; cbn [option_map].
  { destruct (He2 x eq_refl) as [-> _]. rewrite Hf1, Hfin. reflexivity. }
  destruct l as [|c l]; [reflexivity|].
  destruct (Ascii.eqb c "d"); [reflexivity|].
  destruct ((maxBytes >? -1)%Z && (currFileLineCount >=? maxBytes)%Z).
  { apply IH. exact Hfin2. }
  rewrite discardFragments_atEOF.
  destruct (discardFragments fuel frag r2) as [[e3 r3]| |] eqn:E3; cbn [bind]; try reflexivity.
  destruct (discardFragments_fin _ _ _ _ _ E3) as [Hf3 He3].
  destruct e3 as [x|]; cbn [option_map]; [reflexivity|].
  apply IH. congruence.
Qed.

Lemma parseHunksLoop_fin (fuel : nat) (cf : File) (maxBytes : Z) (b : bool)
  (r : Reader) (h : hunks) :
  parseHunksLoop fuel cf maxBytes b r = Ret h ->
  fin (hInput h) = fin r
  /\ (forall x, hErr h = Some x ->
        (x = fin r \/ x = UnableToReadLine (fin r)) /\ pending (hInput h) = EmptyString).
Proof.
  revert cf b r. induction fuel as [|fuel IH]; intros cf b r H; [discriminate|].
  cbn [parseHunksLoop] in H.
  destruct (discardFragments fuel b r) as [[e1 r1]| |] eqn:E1; cbn [bind] in H;
    try discriminate.
  destruct (discardFragments_fin _ _ _ _ _ E1) as [Hf1 He1].
  destruct e1 as [x|].
  { inversion H; subst; simpl. split; [exact Hf1|]. intros y Hy. inversion Hy; subst.
    destruct (He1 y eq_refl). auto. }
  destruct (ReadLine r1) as [[[l frag] e] r2] eqn:E2.
  destruct (ReadLine_fin _ _ _ _ _ E2) as [Hf2 He2].
  destruct e as [x|].
  { inversion H; subst; simpl. split; [congruence|]. intros y Hy. inversion Hy; subst.
    destruct (He2 y eq_refl) as [-> ?]. split; [left; congruence|assumption]. }
  destruct l as [|c l].
  { inversion H; subst; simpl. split; [congruence|]. intros; discriminate. }
  destruct (Ascii.eqb c "d").
  { inversion H; subst; simpl. split; [congruence|]. intros; discriminate. }
  destruct ((maxBytes >? -1)%Z && (currFileLineCount >=? maxBytes)%Z).
  { destruct (IH _ _ _ H) as [H1 H2]. split; [congruence|].
    intros y Hy. destruct (H2 y Hy) as [H3 H4]. split; [|exact H4].
    rewrite Hf2, Hf1 in H3. exact H3. }
  destruct (discardFragments fuel frag r2) as [[e3 r3]| |] eqn:E3; cbn [bind] in H;
    try discriminate.
  destruct (discardFragments_fin _ _ _ _ _ E3) as [Hf3 He3].
  destruct e3 as [x|].
  { inversion H; subst; simpl. split; [congruence|]. intros y Hy. inversion Hy; subst.
    destruct (He3 x eq_refl) as [-> ?]. split; [right; congruence|assumption]. }
  destruct (IH _ _ _ H) as [H1 H2]. split; [congruence|].
  intros y Hy. destruct (H2 y Hy) as [H3 H4]. split; [|exact H4].
  rewrite Hf3, Hf2, Hf1 in H3. exact H3.
Qed.

Ltac sim_step IH Hfin1 :=
  match goal with
  | |- simulates _ (currFileLoop _ _ _ _ _ _) (currFileLoop _ _ _ _ _ (atEOF _)) =>
      apply IH; exact Hfin1
  | |- simulates _ (Panic _) _ => reflexivity
  | |- simulates _ OutOfFuel _ => exact I
  | |- simulates _ (Ret (BreakLoopDiff _ _)) _ => reflexivity
  | |- simulates _ (Ret (BreakCurrFileLoop _ _)) _ => reflexivity
  | |- simulates _ (if ?b then _ else _) _ => destruct b
  | |- simulates _ (bind (bind _ _) _) _ => rewrite !bind_assoc
  | |- simulates _ (bind (if ?b then _ else _) _) _ => destruct b
  | |- simulates _ (bind (Ret _) _) _ => cbn [bind]
  | |- simulates _ (bind (slice ?a ?b ?c) _) _ => destruct (slice a b c); cbn [bind]
  | |- simulates _ (bind (sliceFrom ?a ?b) _) _ => destruct (sliceFrom a b); cbn [bind]
  | |- simulates _ (bind (appendFile ?a ?b) _) _ => destruct (appendFile a b); cbn [bind]
  end.

Lemma currFileLoop_atEOF (fuel : nat) (maxBytes : Z) (st : state) (cf : File)
  (pr : bool) (r : Reader) :
  fin r = ReadError code ->
  simulates (fileExitAtEOF code)
            (currFileLoop fuel maxBytes st cf pr r)
            (currFileLoop fuel maxBytes st cf pr (atEOF r)).
Proof.
  revert st cf pr r. induction fuel as [|fuel IH]; intros st cf pr r Hfin; [exact I|].
  cbn [currFileLoop]. rewrite ReadString_atEOF.
  destruct (ReadString r) as [[line e] r1] eqn:E.
  destruct (ReadString_fin _ _ _ _ E) as [Hf1 He1].
  destruct e as [x|]; cbn [option_map].
  { destruct (He1 x eq_refl) as [-> Hp]. rewrite Hfin. simpl.
    left. split; [reflexivity|].
    exists (Ret st), (atEOF r1). repeat split; auto. }
  assert (Hfin1 : fin r1 = ReadError code) by congruence.
  repeat sim_step IH Hfin1.
  all: unfold parseHunks; rewrite parseHunksLoop_atEOF by exact Hfin1.
  all: match goal with
       | |- context [parseHunksLoop ?a ?b ?c ?d ?e] =>
           destruct (parseHunksLoop a b c d e) as [h| |] eqn:Eh
       end; cbn [bind]; [|reflexivity|exact I].
  all: destruct (parseHunksLoop_fin _ _ _ _ _ _ Eh) as [Hfh Heh].
  all: unfold hunksAtEOF; cbn [hErr hFile hInput hLineBytes hIsFragment].
  all: destruct (hErr h) as [x|]; cbn [option_map].
  all: try (destruct (Heh x eq_refl) as [[->| ->] Hp]; rewrite Hf1, Hfin; simpl;
            [left; split; [reflexivity|];
             exists (appendFile st (hFile h)), (atEOF (hInput h));
             repeat split; eauto
            |right; split; reflexivity]).
  all: destruct (appendFile st (hFile h)) as [st'| |]; cbn [bind]; [|reflexivity|exact I].
  all: destruct (String.eqb (hLineBytes h) EmptyString); [reflexivity|].
  all: rewrite discardFragments_atEOF.
  all: destruct (discardFragments fuel (hIsFragment h) (hInput h)) as [[e2 r2]| |] eqn:Ed;
    cbn [bind]; [|reflexivity|exact I].
  all: destruct (discardFragments_fin _ _ _ _ _ Ed) as [Hfd Hed].
  all: destruct e2 as [x|]; cbn [option_map]; [|reflexivity].
  all: destruct (Hed x eq_refl) as [-> _]; rewrite Hfh, Hf1, Hfin; simpl.
  all: right; split; reflexivity.
Qed.

Ltac invert_fin H IH :=
  repeat match type of H with
    | Ret _ = Ret _ => inversion H; subst; clear H
    | Panic _ = Ret _ => discriminate H
    | OutOfFuel = Ret _ => discriminate H
    | (if ?b then _ else _) = Ret _ => destruct b
    | bind (if ?b then _ else _) _ = Ret _ => destruct b
    | bind (bind _ _) _ = Ret _ => rewrite bind_assoc in H
    | bind (Ret _) _ = Ret _ => cbn [bind] in H
    | bind (slice ?a ?b ?c) _ = Ret _ =>
        destruct (slice a b c); cbn [bind] in H
    | bind (sliceFrom ?a ?b) _ = Ret _ =>
        destruct (sliceFrom a b); cbn [bind] in H
    | bind (appendFile ?a ?b) _ = Ret _ =>
        destruct (appendFile a b); cbn [bind] in H
    | currFileLoop _ _ _ _ _ _ = Ret _ => apply IH in H
    end.

Lemma currFileLoop_fin (fuel : nat) (maxBytes : Z) (st : state) (cf : File) (pr : bool)
  (r : Reader) (x : fileExit) :
  currFileLoop fuel maxBytes st cf pr r = Ret x ->
  match x with
  | ReturnErr _ _ => True
  | BreakLoopDiff _ r' => fin r' = fin r
  | BreakCurrFileLoop _ r' => fin r' = fin r
  end.
Proof.
  revert st cf pr r. induction fuel as [|fuel IH]; intros st cf pr r H; [discriminate|].
  cbn [currFileLoop] in H. destruct (ReadString r) as [[line e] r1] eqn:E.
  destruct (ReadString_fin _ _ _ _ E) as [Hf1 _].
  destruct e as [e|].
  { destruct (isEOF e); inversion H; subst; [exact Hf1|exact I]. }
  invert_fin H IH; try exact Hf1;
    try (destruct x; [exact I|congruence|congruence]).
  all: unfold parseHunks in H;
    match type of H with
    | context [parseHunksLoop ?a ?b ?c ?d ?e] =>
        destruct (parseHunksLoop a b c d e) as [h| |] eqn:Eh
    end; cbn [bind] in H; try discriminate.
  all: destruct (parseHunksLoop_fin _ _ _ _ _ _ Eh) as [Hfh _].
  all: destruct (hErr h) as [e|];
    [destruct (isEOF e);
     [destruct (appendFile st (hFile h)); cbn [bind] in H; try discriminate;
      inversion H; subst; congruence
     |inversion H; subst; exact I]|].
  all: destruct (appendFile st (hFile h)); cbn [bind] in H; try discriminate.
  all: destruct (String.eqb (hLineBytes h) EmptyString); [inversion H; subst; congruence|].
  all: destruct (discardFragments fuel (hIsFragment h) (hInput h)) as [[e2 r2]| |] eqn:Ed;
    cbn [bind] in H; try discriminate.
  all: destruct (discardFragments_fin _ _ _ _ _ Ed) as [Hfd _].
  all: destruct e2; inversion H; subst; [exact I|congruence].
Qed.

Lemma loopDiff_fin (fuel : nat) (maxFiles maxBytes : Z) (st : state) (r : Reader)
  (x : diffExit) :
  loopDiff fuel maxFiles maxBytes st r = Ret x ->
  match x with
  | DiffReturn _ _ => True
  | DiffBreak _ r' => fin r' = fin r
  end.
Proof.
  revert st r. induction fuel as [|fuel IH]; intros st r H; [discriminate|].
  cbn [loopDiff] in H.
  match type of H with bind ?m _ = _ => destruct m as [capped| |] end;
    cbn [bind] in H; try discriminate.
  destruct capped; [inversion H; subst; reflexivity|].
  destruct (currFileLoop fuel maxBytes st emptyFile true r) as [y| |] eqn:Ey;
    cbn [bind] in H; try discriminate.
  apply currFileLoop_fin in Ey.
  destruct y as [st1 e|st1 r1|st1 r1].
  - inversion H; subst. exact I.
  - inversion H; subst. exact Ey.
  - apply IH in H. destruct x; [exact I|congruence].
Qed.

Lemma loopDiff_atEOF (fuel : nat) (maxFiles maxBytes : Z) (st : state)
  (r : Reader) :
  fin r = ReadError code ->
  simulates (diffExitAtEOF code)
            (loopDiff fuel maxFiles maxBytes st r)
            (loopDiff fuel maxFiles maxBytes st (atEOF r)).
Proof.
  revert st r. induction fuel as [|fuel IH]; intros st r Hfin; [exact I|].
  cbn [loopDiff].
  match goal with |- simulates _ (bind ?m _) _ => destruct m as [capped| |] end;
    cbn [bind]; [|reflexivity|exact I].
  destruct capped; [reflexivity|].
  pose proof (currFileLoop_atEOF fuel maxBytes st emptyFile true r Hfin) as Hs.
  destruct (currFileLoop fuel maxBytes st emptyFile true r) as [y| |] eqn:Ey;
    cbn [bind]; simpl in Hs.
  - pose proof (currFileLoop_fin _ _ _ _ _ _ _ Ey) as Hf.
    destruct y as [st1 e|st1 r1|st1 r1]; simpl in Hs.
    + destruct Hs as [(-> & m & r' & Hp & Hf' & Hm & ->)|(-> & ->)].
      * simpl. left. split; [reflexivity|]. exists m, r'. repeat split; auto.
        destruct m; reflexivity.
      * simpl. right. split; reflexivity.
    + rewrite Hs. reflexivity.
    + rewrite Hs. cbn [bind]. apply IH. congruence.
  - rewrite Hs. reflexivity.
  - exact I.
Qed.

Lemma loopCommits_empty (fuel : nat) (maxFiles maxBytes : Z) (st : state) (r : Reader) :
  pending r = EmptyString -> fin r = EOF ->
  loopCommits (S fuel) maxFiles maxBytes st r = Ret (st, None).
Proof.
  intros Hp Hf. cbn [loopCommits]. unfold ReadString. rewrite Hp, Hf. reflexivity.
Qed.

Lemma loopCommits_atEOF (fuel : nat) (maxFiles maxBytes : Z) (st : state)
  (r : Reader) :
  fin r = ReadError code ->
  simulates (resultAtEOF code)
            (loopCommits fuel maxFiles maxBytes st r)
            (loopCommits fuel maxFiles maxBytes st (atEOF r)).
Proof.
  revert st r. induction fuel as [|fuel IH]; intros st r Hfin; [exact I|].
  cbn [loopCommits]. rewrite ReadString_atEOF.
  destruct (ReadString r) as [[line e] r1] eqn:E.
  destruct (ReadString_fin _ _ _ _ E) as [Hf1 He1].
  destruct e as [x|]; cbn [option_map].
  { destruct (He1 x eq_refl) as [-> _]. rewrite Hfin. simpl. left. auto. }
  assert (Hfin1 : fin r1 = ReadError code) by congruence.
  destruct (chomp line) as [|ch l]; [reflexivity|].
  destruct (Ascii.eqb ch "c").
  { destruct (sliceFrom (String ch l) 2); cbn [bind]; [apply IH; exact Hfin1|reflexivity|exact I]. }
  destruct (Ascii.eqb ch "a").
  { destruct (assignField _ setAuthorName _); cbn [bind];
      [apply IH; exact Hfin1|reflexivity|exact I]. }
  destruct (Ascii.eqb ch "m").
  { destruct (assignField _ setAuthorEmail _); cbn [bind];
      [apply IH; exact Hfin1|reflexivity|exact I]. }
  destruct (Ascii.eqb ch "t").
  { destruct (assignField _ setTimestamp _); cbn [bind];
      [apply IH; exact Hfin1|reflexivity|exact I]. }
  pose proof (loopDiff_atEOF fuel maxFiles maxBytes st r1 Hfin1) as Hs.
  destruct (loopDiff fuel maxFiles maxBytes st r1) as [y| |] eqn:Ey; cbn [bind];
    unfold simulates in Hs.
  - pose proof (loopDiff_fin _ _ _ _ _ _ Ey) as Hf.
    destruct fuel as [|fuel']; [discriminate|].
    destruct y as [st1 e|st1 r2]; unfold diffExitAtEOF in Hs.
    + destruct Hs as [(-> & m & r' & Hp & Hf' & Hm & ->)|(-> & ->)].
      * unfold simulates, resultAtEOF. left. split; [reflexivity|]. right.
        exists m. split; [exact Hm|].
        destruct m as [st2| |]; cbn [bind]; try reflexivity.
        apply loopCommits_empty; assumption.
      * unfold simulates, resultAtEOF. right. split; reflexivity.
    + rewrite Hs. cbn [bind]. apply IH. congruence.
  - rewrite Hs. reflexivity.
  - exact I.
Qed.

End ReadError.

(** C10. Over a stream whose reads end in an I/O error (and whose bytes do not
    make the parser panic when they are followed by a clean end), [parseLog]
    returns that error, as it is or wrapped by a fragment-draining loop, and
    with it the commits appended so far. They are the commits that a clean
    end of the stream at the same point returns, but for the commit still
    open, which only the clean end flushes, with or without the record of
    the file whose hunks were being read. *)
Theorem read_error_returns_assembled_commits (data : string) (code : nat)
  (maxFiles maxBytes : Z) :
  (forall p, parseLogState data EOF maxFiles maxBytes <> Panic p) ->
  exists st e,
    parseLogState data (ReadError code) maxFiles maxBytes = Ret (st, Some e)
    /\ parseLog data (ReadError code) maxFiles maxBytes = Ret (deref st, Some e)
    /\ (e = ReadError code \/ e = UnableToReadLine (ReadError code))
    /\ exists st2 e2,
         parseLogState data EOF maxFiles maxBytes = Ret (st2, e2)
         /\ (st2 = st
             \/ st2 = appendCommit (setHeaderParsed st false)
             \/ exists f st', appendFile st f = Ret st'
                              /\ st2 = appendCommit (setHeaderParsed st' false)).
Proof.
  intros Hclean. unfold parseLog. unfold parseLogState in *.
  pose proof (loopCommits_atEOF code (len data + 3) maxFiles maxBytes initialState
                (NewReaderSize data (ReadError code) maxBytes) eq_refl) as Hs.
  change (atEOF (NewReaderSize data (ReadError code) maxBytes))
    with (NewReaderSize data EOF maxBytes) in Hs.
  pose proof (loopCommits_terminates (len data + 3) maxFiles maxBytes initialState
                (NewReaderSize data (ReadError code) maxBytes)) as Ht.
  pose proof (NewReaderSize_capacity data (ReadError code) maxBytes) as Hc.
  specialize (Ht ltac:(lia) ltac:(simpl; lia)).
  destruct (loopCommits (len data + 3) maxFiles maxBytes initialState
              (NewReaderSize data (ReadError code) maxBytes)) as [[st e]|p|];
    unfold simulates in Hs.
  - destruct e as [e|]; unfold resultAtEOF in Hs; [|contradiction].
    exists st, e. split; [reflexivity|]. split; [reflexivity|].
    destruct Hs as [(-> & [Hs|(m & Hm & Hs)])|(-> & Hs)].
    + split; [left; reflexivity|]. exists st, None. split; [exact Hs|left; reflexivity].
    + split; [left; reflexivity|].
      destruct Hm as [->|(f & ->)].
      * exists (appendCommit (setHeaderParsed st false)), None.
        split; [exact Hs|right; left; reflexivity].
      * destruct (appendFile st f) as [st'|p|] eqn:Ef; cbn [bind] in Hs.
        -- exists (appendCommit (setHeaderParsed st' false)), None.
           split; [exact Hs|]. right. right. exists f, st'. split; [exact Ef|reflexivity].
        -- exfalso. exact (Hclean p Hs).
        -- exfalso. exact (appendFile_fuel st f Ef).
    + split; [right; reflexivity|].
      exists st, (Some (UnableToReadLine EOF)). split; [exact Hs|left; reflexivity].
  - exfalso. exact (Hclean p Hs).
  - contradiction.
Qed.

(** A read error in the hunks of the second commit of a stream. *)
Lemma read_error_returns_assembled_commits_witness :
  exists st e,
    parseLogState
      (unlines (metadata "h1" "n" "e" "1" ++ edit "y" ++ [""]
                ++ metadata "h2" "n" "e" "2" ++ edit "z"))
      (ReadError 5) 10 100 = Ret (st, Some e)
    /\ parseLog
         (unlines (metadata "h1" "n" "e" "1" ++ edit "y" ++ [""]
                   ++ metadata "h2" "n" "e" "2" ++ edit "z"))
         (ReadError 5) 10 100 = Ret (deref st, Some e)
    /\ (e = ReadError 5 \/ e = UnableToReadLine (ReadError 5))
    /\ exists st2 e2,
         parseLogState
           (unlines (metadata "h1" "n" "e" "1" ++ edit "y" ++ [""]
                     ++ metadata "h2" "n" "e" "2" ++ edit "z"))
           EOF 10 100 = Ret (st2, e2)
         /\ (st2 = st
             \/ st2 = appendCommit (setHeaderParsed st false)
             \/ exists f st', appendFile st f = Ret st'
                              /\ st2 = appendCommit (setHeaderParsed st' false)).
Proof.
  apply (read_error_returns_assembled_commits
           (unlines (metadata "h1" "n" "e" "1" ++ edit "y" ++ [""]
                     ++ metadata "h2" "n" "e" "2" ++ edit "z"))
           5 10 100).
  intros p. vm_compute. discriminate.
Defined.

(** What that run returns: the first commit, and the error. *)
Example read_error_in_second_commit :
  parseLog (unlines (metadata "h1" "n" "e" "1" ++ edit "y" ++ [""]
                     ++ metadata "h2" "n" "e" "2" ++ edit "z"))
           (ReadError 5) 10 100
  = Ret ([Some (mkCommit "h1" "n" "e" "1" "" [edited "y"])], Some (ReadError 5)).
Proof. vm_compute. reflexivity. Qed.

(** * Further properties *)

(** ** truncateCommandOutput *)

Lemma substring_prefix_len (n : nat) (s : string) :
  len (substring 0 n s) = Nat.min n (len s).
Proof.
  unfold len. revert s. induction n as [|n IH]; intros s.
  - destruct s; reflexivity.
  - destruct s as [|c s]; simpl; [reflexivity|]. rewrite IH. reflexivity.
Qed.

Lemma substring_prefix_split (n : nat) (s : string) :
  exists tail, s = substring 0 n s ++ tail /\ len tail = len s - n.
Proof.
  unfold len. revert s. induction n as [|n IH]; intros s.
  - exists s. destruct s; simpl; split; reflexivity || lia.
  - destruct s as [|c s]; simpl.
    + exists EmptyString. split; reflexivity.
    + destruct (IH s) as (tail & H1 & H2). exists tail. split; [|exact H2].
      rewrite <- H1. reflexivity.
Qed.

Lemma substring_all (s : string) : substring 0 (len s) s = s.
Proof. unfold len. induction s as [|c s IH]; simpl; [reflexivity|]. rewrite IH. reflexivity. Qed.

(** Where [LastIndexByte] points. *)
Lemma LastIndexByte_spec (s : string) (c : ascii) :
  (LastIndexByte s c = (-1)%Z /\ forall pre post, s <> pre ++ String c post)
  \/ (exists pre post,
        s = pre ++ String c post /\ LastIndexByte s c = Z.of_nat (len pre)
        /\ LastIndexByte post c = (-1)%Z).
Proof.
  induction s as [|a s IH].
  - left. split; [reflexivity|]. intros [|x pre] post; simpl; discriminate.
  - simpl. destruct IH as [[H1 H2]|(pre & post & H1 & H2 & H3)].
    + rewrite H1. simpl. destruct (Ascii.eqb_spec a c) as [->|Hn].
      * right. exists EmptyString, s. repeat split; assumption.
      * left. split; [reflexivity|]. intros [|x pre] post; simpl; intros H; inversion H; subst.
        -- apply Hn. reflexivity.
        -- eapply H2. reflexivity.
    + right. exists (String a pre), post. rewrite H2.
      destruct (Z.leb_spec 0 (Z.of_nat (len pre))); [|lia].
      repeat split; [rewrite H1; reflexivity|unfold len; simpl; lia|exact H3].
Qed.

Lemma LastIndexByte_absent (s : string) :
  LastIndexByte s LF = (-1)%Z -> noLF s = true.
Proof.
  induction s as [|a s IH]; simpl; [reflexivity|].
  destruct (Z.leb_spec 0 (LastIndexByte s LF)); [lia|].
  destruct (Ascii.eqb a LF); [discriminate|]. intros _. simpl. apply IH.
  destruct (LastIndexByte_spec s LF) as [[H1 _]|(pre & post & _ & H2 & _)]; [exact H1|lia].
Qed.

(** What [truncateCommandOutput] reads before it looks for the last line. *)
Lemma truncate_read (data : string) (end_ : error) (maxBytes : Z) :
  (if (maxBytes <? 0)%Z then ReadAll data end_ else ReadAllLimit data end_ maxBytes)
  = if ((0 <=? maxBytes) && (maxBytes <=? Z.of_nat (len data)))%Z
    then (substring 0 (Z.to_nat maxBytes) data, None)
    else (data, if isEOF end_ then None else Some end_).
Proof.
  unfold ReadAllLimit, ReadAll.
  destruct (Z.ltb_spec maxBytes 0), (Z.leb_spec 0 maxBytes); try lia; simpl; reflexivity.
Qed.

(** X2. A read error comes out only when the stream fails before the limit is
    reached (always, without a limit), and then with no text and no
    truncation mark; past the limit the stream is not read and its error is
    not seen. *)
Theorem truncateCommandOutput_error (data : string) (end_ : error) (maxBytes : Z) :
  if negb (isEOF end_) && ((maxBytes <? 0) || (Z.of_nat (len data) <? maxBytes))%Z
  then truncateCommandOutput data end_ maxBytes = (EmptyString, false, Some end_)
  else snd (truncateCommandOutput data end_ maxBytes) = None.
Proof.
  unfold truncateCommandOutput. rewrite truncate_read.
  destruct (Z.leb_spec 0 maxBytes), (Z.leb_spec maxBytes (Z.of_nat (len data))),
    (Z.ltb_spec maxBytes 0), (Z.ltb_spec (Z.of_nat (len data)) maxBytes);
    try lia; destruct (isEOF end_); simpl; reflexivity.
Qed.

(** X3. The text returned is a beginning of the stream, and no longer than the
    limit when there is one. *)
Theorem truncateCommandOutput_prefix (data : string) (end_ : error) (maxBytes : Z) :
  (exists tail, data = fst (fst (truncateCommandOutput data end_ maxBytes)) ++ tail)
  /\ ((maxBytes < 0)%Z
      \/ (Z.of_nat (len (fst (fst (truncateCommandOutput data end_ maxBytes)))) <= maxBytes)%Z).
Proof.
  assert (Hnil : forall s : string, s = s ++ EmptyString).
  { induction s as [|c s IH]; simpl; congruence. }
  unfold truncateCommandOutput. rewrite truncate_read.
  destruct (Z.leb_spec 0 maxBytes) as [H0|H0],
    (Z.leb_spec maxBytes (Z.of_nat (len data))) as [H1|H1]; simpl.
  - destruct (substring_prefix_split (Z.to_nat maxBytes) data) as (tail & Ht & _).
    pose proof (substring_prefix_len (Z.to_nat maxBytes) data) as Hb.
    remember (substring 0 (Z.to_nat maxBytes) data) as buf eqn:Eb.
    destruct ((maxBytes >? 0)%Z && (Z.of_nat (len buf) >=? maxBytes)%Z); simpl.
    + destruct (Z.gtb_spec (LastIndexByte buf LF) 0) as [Hi|Hi]; simpl.
      * destruct (substring_prefix_split (Z.to_nat (LastIndexByte buf LF)) buf)
          as (tail' & Ht' & _).
        split.
        -- exists (tail' ++ tail). rewrite <- app_assoc_string, <- Ht'. exact Ht.
        -- right. rewrite substring_prefix_len. lia.
      * split; [eauto|]. right. lia.
    + split; [eauto|]. right. lia.
  - destruct (isEOF end_); simpl.
    + assert (Hg : ((maxBytes >? 0)%Z && (Z.of_nat (len data) >=? maxBytes)%Z) = false).
      { apply andb_false_iff. right. rewrite Z.geb_leb. apply Z.leb_gt. lia. }
      rewrite Hg. simpl. split; [|right; lia]. exists EmptyString. apply Hnil.
    + split; [exists data; reflexivity|right; simpl; lia].
  - split; [|left; lia].
    destruct (isEOF end_); simpl; [|exists data; reflexivity].
    destruct (Z.gtb_spec maxBytes 0); [lia|]. simpl. exists EmptyString. apply Hnil.
  - lia.
Qed.

(** X4. The truncation mark is set exactly when there is a positive limit and the
    stream has at least that many bytes: also when it has exactly that many
    and nothing is cut off by the limit. *)
Theorem truncateCommandOutput_mark (data : string) (end_ : error) (maxBytes : Z) :
  snd (fst (truncateCommandOutput data end_ maxBytes))
  = ((0 <? maxBytes) && (maxBytes <=? Z.of_nat (len data)))%Z.
Proof.
  unfold truncateCommandOutput. rewrite truncate_read.
  destruct (Z.leb_spec 0 maxBytes) as [H0|H0],
    (Z.leb_spec maxBytes (Z.of_nat (len data))) as [H1|H1]; simpl.
  - pose proof (substring_prefix_len (Z.to_nat maxBytes) data) as Hb.
    remember (substring 0 (Z.to_nat maxBytes) data) as buf eqn:Eb. simpl.
    rewrite Z.gtb_ltb, Z.geb_leb.
    destruct (Z.ltb_spec 0 maxBytes); simpl; [|reflexivity].
    destruct (Z.leb_spec maxBytes (Z.of_nat (len buf))); [reflexivity|lia].
  - rewrite andb_false_r. destruct (isEOF end_); simpl; [|reflexivity].
    rewrite Z.gtb_ltb, Z.geb_leb.
    destruct (Z.leb_spec maxBytes (Z.of_nat (len data))); [lia|]. apply andb_false_r.
  - destruct (Z.ltb_spec 0 maxBytes); [lia|]. simpl.
    destruct (isEOF end_); simpl; [|reflexivity].
    rewrite Z.gtb_ltb. destruct (Z.ltb_spec 0 maxBytes); [lia|]. reflexivity.
  - lia.
Qed.

(** X5. A truncated text is the first [maxBytes] bytes of the stream cut back to
    just before their last line feed, which drops the unfinished last line;
    when these bytes have no line feed past their first byte they are
    returned whole, unfinished line included. *)
Theorem truncateCommandOutput_cut (data : string) (end_ : error) (maxBytes : Z) :
  (0 < maxBytes <= Z.of_nat (len data))%Z ->
  exists out,
    truncateCommandOutput data end_ maxBytes = (out, true, None)
    /\ ((out = substring 0 (Z.to_nat maxBytes) data
         /\ (LastIndexByte (substring 0 (Z.to_nat maxBytes) data) LF <= 0)%Z)
        \/ (out <> EmptyString
            /\ exists cut,
                 substring 0 (Z.to_nat maxBytes) data = out ++ String LF cut
                 /\ noLF cut = true)).
Proof.
  intros Hm. unfold truncateCommandOutput. rewrite truncate_read.
  destruct (Z.leb_spec 0 maxBytes) as [H0|H0]; [|lia].
  destruct (Z.leb_spec maxBytes (Z.of_nat (len data))) as [H1|H1]; [|lia].
  simpl.
  pose proof (substring_prefix_len (Z.to_nat maxBytes) data) as Hb.
  remember (substring 0 (Z.to_nat maxBytes) data) as buf eqn:Eb.
  destruct (Z.gtb_spec maxBytes 0); [|lia].
  destruct (Z.geb_spec (Z.of_nat (len buf)) maxBytes); [|lia]. simpl.
  destruct (Z.gtb_spec (LastIndexByte buf LF) 0) as [Hi|Hi].
  - eexists. split; [reflexivity|]. right.
    destruct (LastIndexByte_spec buf LF) as [[Hl _]|(pre & post & Hs & Hl & Hp)]; [lia|].
    rewrite Hl, Nat2Z.id.
    assert (Hout : substring 0 (len pre) buf = pre) by (rewrite Hs; apply substring_whole).
    rewrite Hout. split.
    + intros ->. simpl in Hl. lia.
    + exists post. split; [exact Hs|]. apply LastIndexByte_absent. exact Hp.
  - eexists. split; [reflexivity|]. left. split; [reflexivity|exact Hi].
Qed.

Lemma truncateCommandOutput_cut_witness :
  exists out,
    truncateCommandOutput (unlines ["ab"; "cd"; "ef"]) EOF 7 = (out, true, None)
    /\ ((out = substring 0 (Z.to_nat 7) (unlines ["ab"; "cd"; "ef"])
         /\ (LastIndexByte (substring 0 (Z.to_nat 7) (unlines ["ab"; "cd"; "ef"])) LF <= 0)%Z)
        \/ (out <> EmptyString
            /\ exists cut,
                 substring 0 (Z.to_nat 7) (unlines ["ab"; "cd"; "ef"]) = out ++ String LF cut
                 /\ noLF cut = true)).
Proof.
  apply (truncateCommandOutput_cut (unlines ["ab"; "cd"; "ef"]) EOF 7). simpl. lia.
Defined.

(** X6. Without a truncation mark and without an error the text is the whole
    stream, except under a limit of 0, where it is empty whatever the stream
    holds. *)
Theorem truncateCommandOutput_unmarked (data : string) (end_ : error) (maxBytes : Z)
  (out : string) :
  truncateCommandOutput data end_ maxBytes = (out, false, None) ->
  out = if (maxBytes =? 0)%Z then EmptyString else data.
Proof.
  unfold truncateCommandOutput. rewrite truncate_read.
  destruct (Z.leb_spec 0 maxBytes) as [H0|H0],
    (Z.leb_spec maxBytes (Z.of_nat (len data))) as [H1|H1]; simpl.
  - pose proof (substring_prefix_len (Z.to_nat maxBytes) data) as Hb.
    remember (substring 0 (Z.to_nat maxBytes) data) as buf eqn:Eb.
    destruct (Z.gtb_spec maxBytes 0) as [Hgt|Hle]; simpl.
    + destruct (Z.geb_spec (Z.of_nat (len buf)) maxBytes); [discriminate|lia].
    + intros [= <-]. assert (maxBytes = 0%Z) by lia. subst maxBytes. simpl. subst buf.
      destruct data; reflexivity.
  - destruct (isEOF end_); [|discriminate].
    destruct ((maxBytes >? 0)%Z && (Z.of_nat (len data) >=? maxBytes)%Z); [discriminate|].
    intros [= <-]. destruct (Z.eqb_spec maxBytes 0); [|reflexivity]. lia.
  - destruct (isEOF end_); [|discriminate].
    destruct (Z.gtb_spec maxBytes 0); [lia|]. simpl.
    intros [= <-]. destruct (Z.eqb_spec maxBytes 0); [lia|reflexivity].
  - lia.
Qed.

Lemma truncateCommandOutput_unmarked_witness :
  unlines ["ab"; "cd"] = if (10 =? 0)%Z then EmptyString else unlines ["ab"; "cd"].
Proof.
  apply (truncateCommandOutput_unmarked (unlines ["ab"; "cd"]) EOF 10 (unlines ["ab"; "cd"])).
  reflexivity.
Defined.

(** ** What parseHunks keeps of the hunk lines *)

Lemma scan_line (n : nat) (l rest : string) :
  noLF l = true -> len l < n ->
  scan n (l ++ String LF rest) = (l ++ String LF EmptyString, Found, rest).
Proof.
  revert n. induction l as [|c l IH]; intros n Hl Hn.
  - destruct n; [simpl in Hn; lia|]. reflexivity.
  - destruct n; [simpl in Hn; lia|]. simpl in Hl. apply andb_true_iff in Hl.
    destruct Hl as [Hc Hl]. apply negb_true_iff in Hc. simpl. rewrite Hc.
    rewrite (IH n Hl); [reflexivity|]. unfold len in *. simpl in Hn. lia.
Qed.

Lemma dropLast_app (l : string) (c : ascii) : dropLast (l ++ String c EmptyString) = l.
Proof.
  induction l as [|a l IH]; [reflexivity|].
  destruct l as [|b l]; [reflexivity|].
  change (String a (dropLast (String b l ++ String c EmptyString)) = String a (String b l)).
  rewrite IH. reflexivity.
Qed.

(** [ReadLine] on a line that fits the buffer. *)
Lemma ReadLine_line (r : Reader) (l rest : string) :
  noLF l = true -> len l < capacity r ->
  pending r = l ++ String LF rest ->
  ReadLine r
  = (match lastByte l with
     | Some c => if Ascii.eqb c CR then dropLast l else l
     | None => l
     end, false, None, withPending r rest).
Proof.
  intros Hl Hn E. unfold ReadLine. rewrite E, (scan_line _ _ _ Hl Hn).
  rewrite dropLast_app. destruct (lastByte l) as [c|]; [destruct (Ascii.eqb c CR)|];
    reflexivity.
Qed.

Lemma hunkLine_inv (n : nat) (l : string) :
  hunkLine n l = true ->
  noLF l = true /\ len l < n
  /\ (exists c s, l = String c s /\ Ascii.eqb c "d" = false)
  /\ (exists c, lastByte l = Some c /\ Ascii.eqb c CR = false).
Proof.
  unfold hunkLine. intros H.
  apply andb_true_iff in H. destruct H as [H H4].
  apply andb_true_iff in H. destruct H as [H H3].
  apply andb_true_iff in H. destruct H as [H1 H2].
  split; [exact H1|]. split; [apply Nat.ltb_lt; exact H3|]. split.
  - destruct l as [|c s]; [discriminate|]. exists c, s. split; [reflexivity|].
    apply negb_true_iff. exact H2.
  - destruct (lastByte l) as [c|]; [|discriminate]. exists c. split; [reflexivity|].
    apply negb_true_iff. exact H4.
Qed.

(** One hunk line that is kept whole. *)
Lemma parseHunksLoop_line (fuel : nat) (cf : File) (maxBytes : Z) (r : Reader)
  (l rest : string) :
  maxBytes <> 0%Z ->
  hunkLine (capacity r) l = true ->
  pending r = l ++ String LF rest ->
  parseHunksLoop (S fuel) cf maxBytes false r
  = parseHunksLoop fuel (setContent cf (Content cf ++ l ++ String LF EmptyString))
      maxBytes false (withPending r rest).
Proof.
  intros Hm Hl E.
  destruct (hunkLine_inv _ _ Hl) as (H1 & H2 & (c & s & Hs & Hc) & (d & Hd & Hcr)).
  cbn [parseHunksLoop]. rewrite discardFragments_false. cbn [bind].
  rewrite (ReadLine_line r l rest H1 H2 E), Hd, Hcr. rewrite Hs at 1. rewrite Hc.
  rewrite byte_cap_test. destruct (Z.eqb_spec maxBytes 0) as [H0|_]; [contradiction|].
  rewrite discardFragments_false. reflexivity.
Qed.

Lemma app_empty_string (s : string) : s ++ EmptyString = s.
Proof. induction s as [|c s IH]; simpl; congruence. Qed.

Lemma parseHunksLoop_lines (ls : list string) :
  forall (fuel : nat) (cf : File) (maxBytes : Z) (r : Reader) (rest : string),
    maxBytes <> 0%Z ->
    forallb (hunkLine (capacity r)) ls = true ->
    pending r = unlines ls ++ rest ->
    parseHunksLoop (List.length ls + fuel) cf maxBytes false r
    = parseHunksLoop fuel (setContent cf (Content cf ++ unlines ls))
        maxBytes false (withPending r rest).
Proof.
  induction ls as [|l ls IH]; intros fuel cf maxBytes r rest Hm Hls E.
  - simpl in *. rewrite app_empty_string.
    destruct r, cf; unfold withPending, setContent; simpl in *. subst. reflexivity.
  - simpl in Hls. apply andb_true_iff in Hls. destruct Hls as [Hl Hls].
    rewrite unlines_cons_app in E. simpl List.length. simpl Nat.add.
    rewrite (parseHunksLoop_line _ _ _ _ _ _ Hm Hl E).
    rewrite (IH fuel _ maxBytes (withPending r (unlines ls ++ rest)) rest Hm Hls eq_refl).
    simpl. rewrite !app_assoc_string. reflexivity.
Qed.

(** X7. Hunk lines that fit the buffer are kept verbatim, in order, each with its
    line feed, up to the end of the stream, a blank line, or a line that
    starts with [d]; the rest of the record is left as it was (with a byte
    cap other than 0). *)
Theorem parseHunks_verbatim (fuel : nat) (cf : File) (maxBytes : Z) (r : Reader)
  (ls : list string) (rest : string) :
  maxBytes <> 0%Z ->
  forallb (hunkLine (capacity r)) ls = true ->
  pending r = unlines ls ++ rest ->
  hunksStop (capacity r) rest ->
  List.length ls < fuel ->
  exists h,
    parseHunks fuel cf maxBytes r = Ret h
    /\ hFile h = setContent cf (Content cf ++ unlines ls).
Proof.
  intros Hm Hls E Hstop Hf. unfold parseHunks.
  replace fuel with (List.length ls + S (fuel - S (List.length ls))) by lia.
  rewrite (parseHunksLoop_lines ls _ cf maxBytes r rest Hm Hls E).
  set (cf' := setContent cf (Content cf ++ unlines ls)).
  set (r' := withPending r rest).
  cbn [parseHunksLoop]. rewrite discardFragments_false. cbn [bind].
  destruct Hstop as [->|[(rest' & ->)|(next & rest' & -> & Hn & Hlen)]].
  - unfold ReadLine, r'. simpl. destruct (capacity r); simpl; eexists; split; reflexivity.
  - unfold ReadLine, r'. simpl. destruct (capacity r); simpl; eexists; split; reflexivity.
  - rewrite (ReadLine_line r' (String "d" next) rest'); [|simpl; exact Hn|simpl; lia|reflexivity].
    destruct next as [|c next]; [simpl; eexists; split; reflexivity|].
    change (lastByte (String "d" (String c next))) with (lastByte (String c next)).
    destruct (lastByte (String c next)) as [x|]; [destruct (Ascii.eqb x CR)|];
      simpl; eexists; split; reflexivity.
Qed.

Lemma parseHunks_verbatim_witness :
  exists h,
    parseHunks 10 emptyFile 100
      (NewReaderSize (unlines ["@@ -1 +1 @@"; "-a"; "+b"; "diff --git a/z b/z"]) EOF 100) = Ret h
    /\ hFile h
       = setContent emptyFile (Content emptyFile ++ unlines ["@@ -1 +1 @@"; "-a"; "+b"]).
Proof.
  apply (parseHunks_verbatim 10 emptyFile 100 _ ["@@ -1 +1 @@"; "-a"; "+b"]
           (unlines ["diff --git a/z b/z"]));
    [discriminate|reflexivity|reflexivity| |simpl; lia].
  right. right. exists "iff --git a/z b/z", EmptyString.
  split; [reflexivity|]. split; [reflexivity|vm_compute; lia].
Defined.

(** ** Invariants of the file records *)

Lemma ReadString_capacity (r r' : Reader) (l : string) (e : option error) :
  ReadString r = (l, e, r') -> capacity r' = capacity r.
Proof. intros H. destruct (ReadString_spec _ _ _ _ H) as (_ & H2 & _). exact H2. Qed.

Lemma ReadLine_capacity (r r' : Reader) (l : string) (b : bool) (e : option error) :
  ReadLine r = (l, b, e, r') -> capacity r' = capacity r.
Proof.
  unfold ReadLine. destruct (scan (capacity r) (pending r)) as [[l0 e0] rest].
  destruct e0.
  - destruct (lastByte (dropLast l0)) as [c|]; [destruct (Ascii.eqb c CR)|];
      intros [= _ _ _ <-]; reflexivity.
  - destruct (lastByte l0) as [c|]; [destruct (Ascii.eqb c CR)|];
      intros [= _ _ _ <-]; reflexivity.
  - destruct l0; intros [= _ _ _ <-]; reflexivity.
Qed.

Lemma discardFragments_capacity (fuel : nat) (b : bool) (r r' : Reader) (e : option error) :
  discardFragments fuel b r = Ret (e, r') -> capacity r' = capacity r.
Proof.
  revert b r. induction fuel as [|fuel IH]; intros b r H.
  - destruct b; simpl in H; [discriminate|]. inversion H; subst. reflexivity.
  - simpl in H. destruct b; [|inversion H; subst; reflexivity].
    destruct (ReadLine r) as [[[l b'] e1] r1] eqn:E.
    apply ReadLine_capacity in E. destruct e1.
    + inversion H; subst. exact E.
    + apply IH in H. congruence.
Qed.

Lemma noLF_dropLast (s : string) : noLF s = true -> noLF (dropLast s) = true.
Proof.
  induction s as [|c s IH]; [reflexivity|]. intros H. simpl in H.
  apply andb_true_iff in H. destruct H as [Hc Hs].
  destruct s as [|d s]; [reflexivity|].
  change (negb (Ascii.eqb c LF) && noLF (dropLast (String d s)) = true).
  rewrite Hc, (IH Hs). reflexivity.
Qed.

(** A scan yields at most a buffer-full, with no line feed before the one
    that ends it. *)
Lemma scan_bound (n : nat) (s l rest : string) (e : scanEnd) :
  scan n s = (l, e, rest) ->
  len l <= n
  /\ match e with
     | Found => exists l', l = l' ++ String LF EmptyString /\ noLF l' = true
     | _ => noLF l = true
     end.
Proof.
  revert s l rest e. induction n as [|n IH]; intros s l rest e H; simpl in H.
  - inversion H; subst. split; [simpl; lia|reflexivity].
  - destruct s as [|c s].
    + inversion H; subst. split; [simpl; lia|reflexivity].
    + destruct (Ascii.eqb c LF) eqn:Ec.
      * apply Ascii.eqb_eq in Ec. subst c. inversion H; subst. split; [simpl; lia|].
        exists EmptyString. split; reflexivity.
      * destruct (scan n s) as [[l0 e0] r0] eqn:E. inversion H; subst.
        destruct (IH _ _ _ _ E) as [H1 H2]. split; [unfold len in *; simpl; lia|].
        destruct e.
        -- destruct H2 as (l' & -> & Hl'). exists (String c l'). split; [reflexivity|].
           simpl. rewrite Ec, Hl'. reflexivity.
        -- simpl. rewrite Ec, H2. reflexivity.
        -- simpl. rewrite Ec, H2. reflexivity.
Qed.

(** A line or fragment from [ReadLine] holds no line feed and is no longer
    than the buffer. *)
Lemma ReadLine_bound (r r' : Reader) (l : string) (b : bool) (e : option error) :
  ReadLine r = (l, b, e, r') -> noLF l = true /\ len l <= capacity r.
Proof.
  unfold ReadLine. destruct (scan (capacity r) (pending r)) as [[l0 e0] rest] eqn:E.
  destruct (scan_bound _ _ _ _ _ E) as [H1 H2].
  assert (Hd : forall s, len (dropLast s) <= len s) by (intros s; rewrite dropLast_len; lia).
  destruct e0.
  - destruct H2 as (l' & -> & Hl'). rewrite dropLast_app.
    rewrite len_app in H1. simpl in H1.
    destruct (lastByte l') as [c|]; [destruct (Ascii.eqb c CR)|];
      intros [= <- _ _ _]; (split; [try apply noLF_dropLast; exact Hl'|]);
      try (specialize (Hd l')); lia.
  - destruct (lastByte l0) as [c|]; [destruct (Ascii.eqb c CR)|];
      intros [= <- _ _ _]; (split; [try apply noLF_dropLast; exact H2|]);
      try (specialize (Hd l0)); lia.
  - destruct l0; intros [= <- _ _ _]; (split; [exact H2 || reflexivity|]); simpl in *; lia.
Qed.

Section FileInvariant.

(** The byte cap, the size of the buffer, and a property of the content of a
    record that [parseHunks] keeps. *)
Variable maxBytes : Z.
Variable n : nat.
Variable P : string -> Prop.
Hypothesis P_empty : P EmptyString.
Hypothesis P_hunks :
  forall fuel cf b r h,
    capacity r = n -> P (Content cf) ->
    parseHunksLoop fuel cf maxBytes b r = Ret h ->
    P (Content (hFile h)) /\ capacity (hInput h) = n.

Let Q (f : File) : Prop := P (Content f).

Lemma allFiles_storeCommit (st : state) (c : Commit) :
  allFiles Q st -> Forall Q (Files c) -> allFiles Q (storeCommit st c).
Proof.
  unfold allFiles, storeCommit. intros H Hc.
  destruct (currentCommit st); simpl; [apply Forall_update; assumption|exact H].
Qed.

Lemma allFiles_appendFile (st st' : state) (f : File) :
  allFiles Q st -> Q f -> appendFile st f = Ret st' -> allFiles Q st'.
Proof.
  intros H Hf E. unfold appendFile in E.
  destruct (loadCommit st) as [c| |] eqn:Ec; simpl in E; try discriminate.
  inversion E; subst. apply allFiles_storeCommit; [exact H|].
  simpl. apply Forall_app. split; [|constructor; [exact Hf|constructor]].
  apply loadCommit_In in Ec. unfold allFiles in H. rewrite Forall_forall in H.
  apply H. exact Ec.
Qed.

Lemma allFiles_assignField (st st' : state) (set : Commit -> string -> Commit)
  (line : string) :
  (forall c v, Files (set c v) = Files c) ->
  allFiles Q st -> assignField st set line = Ret st' -> allFiles Q st'.
Proof.
  intros Hset H E. unfold assignField in E.
  destruct (sliceFrom line 2) as [v| |]; simpl in E; try discriminate.
  destruct (loadCommit st) as [c| |] eqn:Ec; simpl in E; try discriminate.
  inversion E; subst. apply allFiles_storeCommit; [exact H|].
  rewrite Hset. apply loadCommit_In in Ec.
  unfold allFiles in H. rewrite Forall_forall in H. apply H. exact Ec.
Qed.

Ltac invert_inv H IH :=
  repeat match type of H with
    | Ret _ = Ret _ => inversion H; subst; clear H
    | Panic _ = Ret _ => discriminate H
    | OutOfFuel = Ret _ => discriminate H
    | (if ?b then _ else _) = Ret _ => destruct b
    | bind (if ?b then _ else _) _ = Ret _ => destruct b
    | bind (bind _ _) _ = Ret _ => rewrite bind_assoc in H
    | bind (Ret _) _ = Ret _ => cbn [bind] in H
    | bind (slice ?a ?b ?c) _ = Ret _ =>
        destruct (slice a b c); cbn [bind] in H
    | bind (sliceFrom ?a ?b) _ = Ret _ =>
        destruct (sliceFrom a b); cbn [bind] in H
    | bind (appendFile ?a ?b) _ = Ret _ =>
        let E := fresh "E" in
        destruct (appendFile a b) eqn:E; cbn [bind] in H
    | currFileLoop _ _ _ _ _ _ = Ret _ => apply IH in H; [|assumption|assumption]
    end.

Lemma currFileLoop_allFiles (fuel : nat) (st : state) (cf : File) (pr : bool)
  (r : Reader) (x : fileExit) :
  allFiles Q st -> Q cf -> capacity r = n ->
  currFileLoop fuel maxBytes st cf pr r = Ret x ->
  allFiles Q (exitState x)
  /\ match x with
     | ReturnErr _ _ => True
     | BreakLoopDiff _ r' => capacity r' = n
     | BreakCurrFileLoop _ r' => capacity r' = n
     end.
Proof.
  intros Hst. revert cf pr r.
  induction fuel as [|fuel IH]; intros cf pr r Hcf Hcap H; [discriminate|].
  cbn [currFileLoop] in H. destruct (ReadString r) as [[line e] r1] eqn:E.
  apply ReadString_capacity in E. rewrite Hcap in E.
  destruct e as [e|].
  { destruct (isEOF e); inversion H; subst; simpl; auto. }
  unfold Q in Hcf.
  invert_inv H IH; simpl; auto;
    try (match goal with
         | E : appendFile _ _ = Ret _ |- _ =>
             split; [exact (allFiles_appendFile _ _ _ Hst Hcf E)|assumption]
         end).
  all: unfold parseHunks in H;
    match type of H with
    | context [parseHunksLoop ?a ?b ?c ?d ?e] =>
        destruct (parseHunksLoop a b c d e) as [h| |] eqn:Eh
    end; cbn [bind] in H; try discriminate.
  all: apply P_hunks in Eh; try assumption.
  all: destruct Eh as [Hh Hch].
  all: destruct (hErr h) as [e|];
    [destruct (isEOF e);
     [destruct (appendFile st (hFile h)) eqn:Ea; cbn [bind] in H; try discriminate;
      inversion H; subst; simpl;
      split; [exact (allFiles_appendFile _ _ _ Hst Hh Ea)|assumption]
     |inversion H; subst; simpl; auto]|].
  all: destruct (appendFile st (hFile h)) as [st'| |] eqn:Ea; cbn [bind] in H;
    try discriminate.
  all: pose proof (allFiles_appendFile _ _ _ Hst Hh Ea) as Hst'.
  all: destruct (String.eqb (hLineBytes h) EmptyString);
    [inversion H; subst; simpl; auto|].
  all: destruct (discardFragments fuel (hIsFragment h) (hInput h)) as [[e2 r2]| |] eqn:Ed;
    cbn [bind] in H; try discriminate.
  all: apply discardFragments_capacity in Ed.
  all: destruct e2; inversion H; subst; simpl; split; auto; congruence.
Qed.

Lemma loopDiff_allFiles (fuel : nat) (maxFiles : Z) (st : state) (r : Reader)
  (x : diffExit) :
  allFiles Q st -> capacity r = n ->
  loopDiff fuel maxFiles maxBytes st r = Ret x ->
  allFiles Q (diffExitState x)
  /\ match x with
     | DiffReturn _ _ => True
     | DiffBreak _ r' => capacity r' = n
     end.
Proof.
  revert st r. induction fuel as [|fuel IH]; intros st r Hst Hcap H; [discriminate|].
  cbn [loopDiff] in H.
  match type of H with bind ?m _ = _ => destruct m as [capped| |] end;
    cbn [bind] in H; try discriminate.
  destruct capped; [inversion H; subst; simpl; auto|].
  destruct (currFileLoop fuel maxBytes st emptyFile true r) as [y| |] eqn:Ey;
    cbn [bind] in H; try discriminate.
  apply currFileLoop_allFiles in Ey; [|exact Hst|exact P_empty|exact Hcap].
  destruct Ey as [Hy Hc].
  destruct y as [st1 e|st1 r1|st1 r1]; simpl in Hy.
  - inversion H; subst. simpl. auto.
  - inversion H; subst. simpl. auto.
  - exact (IH _ _ Hy Hc H).
Qed.

Lemma loopCommits_allFiles (fuel : nat) (maxFiles : Z) (st st' : state) (r : Reader)
  (e : option error) :
  allFiles Q st -> capacity r = n ->
  loopCommits fuel maxFiles maxBytes st r = Ret (st', e) ->
  allFiles Q st'.
Proof.
  revert st r. induction fuel as [|fuel IH]; intros st r Hst Hcap H; [discriminate|].
  cbn [loopCommits] in H. destruct (ReadString r) as [[line e1] r1] eqn:E.
  apply ReadString_capacity in E. rewrite Hcap in E.
  destruct e1 as [e1|].
  { destruct (isEOF e1); inversion H; subst; exact Hst. }
  destruct (chomp line) as [|ch l]; [discriminate|].
  destruct (Ascii.eqb ch "c").
  { destruct (sliceFrom (String ch l) 2) as [hash| |]; cbn [bind] in H; try discriminate.
    apply IH in H; [exact H| |exact E].
    unfold allFiles, newCommit. simpl. apply Forall_app. split.
    - destruct (headerParsed st); exact Hst.
    - constructor; [constructor|constructor]. }
  destruct (Ascii.eqb ch "a").
  { destruct (assignField _ setAuthorName _) as [st1| |] eqn:Ea; cbn [bind] in H;
      try discriminate.
    apply IH in H; [exact H| |exact E].
    refine (allFiles_assignField _ _ setAuthorName _ (fun _ _ => eq_refl) _ Ea). exact Hst. }
  destruct (Ascii.eqb ch "m").
  { destruct (assignField _ setAuthorEmail _) as [st1| |] eqn:Ea; cbn [bind] in H;
      try discriminate.
    apply IH in H; [exact H| |exact E].
    refine (allFiles_assignField _ _ setAuthorEmail _ (fun _ _ => eq_refl) _ Ea). exact Hst. }
  destruct (Ascii.eqb ch "t").
  { destruct (assignField _ setTimestamp _) as [st1| |] eqn:Ea; cbn [bind] in H;
      try discriminate.
    apply IH in H; [exact H| |exact E].
    refine (allFiles_assignField _ _ setTimestamp _ (fun _ _ => eq_refl) _ Ea). exact Hst. }
  destruct (loopDiff fuel maxFiles maxBytes st r1) as [y| |] eqn:Ey; cbn [bind] in H;
    try discriminate.
  apply loopDiff_allFiles in Ey; [|exact Hst|exact E]. destruct Ey as [Hy Hc].
  destruct y as [st1 e1|st1 r2]; simpl in Hy.
  - inversion H; subst. exact Hy.
  - apply IH in H; [exact H|exact Hy|exact Hc].
Qed.

End FileInvariant.

Lemma parseHunksLoop_capacity (fuel : nat) (cf : File) (maxBytes : Z) (b : bool)
  (r : Reader) (h : hunks) :
  parseHunksLoop fuel cf maxBytes b r = Ret h -> capacity (hInput h) = capacity r.
Proof.
  revert cf b r. induction fuel as [|fuel IH]; intros cf b r H; [discriminate|].
  cbn [parseHunksLoop] in H.
  destruct (discardFragments fuel b r) as [[e1 r1]| |] eqn:E1; cbn [bind] in H;
    try discriminate.
  apply discardFragments_capacity in E1.
  destruct e1 as [x|]; [inversion H; subst; exact E1|].
  destruct (ReadLine r1) as [[[l frag] e] r2] eqn:E2.
  apply ReadLine_capacity in E2.
  destruct e as [x|]; [inversion H; subst; simpl; congruence|].
  destruct l as [|c l]; [inversion H; subst; simpl; congruence|].
  destruct (Ascii.eqb c "d"); [inversion H; subst; simpl; congruence|].
  destruct ((maxBytes >? -1)%Z && (currFileLineCount >=? maxBytes)%Z).
  { apply IH in H. congruence. }
  destruct (discardFragments fuel frag r2) as [[e3 r3]| |] eqn:E3; cbn [bind] in H;
    try discriminate.
  apply discardFragments_capacity in E3.
  destruct e3 as [x|]; [inversion H; subst; simpl; congruence|].
  apply IH in H. congruence.
Qed.

Lemma wholeLines_add (n : nat) (s l : string) :
  wholeLines n s -> noLF l = true -> len l <= n ->
  wholeLines n (s ++ l ++ String LF EmptyString).
Proof.
  intros (ls & -> & Hls) Hl Hn. exists (ls ++ [l])%list. split.
  - rewrite unlines_app. reflexivity.
  - apply Forall_app. split; [exact Hls|]. constructor; [split; assumption|constructor].
Qed.

Lemma parseHunksLoop_wholeLines (fuel : nat) (cf : File) (maxBytes : Z) (b : bool)
  (r : Reader) (h : hunks) :
  wholeLines (capacity r) (Content cf) ->
  parseHunksLoop fuel cf maxBytes b r = Ret h ->
  wholeLines (capacity r) (Content (hFile h)).
Proof.
  revert cf b r. induction fuel as [|fuel IH]; intros cf b r Hcf H; [discriminate|].
  cbn [parseHunksLoop] in H.
  assert (H0 : wholeLines (capacity r) (Content (if b then setTruncated cf true else cf)))
    by (destruct b; exact Hcf).
  destruct (discardFragments fuel b r) as [[e1 r1]| |] eqn:E1; cbn [bind] in H;
    try discriminate.
  apply discardFragments_capacity in E1.
  destruct e1 as [x|]; [inversion H; subst; exact H0|].
  destruct (ReadLine r1) as [[[l frag] e] r2] eqn:E2.
  destruct (ReadLine_bound _ _ _ _ _ E2) as [Hl Hn].
  apply ReadLine_capacity in E2.
  destruct e as [x|]; [inversion H; subst; exact H0|].
  destruct l as [|c l]; [inversion H; subst; exact H0|].
  destruct (Ascii.eqb c "d"); [inversion H; subst; exact H0|].
  destruct ((maxBytes >? -1)%Z && (currFileLineCount >=? maxBytes)%Z).
  { assert (Hc2 : capacity r2 = capacity r) by congruence.
    rewrite <- Hc2. apply IH in H; [exact H|]. rewrite Hc2. exact H0. }
  destruct (discardFragments fuel frag r2) as [[e3 r3]| |] eqn:E3; cbn [bind] in H;
    try discriminate.
  apply discardFragments_capacity in E3.
  destruct e3 as [x|].
  { inversion H; subst. simpl. destruct frag; exact H0. }
  assert (Hc3 : capacity r3 = capacity r) by congruence.
  rewrite <- Hc3. apply (IH _ _ _ ) in H; [exact H|].
  rewrite Hc3. cbn [Content setContent].
  replace (Content (if frag then _ else _))
    with (Content (if b then setTruncated cf true else cf)) by (destruct frag; reflexivity).
  apply (wholeLines_add _ _ (String c l)); [exact H0|exact Hl|rewrite <- E1; exact Hn].
Qed.

Lemma parseHunksLoop_cap_zero (fuel : nat) (cf : File) (b : bool) (r : Reader) (h : hunks) :
  parseHunksLoop fuel cf 0 b r = Ret h -> Content (hFile h) = Content cf.
Proof.
  revert cf b r. induction fuel as [|fuel IH]; intros cf b r H; [discriminate|].
  cbn [parseHunksLoop] in H.
  assert (H0 : Content (if b then setTruncated cf true else cf) = Content cf)
    by (destruct b; reflexivity).
  destruct (discardFragments fuel b r) as [[e1 r1]| |]; cbn [bind] in H; try discriminate.
  destruct e1 as [x|]; [inversion H; subst; exact H0|].
  destruct (ReadLine r1) as [[[l frag] e] r2].
  destruct e as [x|]; [inversion H; subst; exact H0|].
  destruct l as [|c l]; [inversion H; subst; exact H0|].
  destruct (Ascii.eqb c "d"); [inversion H; subst; exact H0|].
  rewrite byte_cap_test in H. simpl in H. apply IH in H. simpl in H. congruence.
Qed.

Lemma allFiles_result (P : string -> Prop) (st : state) (c : Commit) (f : File) :
  allFiles (fun f => P (Content f)) st ->
  In (Some c) (deref st) -> In f (Files c) -> P (Content f).
Proof.
  intros H Hc Hf. unfold deref in Hc. apply in_map_iff in Hc.
  destruct Hc as ([p|] & Hp & _); [|discriminate].
  apply nth_error_In in Hp. unfold allFiles in H. rewrite Forall_forall in H.
  specialize (H _ Hp). rewrite Forall_forall in H. exact (H _ Hf).
Qed.

Lemma NewReaderSize_capacity_max (data : string) (end_ : error) (size : Z) :
  capacity (NewReaderSize data end_ size) = Z.to_nat (Z.max 16 size).
Proof.
  unfold NewReaderSize, minReadBufferSize. simpl.
  destruct (Z.ltb_spec size 16); f_equal; lia.
Qed.

(** X8. The content of every file record that [parseLog] returns is made of whole
    lines, each followed by a line feed, and none longer than the buffer of
    the reader, which has [maxBytes] bytes and at least 16: the cap bounds
    the length of each line kept, not the size of the content. *)
Theorem parseLog_content_lines (data : string) (end_ : error) (maxFiles maxBytes : Z)
  (cs : list (option Commit)) (e : option error) (c : Commit) (f : File) :
  parseLog data end_ maxFiles maxBytes = Ret (cs, e) ->
  In (Some c) cs -> In f (Files c) ->
  wholeLines (Z.to_nat (Z.max 16 maxBytes)) (Content f).
Proof.
  intros H Hc Hf. unfold parseLog, parseLogState in H.
  destruct (loopCommits _ _ _ _ _) as [[st e']| |] eqn:E; cbn [bind] in H; try discriminate.
  inversion H; subst. simpl in Hc.
  refine (allFiles_result (wholeLines _) st c f _ Hc Hf).
  refine (loopCommits_allFiles maxBytes (Z.to_nat (Z.max 16 maxBytes)) (wholeLines _)
            _ _ _ _ _ _ _ _ _ _ E).
  - exists []. split; [reflexivity|constructor].
  - intros fuel cf b r h Hr Hcf Hh. split.
    + rewrite <- Hr in *. exact (parseHunksLoop_wholeLines _ _ _ _ _ _ Hcf Hh).
    + rewrite (parseHunksLoop_capacity _ _ _ _ _ _ Hh). exact Hr.
  - constructor.
  - apply NewReaderSize_capacity_max.
Qed.

Lemma parseLog_content_lines_witness :
  wholeLines (Z.to_nat (Z.max 16 5))
    (Content (mkFile "y" 0 "" "y"
                (unlines ["@@ -1 +1 @@"; "-aaaaaaaaaaaaaaa"; "+b"]) true false false)).
Proof.
  apply (parseLog_content_lines
           (unlines (metadata "h1" "n" "e" "1" ++
                     ["diff --git a/y b/y"; "--- a/y"; "+++ b/y"; "@@ -1 +1 @@";
                      "-aaaaaaaaaaaaaaaaaaaaaaaaaaaaaaaaaaaaa"; "+b"]))
           EOF 5 5
           [Some (mkCommit "h1" "n" "e" "1" ""
                    [mkFile "y" 0 "" "y"
                       (unlines ["@@ -1 +1 @@"; "-aaaaaaaaaaaaaaa"; "+b"]) true false false])]
           None
           (mkCommit "h1" "n" "e" "1" ""
              [mkFile "y" 0 "" "y"
                 (unlines ["@@ -1 +1 @@"; "-aaaaaaaaaaaaaaa"; "+b"]) true false false]));
    [vm_compute; reflexivity|left; reflexivity|left; reflexivity].
Defined.

(** X9. With a byte cap of 0, every file record that [parseLog] returns has an
    empty content: only the headers of the files are kept. *)
Theorem parseLog_cap_zero (data : string) (end_ : error) (maxFiles : Z)
  (cs : list (option Commit)) (e : option error) (c : Commit) (f : File) :
  parseLog data end_ maxFiles 0 = Ret (cs, e) ->
  In (Some c) cs -> In f (Files c) ->
  Content f = EmptyString.
Proof.
  intros H Hc Hf. unfold parseLog, parseLogState in H.
  destruct (loopCommits _ _ _ _ _) as [[st e']| |] eqn:E; cbn [bind] in H; try discriminate.
  inversion H; subst. simpl in Hc.
  refine (allFiles_result (fun s => s = EmptyString) st c f _ Hc Hf).
  refine (loopCommits_allFiles 0 16 (fun s => s = EmptyString) _ _ _ _ _ _ _ _ _ _ E).
  - reflexivity.
  - intros fuel cf b r h Hr Hcf Hh. split.
    + rewrite (parseHunksLoop_cap_zero _ _ _ _ _ Hh). exact Hcf.
    + rewrite (parseHunksLoop_capacity _ _ _ _ _ _ Hh). exact Hr.
  - constructor.
  - reflexivity.
Qed.

Lemma parseLog_cap_zero_witness :
  Content (mkFile "y" 0 "" "y" "" true false false) = EmptyString.
Proof.
  apply (parseLog_cap_zero (unlines (metadata "h1" "n" "e" "1" ++ edit "y")) EOF 10
           [Some (mkCommit "h1" "n" "e" "1" "" [mkFile "y" 0 "" "y" "" true false false])]
           None
           (mkCommit "h1" "n" "e" "1" "" [mkFile "y" 0 "" "y" "" true false false]));
    [vm_compute; reflexivity|left; reflexivity|left; reflexivity].
Defined.

(** ** A well-formed log *)

Lemma fuel_lines (ls : list string) (rest : string) (k fuel : nat) :
  len (unlines ls ++ rest) + k < fuel ->
  exists f, fuel = List.length ls + f /\ len rest + k < f.
Proof.
  rewrite len_app. pose proof (unlines_len ls) as Hl. intros H.
  exists (fuel - List.length ls). lia.
Qed.

Lemma parseHunks_to_blank (fuel : nat) (cf : File) (maxBytes : Z) (r : Reader)
  (ls : list string) (rest : string) :
  maxBytes <> 0%Z -> 0 < capacity r ->
  forallb (hunkLine (capacity r)) ls = true ->
  pending r = unlines ls ++ String LF rest ->
  len (pending r) + 1 < fuel ->
  parseHunks fuel cf maxBytes r
  = Ret (mkHunks EmptyString false None
           (setContent cf (Content cf ++ unlines ls)) (withPending r rest)).
Proof.
  intros Hm Hc Hls E Hf. unfold parseHunks. rewrite E in Hf.
  destruct (fuel_lines _ _ _ _ Hf) as (f & -> & Hf').
  rewrite (parseHunksLoop_lines ls _ cf maxBytes r _ Hm Hls E).
  destruct f as [|f]; [lia|]. cbn [parseHunksLoop].
  rewrite discardFragments_false. cbn [bind].
  unfold ReadLine. simpl. destruct (capacity r); [lia|]. reflexivity.
Qed.

Lemma parseHunks_to_diff (fuel : nat) (cf : File) (maxBytes : Z) (r : Reader)
  (ls : list string) (head rest : string) :
  maxBytes <> 0%Z ->
  forallb (hunkLine (capacity r)) ls = true ->
  noLF head = true -> len ("diff --git" ++ head) < capacity r ->
  pending r = unlines ls ++ ("diff --git" ++ head) ++ String LF rest ->
  len (pending r) + 1 < fuel ->
  exists lb,
    String.eqb lb EmptyString = false
    /\ parseHunks fuel cf maxBytes r
       = Ret (mkHunks lb false None
                (setContent cf (Content cf ++ unlines ls)) (withPending r rest)).
Proof.
  intros Hm Hls Hh Hlen E Hf. unfold parseHunks. rewrite E in Hf.
  destruct (fuel_lines _ _ _ _ Hf) as (f & -> & Hf').
  rewrite (parseHunksLoop_lines ls _ cf maxBytes r _ Hm Hls E).
  destruct f as [|f]; [lia|]. cbn [parseHunksLoop].
  rewrite discardFragments_false. cbn [bind].
  rewrite (ReadLine_line _ ("diff --git" ++ head) rest); [|exact Hh|exact Hlen|reflexivity].
  set (lb := match lastByte ("diff --git" ++ head) with
             | Some c => if Ascii.eqb c CR then dropLast ("diff --git" ++ head)
                         else "diff --git" ++ head
             | None => "diff --git" ++ head
             end).
  assert (Hlb : exists s, lb = String "d" s).
  { unfold lb. destruct (lastByte ("diff --git" ++ head)) as [c|];
      [destruct (Ascii.eqb c CR)|]; simpl; eauto. }
  destruct Hlb as (s & Hs). exists lb. rewrite Hs. split; reflexivity.
Qed.

Lemma currFileLoop_plus_b (fuel : nat) (maxBytes : Z) (st : state) (cf : File)
  (r : Reader) (new rest : string) :
  noLF new = true ->
  pending r = "+++ b/" ++ new ++ String LF rest ->
  currFileLoop (S fuel) maxBytes st cf true r
  = (h <- parseHunks fuel (setFilename cf new) maxBytes (withPending r rest) ;;
     match hErr h with
     | Some e =>
         if isEOF e then
           st <- appendFile st (hFile h) ;;
           Ret (BreakLoopDiff (setHeaderParsed st false) (hInput h))
         else Ret (ReturnErr st e)
     | None =>
         st <- appendFile st (hFile h) ;;
         if String.eqb (hLineBytes h) EmptyString then
           Ret (BreakLoopDiff (setHeaderParsed st false) (hInput h))
         else
           d <- discardFragments fuel (hIsFragment h) (hInput h) ;;
           match d with
           | (Some e, _) => Ret (ReturnErr st (UnableToReadLine e))
           | (None, input) => Ret (BreakCurrFileLoop st input)
           end
     end).
Proof.
  intros Hm E. cbn [currFileLoop].
  rewrite (ReadString_line r ("+++ b/" ++ new) rest); [|exact Hm|exact E].
  pose proof (slice_line "+++ " ("b/" ++ new)) as Hs.
  change (len "+++ ") with 4 in Hs.
  cbn [append] in Hs |- *.
  set (line := String "+" (String "+" (String "+" (String " "
                 (String "b" (String "/" (new ++ String LF ""))))))) in *.
  assert (Hp : HasPrefix line "+++ " = true) by (subst line; simpl; first [reflexivity | apply HasPrefix_empty]).
  assert (Hn : forall p s, (p <> "+")%char -> HasPrefix line (String p s) = false).
  { intros p s Hps. subst line. simpl. destruct (ascii_dec p "+"); [contradiction|reflexivity]. }
  assert (He : String.eqb line (String LF "") = false) by (subst line; reflexivity).
  rewrite He. repeat (rewrite Hn by discriminate). rewrite Hp, Hs. cbn [bind andb].
  assert (Hb : HasPrefix (String "b" (String "/" new)) "b/" = true)
    by (simpl; first [reflexivity | apply HasPrefix_empty]).
  rewrite Hb. pose proof (sliceFrom_app "b/" new) as Hs2. change (len "b/") with 2 in Hs2.
  cbn [append] in Hs2. rewrite Hs2. cbn [bind]. reflexivity.
Qed.

Lemma changeFits_inv (n : nat) (ch : change) :
  changeFits n ch = true ->
  noLF (chHead ch) = true /\ len ("diff --git" ++ chHead ch) < n
  /\ forallb passedOver (chMids ch) = true
  /\ noLF (chOld ch) = true /\ noLF (chNew ch) = true
  /\ forallb (hunkLine n) (chHunks ch) = true.
Proof.
  unfold changeFits. intros H.
  repeat (apply andb_true_iff in H; destruct H as [H ?]).
  repeat split; try assumption. apply Nat.ltb_lt. assumption.
Qed.

(** The stream of a change body followed by [tail]. *)
Lemma changeBody_stream (ch : change) (tail : string) :
  unlines (changeBody ch) ++ tail
  = unlines (chMids ch)
    ++ "--- " ++ ("a/" ++ chOld ch)
    ++ String LF ("+++ b/" ++ chNew ch ++ String LF (unlines (chHunks ch) ++ tail)).
Proof.
  unfold changeBody. rewrite unlines_app, app_assoc_string. f_equal.
  rewrite !unlines_cons_app.
  repeat first [rewrite !app_assoc_string | progress cbn [append]]. reflexivity.
Qed.

(** The header lines of a change, up to its hunks. *)
Lemma currFileLoop_change_header (fuel : nat) (maxBytes : Z) (st : state) (r : Reader)
  (ch : change) (tail : string) :
  forallb passedOver (chMids ch) = true ->
  noLF (chOld ch) = true -> noLF (chNew ch) = true ->
  pending r = unlines (changeBody ch) ++ tail ->
  len (pending r) + 1 < fuel ->
  exists f,
    len (unlines (chHunks ch) ++ tail) + 1 < f
    /\ f < fuel
    /\ currFileLoop fuel maxBytes st emptyFile true r
       = currFileLoop (S f) maxBytes st (setOldFilename emptyFile (chOld ch)) true
           (withPending r ("+++ b/" ++ chNew ch
                           ++ String LF (unlines (chHunks ch) ++ tail))).
Proof.
  intros Hmids Hold Hnew E Hf. rewrite changeBody_stream in E. rewrite E in Hf.
  destruct (fuel_lines _ _ _ _ Hf) as (f1 & -> & Hf1).
  rewrite (currFileLoop_passedOver_all (chMids ch) _ _ _ _ _ r _ Hmids E).
  repeat (rewrite ?len_app in Hf1; simpl len in Hf1).
  destruct f1 as [|f1]; [lia|]. destruct f1 as [|f]; [lia|].
  rewrite (currFileLoop_minus _ _ _ _ _ (withPending r _) ("a/" ++ chOld ch) _
             ltac:(simpl; exact Hold) eq_refl).
  change (IsDeleted emptyFile) with false. cbn [andb].
  assert (Hb : HasPrefix ("a/" ++ chOld ch) "a/" = true) by (simpl; first [reflexivity | apply HasPrefix_empty]).
  rewrite Hb. pose proof (sliceFrom_app "a/" (chOld ch)) as Hs.
  change (len "a/") with 2 in Hs. rewrite Hs. cbn [bind].
  exists f. split; [repeat (rewrite ?len_app; simpl len); unfold len in *; lia|].
  split; [lia|]. reflexivity.
Qed.

Lemma withPending_withPending (r : Reader) (a b : string) :
  withPending (withPending r a) b = withPending r b.
Proof. reflexivity. Qed.

Lemma changeRecord_eq (ch : change) :
  setContent (setFilename (setOldFilename emptyFile (chOld ch)) (chNew ch))
             (Content (setFilename (setOldFilename emptyFile (chOld ch)) (chNew ch))
              ++ unlines (chHunks ch))
  = changeRecord ch.
Proof. reflexivity. Qed.

(** The last change of a commit: up to the blank line. *)
Lemma currFileLoop_last_change (fuel : nat) (maxBytes : Z) (st : state) (c : Commit)
  (r : Reader) (ch : change) (rest : string) :
  loadCommit st = Ret c ->
  maxBytes <> 0%Z -> 0 < capacity r ->
  changeFits (capacity r) ch = true ->
  pending r = unlines (changeBody ch) ++ String LF rest ->
  len (pending r) + 1 < fuel ->
  currFileLoop fuel maxBytes st emptyFile true r
  = Ret (BreakLoopDiff
           (setHeaderParsed (storeCommit st (setFiles c (Files c ++ [changeRecord ch]))) false)
           (withPending r rest)).
Proof.
  intros Hc Hm Hcap Hfit E Hf.
  destruct (changeFits_inv _ _ Hfit) as (_ & _ & Hmids & Hold & Hnew & Hh).
  destruct (currFileLoop_change_header fuel maxBytes st r ch _ Hmids Hold Hnew E Hf)
    as (f & Hf1 & _ & ->).
  erewrite currFileLoop_plus_b; [|exact Hnew|reflexivity].
  erewrite parseHunks_to_blank; [|exact Hm|exact Hcap|exact Hh|reflexivity|exact Hf1].
  cbn [bind hErr hFile hLineBytes hInput]. rewrite changeRecord_eq.
  rewrite (appendFile_ok _ _ _ Hc). reflexivity.
Qed.

(** A change that another one follows: up to and including the next
    [diff --git] line. *)
Lemma currFileLoop_next_change (fuel : nat) (maxBytes : Z) (st : state) (c : Commit)
  (r : Reader) (ch : change) (head rest : string) :
  loadCommit st = Ret c ->
  maxBytes <> 0%Z ->
  changeFits (capacity r) ch = true ->
  noLF head = true -> len ("diff --git" ++ head) < capacity r ->
  pending r = unlines (changeBody ch) ++ ("diff --git" ++ head) ++ String LF rest ->
  len (pending r) + 1 < fuel ->
  currFileLoop fuel maxBytes st emptyFile true r
  = Ret (BreakCurrFileLoop
           (storeCommit st (setFiles c (Files c ++ [changeRecord ch])))
           (withPending r rest)).
Proof.
  intros Hc Hm Hfit Hhead Hlen E Hf.
  destruct (changeFits_inv _ _ Hfit) as (_ & _ & Hmids & Hold & Hnew & Hh).
  destruct (currFileLoop_change_header fuel maxBytes st r ch _ Hmids Hold Hnew E Hf)
    as (f & Hf1 & _ & ->).
  erewrite currFileLoop_plus_b; [|exact Hnew|reflexivity].
  rewrite withPending_withPending.
  destruct (parseHunks_to_diff f (setFilename (setOldFilename emptyFile (chOld ch)) (chNew ch))
              maxBytes (withPending r (unlines (chHunks ch)
                                       ++ ("diff --git" ++ head) ++ String LF rest))
              (chHunks ch) head rest Hm Hh Hhead Hlen eq_refl Hf1)
    as (lb & Hlb & ->).
  cbn [bind hErr hFile hLineBytes hInput hIsFragment]. rewrite changeRecord_eq.
  rewrite (appendFile_ok _ _ _ Hc). cbn [bind]. rewrite Hlb, discardFragments_false.
  reflexivity.
Qed.

Lemma update_update {A : Type} (l : list A) (n : nat) (x y : A) :
  update n y (update n x l) = update n y l.
Proof.
  revert n. induction l as [|a l IH]; intros n; [destruct n; reflexivity|].
  destruct n as [|n]; simpl; [reflexivity|]. rewrite IH. reflexivity.
Qed.

Lemma storeCommit_storeCommit (st : state) (c c' : Commit) :
  storeCommit (storeCommit st c) c' = storeCommit st c'.
Proof.
  unfold storeCommit. destruct (currentCommit st) as [p|] eqn:E; simpl.
  - rewrite update_update. reflexivity.
  - rewrite E. reflexivity.
Qed.

Lemma capped_false (maxFiles : Z) (st : state) (c : Commit) (k : nat) :
  loadCommit st = Ret c ->
  (maxFiles < 0)%Z \/ (Z.of_nat (List.length (Files c) + S k) <= maxFiles)%Z ->
  (if (maxFiles >? -1)%Z then
     n <- lenFiles st ;; Ret (Z.of_nat n >=? maxFiles)%Z
   else Ret false) = Ret false.
Proof.
  intros Hc Hcap. unfold lenFiles. rewrite Hc. cbn [bind].
  destruct (Z.gtb_spec maxFiles (-1)) as [Hgt|Hle]; [|reflexivity].
  f_equal. rewrite Z.geb_leb. apply Z.leb_gt. lia.
Qed.

(** [loopDiff] over the changes of a commit. *)
Lemma loopDiff_changes (maxFiles maxBytes : Z) (chs : list change) :
  forall (ch : change) (fuel : nat) (st : state) (c : Commit) (r : Reader) (rest : string),
  loadCommit st = Ret c ->
  maxBytes <> 0%Z -> 0 < capacity r ->
  forallb (changeFits (capacity r)) (ch :: chs) = true ->
  (maxFiles < 0)%Z
  \/ (Z.of_nat (List.length (Files c) + List.length (ch :: chs)) <= maxFiles)%Z ->
  pending r = unlines (changeBody ch)
              ++ unlines (concat (map changeLines chs)) ++ String LF rest ->
  len (pending r) + 2 < fuel ->
  loopDiff fuel maxFiles maxBytes st r
  = Ret (DiffBreak
           (setHeaderParsed
              (storeCommit st (setFiles c (Files c ++ map changeRecord (ch :: chs))))
              false)
           (withPending r rest)).
Proof.
  induction chs as [|ch' chs IH]; intros ch fuel st c r rest Hc Hm Hcap Hfit Hmax E Hf.
  - destruct fuel as [|fuel]; [lia|]. cbn [loopDiff].
    rewrite (capped_false maxFiles st c 0 Hc Hmax). cbn [bind].
    simpl in Hfit. rewrite andb_true_r in Hfit. simpl in E.
    rewrite (currFileLoop_last_change fuel maxBytes st c r ch rest Hc Hm Hcap Hfit E);
      [reflexivity|lia].
  - destruct fuel as [|fuel]; [lia|]. cbn [loopDiff].
    rewrite (capped_false maxFiles st c (S (List.length chs)) Hc Hmax). cbn [bind].
    cbn [forallb] in Hfit. apply andb_true_iff in Hfit. destruct Hfit as [Hfit Hfits].
    pose proof Hfits as Hfits'. cbn [forallb] in Hfits'.
    apply andb_true_iff in Hfits'. destruct Hfits' as [Hfit' _].
    destruct (changeFits_inv _ _ Hfit') as (Hhead & Hlen & _).
    assert (E' : pending r
                 = unlines (changeBody ch)
                   ++ ("diff --git" ++ chHead ch')
                   ++ String LF (unlines (changeBody ch')
                                 ++ unlines (concat (map changeLines chs))
                                 ++ String LF rest)).
    { rewrite E. f_equal. cbn [map concat]. unfold changeLines at 1.
      cbn [List.app]. rewrite unlines_cons_app, unlines_app.
      rewrite !app_assoc_string. reflexivity. }
    rewrite (currFileLoop_next_change fuel maxBytes st c r ch _ _ Hc Hm Hfit Hhead Hlen E');
      [|lia].
    cbn [bind].
    set (c1 := setFiles c (Files c ++ [changeRecord ch])).
    assert (Hc1 : loadCommit (storeCommit st c1) = Ret c1)
      by exact (loadCommit_storeCommit _ _ _ Hc).
    rewrite (IH ch' fuel (storeCommit st c1) c1 (withPending r _) rest Hc1 Hm Hcap Hfits).
    + rewrite storeCommit_storeCommit. unfold c1. destruct c; simpl.
      rewrite <- app_assoc. reflexivity.
    + unfold c1. destruct c; simpl in *. rewrite length_app. simpl.
      destruct Hmax as [Hmax|Hmax]; [left; exact Hmax|right; lia].
    + reflexivity.
    + rewrite E' in Hf. simpl pending.
      repeat (rewrite ?len_app in Hf; simpl len in Hf).
      repeat (rewrite ?len_app; simpl len). unfold len in *. lia.
Qed.

Lemma lastByte_app (l : string) (c : ascii) : lastByte (l ++ String c EmptyString) = Some c.
Proof.
  induction l as [|a l IH]; [reflexivity|].
  destruct l as [|b l]; [reflexivity|].
  change (lastByte (String b l ++ String c EmptyString) = Some c). exact IH.
Qed.

Lemma chomp_line (l : string) : chomp (l ++ String LF EmptyString) = l.
Proof. unfold chomp. rewrite lastByte_app, dropLast_app. reflexivity. Qed.

(** The store while the commit [c] is being assembled. *)
Lemma loadCommit_last (cs : list (option nat)) (h : list Commit) (c : Commit) (b : bool) :
  loadCommit (mkState cs (h ++ [c]) (Some (List.length h)) b) = Ret c.
Proof.
  unfold loadCommit. simpl. rewrite nth_error_app2 by lia.
  rewrite Nat.sub_diag. reflexivity.
Qed.

Lemma update_last {A : Type} (h : list A) (x y : A) :
  update (List.length h) y (h ++ [x]) = (h ++ [y])%list.
Proof. induction h as [|a h IH]; simpl; [reflexivity|]. rewrite IH. reflexivity. Qed.

Lemma storeCommit_last (cs : list (option nat)) (h : list Commit) (c c' : Commit) (b : bool) :
  storeCommit (mkState cs (h ++ [c]) (Some (List.length h)) b) c'
  = mkState cs (h ++ [c']) (Some (List.length h)) b.
Proof. unfold storeCommit. simpl. rewrite update_last. reflexivity. Qed.

Lemma assignField_last (cs : list (option nat)) (h : list Commit) (c : Commit) (b : bool)
  (set : Commit -> string -> Commit) (k : ascii) (v : string) :
  assignField (mkState cs (h ++ [c]) (Some (List.length h)) b) set
              (String k (String " " v))
  = Ret (mkState cs (h ++ [set c v]) (Some (List.length h)) b).
Proof.
  unfold assignField.
  change (String k (String " " v)) with (String k (String " " EmptyString) ++ v).
  change 2 with (len (String k (String " " EmptyString))).
  rewrite sliceFrom_app. cbn [bind]. rewrite loadCommit_last. cbn [bind].
  rewrite storeCommit_last. reflexivity.
Qed.

(** The four metadata lines of a commit. *)
Lemma loopCommits_metadata (f : nat) (maxFiles maxBytes : Z) (st : state) (r : Reader)
  (hash name email time rest : string) :
  headerParsed st = false ->
  noLF hash = true -> noLF name = true -> noLF email = true -> noLF time = true ->
  pending r = unlines (metadata hash name email time) ++ rest ->
  loopCommits (4 + f) maxFiles maxBytes st r
  = loopCommits f maxFiles maxBytes
      (mkState (commits st)
               (heap st ++ [mkCommit hash name email time EmptyString []])
               (Some (List.length (heap st))) true)
      (withPending r rest).
Proof.
  intros Hp Hh Hn He Ht E.
  unfold metadata in E. rewrite !unlines_cons_app in E. cbn [unlines append] in E.
  change (4 + f) with (S (S (S (S f)))).
  (* c *)
  cbn [loopCommits].
  rewrite (ReadString_line r ("c " ++ hash) _ Hh E), chomp_line. cbn [append].
  change (Ascii.eqb "c" "c") with true. cbv iota. rewrite Hp.
  change (String "c" (String " " hash)) with ("c " ++ hash).
  change 2 with (len "c "). rewrite sliceFrom_app. cbn [bind]. unfold newCommit.
  (* a *)
  erewrite (ReadString_line _ ("a " ++ name)); [|exact Hn|reflexivity].
  rewrite chomp_line. cbn [append].
  change (Ascii.eqb "a" "c") with false. change (Ascii.eqb "a" "a") with true. cbv iota.
  unfold setHeaderParsed. cbn [commits heap currentCommit headerParsed].
  rewrite assignField_last. cbn [bind].
  (* m *)
  erewrite (ReadString_line _ ("m " ++ email)); [|exact He|reflexivity].
  rewrite chomp_line. cbn [append].
  change (Ascii.eqb "m" "c") with false. change (Ascii.eqb "m" "a") with false.
  change (Ascii.eqb "m" "m") with true. cbv iota.
  rewrite assignField_last. cbn [bind].
  (* t *)
  erewrite (ReadString_line _ ("t " ++ time)); [|exact Ht|reflexivity].
  rewrite chomp_line. cbn [append].
  change (Ascii.eqb "t" "c") with false. change (Ascii.eqb "t" "a") with false.
  change (Ascii.eqb "t" "m") with false. change (Ascii.eqb "t" "t") with true. cbv iota.
  rewrite assignField_last. cbn [bind].
  rewrite !withPending_withPending. reflexivity.
Qed.

Lemma entryFits_inv (n : nat) (maxFiles : Z) (en : entry) :
  entryFits n maxFiles en = true ->
  noLF (enHash en) = true /\ noLF (enName en) = true
  /\ noLF (enEmail en) = true /\ noLF (enTime en) = true
  /\ (exists ch chs, enChanges en = ch :: chs)
  /\ ((maxFiles < 0)%Z \/ (Z.of_nat (List.length (enChanges en)) <= maxFiles)%Z)
  /\ forallb (changeFits n) (enChanges en) = true.
Proof.
  unfold entryFits. intros H.
  repeat (apply andb_true_iff in H; destruct H as [H ?]).
  repeat split; try assumption.
  - destruct (enChanges en) as [|ch chs]; [discriminate|]. eauto.
  - match goal with
    | Hm : (_ || _)%bool = true |- _ =>
        apply orb_true_iff in Hm; destruct Hm as [Hm|Hm];
        [left; apply Z.ltb_lt; exact Hm|right; apply Z.leb_le; exact Hm]
    end.
Qed.

(** The stream of an entry followed by [rest]. *)
Lemma entry_stream (en : entry) (ch : change) (chs : list change) (rest : string) :
  enChanges en = ch :: chs ->
  unlines (entryLines en) ++ rest
  = unlines (metadata (enHash en) (enName en) (enEmail en) (enTime en))
    ++ ("diff --git" ++ chHead ch)
    ++ String LF (unlines (changeBody ch)
                  ++ unlines (concat (map changeLines chs)) ++ String LF rest).
Proof.
  intros E. unfold entryLines. rewrite E. cbn [map concat].
  rewrite !unlines_app, !app_assoc_string. f_equal.
  unfold changeLines at 1. cbn [List.app unlines].
  rewrite !app_assoc_string. cbn [append]. reflexivity.
Qed.

(** One entry of a well-formed log: five iterations of [loopCommits]. *)
Lemma loopCommits_entry (f : nat) (maxFiles maxBytes : Z) (st : state) (r : Reader)
  (en : entry) (rest : string) :
  headerParsed st = false ->
  maxBytes <> 0%Z -> 0 < capacity r ->
  entryFits (capacity r) maxFiles en = true ->
  pending r = unlines (entryLines en) ++ rest ->
  len (pending r) + 3 <= 5 + f ->
  loopCommits (5 + f) maxFiles maxBytes st r
  = loopCommits f maxFiles maxBytes (afterEntry st en) (withPending r rest).
Proof.
  intros Hp Hm Hcap Hfit E Hf.
  destruct (entryFits_inv _ _ _ Hfit) as (Hh & Hn & He & Ht & (ch & chs & Ech) & Hmax & Hfits).
  rewrite (entry_stream en ch chs rest Ech) in E.
  change (5 + f) with (4 + S f).
  rewrite (loopCommits_metadata (S f) maxFiles maxBytes st r _ _ _ _ _ Hp Hh Hn He Ht E).
  rewrite Ech in Hfits, Hmax.
  pose proof Hfits as Hfits'. cbn [forallb] in Hfits'.
  apply andb_true_iff in Hfits'. destruct Hfits' as [Hfit1 _].
  destruct (changeFits_inv _ _ Hfit1) as (Hhead & _).
  cbn [loopCommits].
  erewrite (ReadString_line _ ("diff --git" ++ chHead ch)); [|exact Hhead|reflexivity].
  rewrite chomp_line. cbn [append].
  change (Ascii.eqb "d" "c") with false. change (Ascii.eqb "d" "a") with false.
  change (Ascii.eqb "d" "m") with false. change (Ascii.eqb "d" "t") with false.
  cbv iota. rewrite withPending_withPending.
  erewrite (loopDiff_changes maxFiles maxBytes chs ch f);
    [|apply loadCommit_last|exact Hm|exact Hcap|exact Hfits|exact Hmax|reflexivity|].
  - cbn [bind]. rewrite storeCommit_last, withPending_withPending.
    unfold afterEntry, appendCommit, setHeaderParsed, entryCommit. rewrite Ech.
    reflexivity.
  - rewrite E in Hf. rewrite !len_app in Hf.
    pose proof (unlines_len (metadata (enHash en) (enName en) (enEmail en) (enTime en)))
      as Hl.
    cbn [metadata List.length] in Hl.
    change (len (String LF ?x)) with (S (len x)) in Hf.
    cbn [pending withPending]. lia.
Qed.

(** A whole well-formed log, up to the end of the stream. *)
Lemma loopCommits_entries (maxFiles maxBytes : Z) (es : list entry) :
  forall (fuel : nat) (st : state) (r : Reader),
  headerParsed st = false ->
  maxBytes <> 0%Z -> 0 < capacity r ->
  forallb (entryFits (capacity r) maxFiles) es = true ->
  pending r = unlines (concat (map entryLines es)) ->
  len (pending r) + 3 <= fuel ->
  loopCommits fuel maxFiles maxBytes st r
  = Ret (fold_left afterEntry es st, if isEOF (fin r) then None else Some (fin r)).
Proof.
  induction es as [|en es IH]; intros fuel st r Hp Hm Hcap Hfit E Hf.
  - destruct fuel as [|fuel]; [lia|]. cbn [loopCommits]. unfold ReadString.
    simpl in E. rewrite E. simpl. destruct (isEOF (fin r)); reflexivity.
  - cbn [forallb] in Hfit. apply andb_true_iff in Hfit. destruct Hfit as [Hfit Hfits].
    cbn [map concat] in E. rewrite unlines_app in E.
    assert (Hlen : 5 <= len (unlines (entryLines en))).
    { pose proof (unlines_len (entryLines en)) as Hl.
      assert (Hn : 5 <= List.length (entryLines en)).
      { unfold entryLines. rewrite !length_app. cbn [metadata List.length]. lia. }
      lia. }
    pose proof Hf as Hf'. rewrite E, len_app in Hf'.
    destruct fuel as [|[|[|[|[|f]]]]]; try lia.
    change (S (S (S (S (S f))))) with (5 + f).
    rewrite (loopCommits_entry f maxFiles maxBytes st r en _ Hp Hm Hcap Hfit E Hf).
    cbn [fold_left].
    apply (IH f (afterEntry st en) (withPending r _)); try assumption;
      try reflexivity.
    simpl pending. lia.
Qed.

Lemma nth_error_seq {A : Type} (pre l : list A) :
  map (nth_error (pre ++ l)) (seq (List.length pre) (List.length l)) = map Some l.
Proof.
  revert pre. induction l as [|a l IH]; intros pre; [reflexivity|].
  cbn [List.length seq map]. f_equal.
  - rewrite nth_error_app2 by lia. rewrite Nat.sub_diag. reflexivity.
  - specialize (IH (pre ++ [a])%list). rewrite <- app_assoc in IH. simpl in IH.
    rewrite length_app in IH. simpl in IH. rewrite Nat.add_1_r in IH. exact IH.
Qed.

Lemma afterEntry_fold (es : list entry) :
  forall st : state,
  commits (fold_left afterEntry es st)
  = (commits st ++ map Some (seq (List.length (heap st)) (List.length es)))%list
  /\ heap (fold_left afterEntry es st) = (heap st ++ map entryCommit es)%list.
Proof.
  induction es as [|en es IH]; intros st.
  - simpl. rewrite !app_nil_r. auto.
  - cbn [fold_left]. destruct (IH (afterEntry st en)) as [-> ->].
    unfold afterEntry. cbn [commits heap]. rewrite length_app. cbn [List.length map seq].
    rewrite Nat.add_1_r, <- !app_assoc. auto.
Qed.

Lemma deref_entries (es : list entry) :
  deref (fold_left afterEntry es initialState)
  = map (fun en => Some (entryCommit en)) es.
Proof.
  unfold deref. destruct (afterEntry_fold es initialState) as [-> ->].
  cbn [initialState commits heap List.app List.length].
  rewrite map_map.
  pose proof (nth_error_seq [] (map entryCommit es)) as H.
  cbn [List.app List.length] in H. rewrite length_map in H.
  transitivity (map Some (map entryCommit es)); [exact H|apply map_map].
Qed.

(** X10. A well-formed log is parsed in full. When the byte cap is not 0, every
    entry has at least one change and no more than [maxFiles] of them (when
    that is a cap), and every line that has to be read through the buffer is
    shorter than the buffer, [parseLog] returns one commit per entry, in
    order, with its four metadata fields and one file record per change:
    old and new path from the [---] and [+++] lines, the hunk lines verbatim
    as content, and no mark. The error is that of the stream, [nil] when the
    stream ends with [io.EOF]. *)
Theorem parseLog_well_formed (es : list entry) (end_ : error) (maxFiles maxBytes : Z) :
  maxBytes <> 0%Z ->
  forallb (entryFits (Z.to_nat (Z.max 16 maxBytes)) maxFiles) es = true ->
  parseLog (unlines (concat (map entryLines es))) end_ maxFiles maxBytes
  = Ret (map (fun en => Some (entryCommit en)) es,
         if isEOF end_ then None else Some end_).
Proof.
  intros Hm Hfit. unfold parseLog, parseLogState.
  set (r := NewReaderSize _ end_ maxBytes).
  assert (Hcap : capacity r = Z.to_nat (Z.max 16 maxBytes))
    by apply NewReaderSize_capacity_max.
  assert (Hpos : 0 < capacity r) by (rewrite Hcap; lia).
  rewrite <- Hcap in Hfit.
  pose proof (loopCommits_entries maxFiles maxBytes es _ initialState r
                eq_refl Hm Hpos Hfit eq_refl (Nat.le_refl _)) as H.
  cbn [pending r NewReaderSize fin] in H. subst r. rewrite H.
  cbn [bind fst snd]. rewrite deref_entries. reflexivity.
Qed.

Lemma parseLog_well_formed_witness :
  parseLog
    (unlines
       (concat
          (map entryLines
             [mkEntry "h2" "n" "e" "2"
                [mkChange " a/x b/x" ["index 1..2 100644"] "x" "x" ["@@ -1 +1 @@"; "-a"; "+b"];
                 mkChange " a/y b/z" [] "y" "z" ["@@ -1 +1 @@"; "-c"; "+d"]];
              mkEntry "h1" "n" "e" "1"
                [mkChange " a/x b/x" [] "x" "x" ["@@ -0,0 +1 @@"; "+a"]]])))
    EOF 2 20
  = Ret ([Some (mkCommit "h2" "n" "e" "2" ""
                  [mkFile "x" 0 "" "x" (unlines ["@@ -1 +1 @@"; "-a"; "+b"]) false false false;
                   mkFile "z" 0 "" "y" (unlines ["@@ -1 +1 @@"; "-c"; "+d"]) false false false]);
          Some (mkCommit "h1" "n" "e" "1" ""
                  [mkFile "x" 0 "" "x" (unlines ["@@ -0,0 +1 @@"; "+a"]) false false false])],
         None).
Proof.
  apply (parseLog_well_formed
           [mkEntry "h2" "n" "e" "2"
              [mkChange " a/x b/x" ["index 1..2 100644"] "x" "x" ["@@ -1 +1 @@"; "-a"; "+b"];
               mkChange " a/y b/z" [] "y" "z" ["@@ -1 +1 @@"; "-c"; "+d"]];
            mkEntry "h1" "n" "e" "1"
              [mkChange " a/x b/x" [] "x" "x" ["@@ -0,0 +1 @@"; "+a"]]]
           EOF 2 20); [discriminate|vm_compute; reflexivity].
Defined.

(** ** Created files *)

Ltac string_norm := repeat (rewrite ?app_assoc_string; cbn [append]).

Lemma currFileLoop_created (fuel : nat) (maxBytes : Z) (st : state) (cf : File)
  (pr : bool) (r : Reader) (m rest : string) :
  noLF m = true ->
  pending r = "new file" ++ m ++ String LF rest ->
  currFileLoop (S fuel) maxBytes st cf pr r
  = currFileLoop fuel maxBytes st (setIsCreated cf true) pr (withPending r rest).
Proof.
  intros Hm E. cbn [currFileLoop].
  rewrite (ReadString_line r ("new file" ++ m) rest); [|exact Hm|exact E].
  simpl. rewrite HasPrefix_empty. reflexivity.
Qed.

(** The [+++ b/<new>] line: the name goes into the record, the hunks follow,
    and the record is appended unless a read error ends the parse. *)
Lemma currFileLoop_plus_named (fuel : nat) (maxBytes : Z) (st : state) (c : Commit)
  (cf : File) (r : Reader) (new rest : string) :
  loadCommit st = Ret c ->
  noLF new = true ->
  pending r = "+++ b/" ++ new ++ String LF rest ->
  2 <= capacity r -> len rest + 1 < fuel ->
  returns (emits st c (fun f => sameHeader f (setFilename cf new)))
          (currFileLoop (S fuel) maxBytes st cf true r).
Proof.
  intros Hc Hm E Hcap Hf.
  rewrite (currFileLoop_plus_b fuel maxBytes st cf r new rest Hm E).
  set (cf' := setFilename cf new). unfold parseHunks.
  pose proof (parseHunksLoop_returns fuel cf' maxBytes false (withPending r rest) Hcap) as Hh.
  apply returns_inv in Hh; [|simpl; exact Hf]. destruct Hh as (h & Eh & Hw).
  rewrite Eh. cbn [bind].
  pose proof (parseHunksLoop_sameHeader _ _ _ _ _ _ Eh) as Hsame.
  assert (Hemit : forall b input x,
             x = BreakLoopDiff (setHeaderParsed (storeCommit st (setFiles c (Files c ++ [hFile h]))) b) input
             \/ x = BreakCurrFileLoop (storeCommit st (setFiles c (Files c ++ [hFile h]))) input
             \/ (exists e, x = ReturnErr (storeCommit st (setFiles c (Files c ++ [hFile h]))) e) ->
             emits st c (fun f => sameHeader f cf') x).
  { intros b input x Hx. right. exists (hFile h). split; [|exact Hsame].
    destruct Hx as [->|[->|[e ->]]]; simpl;
      rewrite ?loadCommit_setHeaderParsed; apply (loadCommit_storeCommit _ _ _ Hc). }
  rewrite (appendFile_ok _ _ (hFile h) Hc). cbn [bind].
  destruct (hErr h) as [e|].
  - destruct (isEOF e); simpl.
    + eapply Hemit. left. reflexivity.
    + left. exists e. reflexivity.
  - destruct (String.eqb (hLineBytes h) EmptyString); simpl.
    + eapply Hemit. left. reflexivity.
    + pose proof (discardFragments_returns fuel (hIsFragment h) (hInput h)) as Hd.
      apply returns_inv in Hd;
        [|destruct Hw as (_ & -> & _); exact Hcap|destruct Hw as (_ & _ & Hw); simpl in Hw; lia].
      destruct Hd as ([e2 r2] & Ed & _). rewrite Ed. cbn [bind].
      destruct e2 as [e2|]; simpl.
      * apply (Hemit false r2). right. right. eauto.
      * apply (Hemit false r2). right. left. reflexivity.
Qed.

(** X11. In the header of a file that is not marked deleted, after a [new file]
    line, any mode and index lines, [--- /dev/null] and [+++ b/<path>], with
    no [rename to] or [copy to] line read before for that file, the record
    appended to the commit (when no read error ends the parse before) has
    [Filename = path], the [b/] stripped, and [IsCreated = true]; the old name
    is left as it was, since [/dev/null] does not start with [a/]. *)
Theorem created_file_record (fuel : nat) (maxBytes : Z) (st : state) (c : Commit)
  (cf : File) (r : Reader) (m : string) (mids : list string) (path rest : string) :
  loadCommit st = Ret c ->
  IsDeleted cf = false ->
  noLF m = true -> forallb passedOver mids = true -> noLF path = true ->
  pending r
  = unlines (("new file" ++ m) :: mids ++ ["--- /dev/null"; "+++ b/" ++ path]) ++ rest ->
  2 <= capacity r -> len (pending r) + 1 < fuel ->
  returns (emits st c (fun f => Filename f = path /\ IsCreated f = true
                                /\ OldFilename f = OldFilename cf
                                /\ IsDeleted f = false))
          (currFileLoop fuel maxBytes st cf true r).
Proof.
  intros Hc Hdel Hm Hmids Hpath E Hcap Hf.
  assert (E' : pending r
               = "new file" ++ m
                 ++ String LF (unlines mids
                               ++ ("--- " ++ "/dev/null")
                               ++ String LF ("+++ b/" ++ path ++ String LF rest))).
  { rewrite E, unlines_cons_app, app_assoc_string. f_equal. f_equal. f_equal.
    rewrite unlines_app, (app_assoc_string (unlines mids)). f_equal.
    rewrite !unlines_cons_app. string_norm. reflexivity. }
  clear E. rename E' into E.
  assert (Hfuel : exists f, fuel = S (List.length mids + S (S f)) /\ len rest + 1 < f).
  { rewrite E in Hf. rewrite !len_app in Hf. simpl len in Hf. rewrite !len_app in Hf.
    simpl len in Hf. rewrite !len_app in Hf. simpl len in Hf.
    pose proof (unlines_len mids) as Hl. unfold len in *.
    exists (fuel - (3 + List.length mids)). lia. }
  destruct Hfuel as (f & -> & Hf').
  rewrite (currFileLoop_created _ _ _ _ _ _ _ _ Hm E).
  erewrite (currFileLoop_passedOver_all mids); [|exact Hmids|reflexivity].
  erewrite (currFileLoop_minus _ _ _ _ _ _ "/dev/null"); [|reflexivity|reflexivity].
  change (IsDeleted (setIsCreated cf true)) with (IsDeleted cf). rewrite Hdel.
  cbn [andb HasPrefix prefix bind].
  change (HasPrefix "/dev/null" "a/") with false. cbv iota. cbn [bind].
  eapply returns_weaken.
  - apply (currFileLoop_plus_named f maxBytes st c _ _ path rest Hc Hpath);
      [reflexivity|exact Hcap|exact Hf'].
  - intros x Hx. eapply emits_weaken; [exact Hx|].
    intros g (H1 & H2 & H3 & H4). rewrite H1, H2, H3, H4. simpl. auto.
Qed.

(** A commit with a created file, as git prints it. *)
Lemma created_file_record_witness :
  returns (emits (newCommit initialState "h1")
                 (mkCommit "h1" "" "" "" "" [])
                 (fun f => Filename f = "path.txt" /\ IsCreated f = true
                           /\ OldFilename f = OldFilename emptyFile
                           /\ IsDeleted f = false))
          (currFileLoop 200 100 (newCommit initialState "h1") emptyFile true
             (NewReaderSize
                (unlines ["new file mode 100644"; "index 0000000..e69de29";
                          "--- /dev/null"; "+++ b/path.txt"; "@@ -0,0 +1 @@"; "+a"])
                EOF 100)).
Proof.
  apply (created_file_record 200 100 (newCommit initialState "h1")
           (mkCommit "h1" "" "" "" "" []) emptyFile _
           " mode 100644" ["index 0000000..e69de29"] "path.txt"
           (unlines ["@@ -0,0 +1 @@"; "+a"]));
    [reflexivity|reflexivity|reflexivity|reflexivity|reflexivity|reflexivity
    |vm_compute; lia|vm_compute; lia].
Defined.

(** ** ParseDiffHunkString *)

Lemma prefix_app (p t : string) : prefix p (p ++ t) = true.
Proof.
  induction p as [|c p IH]; simpl; [destruct t; reflexivity|].
  destruct (ascii_dec c c) as [_|N]; [exact IH|contradiction].
Qed.

Lemma splitFrom_skip (sep x rest : string) :
  splitFrom sep (len x) (x ++ rest) = splitFrom sep 0 rest.
Proof.
  induction x as [|c x IH]; [reflexivity|]. exact IH.
Qed.

Lemma without_app (c : ascii) (x y : string) :
  without c (x ++ y) = without c x && without c y.
Proof.
  induction x as [|d x IH]; [reflexivity|]. simpl. rewrite IH, andb_assoc. reflexivity.
Qed.

(** A piece with no byte equal to the first byte of the separator, followed
    by the separator. *)
Lemma splitFrom_piece (a : ascii) (sep' p rest : string) :
  without a p = true ->
  splitFrom (String a sep') 0 (p ++ String a sep' ++ rest)
  = p :: splitFrom (String a sep') 0 rest.
Proof.
  induction p as [|c p IH]; intros H.
  - cbn [append splitFrom]. unfold HasPrefix. simpl prefix.
    destruct (ascii_dec a a) as [_|N]; [|contradiction].
    rewrite prefix_app. cbn [len String.length Nat.sub].
    rewrite Nat.sub_0_r. fold (len sep'). rewrite splitFrom_skip. reflexivity.
  - simpl in H. apply andb_true_iff in H. destruct H as [Hc Hp].
    cbn [append splitFrom]. unfold HasPrefix. simpl prefix.
    destruct (ascii_dec a c) as [->|_].
    + rewrite Ascii.eqb_refl in Hc. discriminate.
    + cbn [append] in IH. rewrite (IH Hp). reflexivity.
Qed.

(** The last piece. *)
Lemma splitFrom_last (a : ascii) (sep' p : string) :
  without a p = true -> splitFrom (String a sep') 0 p = [p].
Proof.
  induction p as [|c p IH]; intros H; [reflexivity|].
  simpl in H. apply andb_true_iff in H. destruct H as [Hc Hp].
  cbn [splitFrom]. unfold HasPrefix. simpl prefix.
  destruct (ascii_dec a c) as [->|_].
  - rewrite Ascii.eqb_refl in Hc. discriminate.
  - rewrite (IH Hp). reflexivity.
Qed.

(** A string in which the separator does not occur is a single piece. *)
Lemma splitFrom_absent (sep s : string) :
  sep <> EmptyString ->
  (forall pre post, s <> pre ++ sep ++ post) ->
  splitFrom sep 0 s = [s].
Proof.
  intros Hsep. induction s as [|c s IH]; intros H; [reflexivity|].
  cbn [splitFrom]. destruct (HasPrefix (String c s) sep) eqn:E.
  - unfold HasPrefix in E. destruct (prefix_split _ _ E) as [t Ht].
    exfalso. apply (H EmptyString t). exact Ht.
  - rewrite IH; [reflexivity|].
    intros pre post Hs. apply (H (String c pre) post). rewrite Hs. reflexivity.
Qed.

(** *** Decimal numerals *)

Lemma digitOf_digitChar (d : Z) : (0 <= d < 10)%Z -> digitOf (digitChar d) = Some d.
Proof.
  intros H.
  assert (Hd : (d = 0 \/ d = 1 \/ d = 2 \/ d = 3 \/ d = 4 \/ d = 5 \/ d = 6 \/ d = 7
                \/ d = 8 \/ d = 9)%Z) by lia.
  repeat (destruct Hd as [->|Hd]; [reflexivity|]). subst d. reflexivity.
Qed.

Lemma digitOf_bounds (c : ascii) (d : Z) : digitOf c = Some d -> (0 <= d < 10)%Z.
Proof.
  unfold digitOf.
  destruct (Z.leb_spec 48 (Z.of_nat (nat_of_ascii c)));
    destruct (Z.leb_spec (Z.of_nat (nat_of_ascii c)) 57); simpl; intros [= <-]; lia.
Qed.

Lemma allDigits_app (x y : string) : allDigits (x ++ y) = allDigits x && allDigits y.
Proof.
  induction x as [|c x IH]; [reflexivity|]. simpl. destruct (digitOf c); [exact IH|reflexivity].
Qed.

Lemma allDigits_without (c : ascii) (s : string) :
  digitOf c = None -> allDigits s = true -> without c s = true.
Proof.
  intros Hc. induction s as [|d s IH]; [reflexivity|]. simpl.
  destruct (digitOf d) eqn:Ed; [|discriminate]. intros H. rewrite (IH H), andb_true_r.
  destruct (Ascii.eqb d c) eqn:E; [|reflexivity].
  apply Ascii.eqb_eq in E. subst d. congruence.
Qed.

Lemma atoiLoop_app (x y : string) (a : Z) :
  atoiLoop (x ++ y) a
  = match atoiLoop x a with
    | Some b => atoiLoop y b
    | None => None
    end.
Proof.
  revert a. induction x as [|c x IH]; intros a; [reflexivity|].
  simpl. destruct (digitOf c); [apply IH|reflexivity].
Qed.

Lemma atoiLoop_allDigits (s : string) (a v : Z) :
  atoiLoop s a = Some v -> allDigits s = true.
Proof.
  revert a. induction s as [|c s IH]; intros a; [reflexivity|].
  simpl. destruct (digitOf c); [apply IH|discriminate].
Qed.

Lemma atoiLoop_grows (s : string) (a v : Z) :
  (0 <= a)%Z -> atoiLoop s a = Some v -> (a <= v)%Z.
Proof.
  revert a. induction s as [|c s IH]; intros a Ha; simpl.
  - intros [= <-]. lia.
  - destruct (digitOf c) as [d|] eqn:Ed; [|discriminate]. intros H.
    pose proof (digitOf_bounds _ _ Ed). apply IH in H; lia.
Qed.

(** The loop of [ParseUint] agrees with that of the fast path as long as the
    number fits 64 bits. *)
Lemma parseUintLoop_atoiLoop (s : string) (a v : Z) :
  (0 <= a)%Z -> atoiLoop s a = Some v -> (v <= maxUint64)%Z ->
  parseUintLoop s a = (v, None).
Proof.
  revert a. induction s as [|c s IH]; intros a Ha; simpl.
  - intros [= <-] _. reflexivity.
  - destruct (digitOf c) as [d|] eqn:Ed; [|discriminate]. intros H Hv.
    pose proof (digitOf_bounds _ _ Ed) as Hd.
    assert (Hg : (a * 10 + d <= v)%Z) by (apply (atoiLoop_grows s); [lia|exact H]).
    assert (Hmax : maxUint64 = 18446744073709551615%Z) by reflexivity.
    destruct (Z.geb_spec a 1844674407370955162) as [Hge|_]; [lia|].
    destruct (Z.gtb_spec (a * 10 + d) maxUint64) as [Hgt|_]; [lia|].
    apply IH; [lia|exact H|exact Hv].
Qed.

(** [Atoi] on a numeral: digits only, at least one, with or without a plus
    sign before them, and a value that fits an [int]. *)
Lemma Atoi_digits (s : string) (v : Z) :
  s <> EmptyString -> atoiLoop s 0 = Some v -> (v < 2 ^ 63)%Z ->
  Atoi s = (v, None) /\ Atoi (String "+" s) = (v, None).
Proof.
  intros Hs Hv Hlt.
  pose proof (atoiLoop_grows _ _ _ (Z.le_refl 0) Hv) as H0.
  assert (Hu : parseUintLoop s 0 = (v, None)).
  { apply parseUintLoop_atoiLoop; [lia|exact Hv|unfold maxUint64; lia]. }
  assert (Hc : (2 ^ 63)%Z = 9223372036854775808%Z) by reflexivity.
  destruct s as [|c s]; [contradiction|].
  assert (Hd : exists d, digitOf c = Some d).
  { simpl in Hv. destruct (digitOf c) as [d|]; [eauto|discriminate]. }
  destruct Hd as [d Hd].
  assert (Hm : Ascii.eqb c "-" = false).
  { destruct (Ascii.eqb c "-") eqn:E; [|reflexivity].
    apply Ascii.eqb_eq in E. subst c. discriminate Hd. }
  assert (Hp : Ascii.eqb c "+" = false).
  { destruct (Ascii.eqb c "+") eqn:E; [|reflexivity].
    apply Ascii.eqb_eq in E. subst c. discriminate. }
  assert (Hge : (v >=? 2 ^ 63)%Z = false) by (rewrite Z.geb_leb; apply Z.leb_gt; lia).
  split.
  - unfold Atoi.
    destruct ((0 <? len (String c s)) && (len (String c s) <? 19))%nat.
    + rewrite Hm, Hp. cbn [orb andb]. rewrite Hv. reflexivity.
    + unfold ParseInt. rewrite Hm, Hp. cbn [orb negb andb].
      unfold ParseUint. rewrite Hu. cbv iota. rewrite Hge. reflexivity.
  - unfold Atoi.
    destruct ((0 <? len (String "+" (String c s))) && (len (String "+" (String c s)) <? 19))%nat.
    + change (Ascii.eqb "+" "-") with false. change (Ascii.eqb "+" "+") with true.
      cbn [orb andb]. change (len (String c s) <? 1)%nat with false.
      cbv iota. rewrite Hv. reflexivity.
    + unfold ParseInt.
      change (Ascii.eqb "+" "-") with false. change (Ascii.eqb "+" "+") with true.
      cbn [orb negb andb]. unfold ParseUint. rewrite Hu. cbv iota. rewrite Hge. reflexivity.
Qed.

Lemma decimalFrom_value (fuel : nat) :
  forall n : Z, (0 <= n < 2 ^ Z.of_nat fuel)%Z -> atoiLoop (decimalFrom fuel n) 0 = Some n.
Proof.
  induction fuel as [|fuel IH]; intros n Hn.
  - simpl in Hn. assert (n = 0)%Z by lia. subst n. reflexivity.
  - cbn [decimalFrom]. destruct (Z.ltb_spec n 10) as [Hlt|Hge].
    + simpl. rewrite digitOf_digitChar by lia. reflexivity.
    + rewrite atoiLoop_app, IH.
      * simpl. rewrite digitOf_digitChar by (apply Z.mod_pos_bound; lia).
        f_equal. pose proof (Z.div_mod n 10 ltac:(lia)). lia.
      * rewrite Nat2Z.inj_succ, Z.pow_succ_r in Hn by lia.
        split; [apply Z.div_pos; lia|].
        apply Z.div_lt_upper_bound; lia.
Qed.

Lemma decimalFrom_nonempty (fuel : nat) (n : Z) : decimalFrom (S fuel) n <> EmptyString.
Proof.
  cbn [decimalFrom]. destruct (n <? 10)%Z; [discriminate|].
  destruct (decimalFrom fuel (n / 10)); discriminate.
Qed.

Lemma decimal_value (n : Z) : (0 <= n)%Z -> atoiLoop (decimal n) 0 = Some n.
Proof.
  intros Hn. unfold decimal. apply decimalFrom_value. split; [exact Hn|].
  destruct (Z.eq_dec n 0) as [->|Hz]; [reflexivity|].
  rewrite Nat2Z.inj_succ, Z2Nat.id by apply Z.log2_nonneg.
  apply Z.log2_spec. lia.
Qed.

(** [Atoi] reads back the numeral of a number that fits an [int]. *)
Lemma Atoi_decimal (n : Z) :
  (0 <= n < 2 ^ 63)%Z ->
  Atoi (decimal n) = (n, None) /\ Atoi (String "+" (decimal n)) = (n, None).
Proof.
  intros [H0 H1]. apply Atoi_digits; [apply decimalFrom_nonempty|apply decimal_value; exact H0|exact H1].
Qed.

Lemma decimal_without (c : ascii) (n : Z) :
  digitOf c = None -> (0 <= n)%Z -> without c (decimal n) = true.
Proof.
  intros Hc Hn. apply allDigits_without; [exact Hc|].
  exact (atoiLoop_allDigits _ _ _ (decimal_value n Hn)).
Qed.

(** *** The pieces of a hunk header *)

Lemma Split_one (c : ascii) (a : string) :
  without c a = true -> Split a (String c EmptyString) = [a].
Proof. intros H. unfold Split. apply splitFrom_last. exact H. Qed.

Lemma Split_two (c : ascii) (a b : string) :
  without c a = true -> without c b = true ->
  Split (a ++ String c b) (String c EmptyString) = [a; b].
Proof.
  intros Ha Hb. unfold Split.
  change (a ++ String c b) with (a ++ String c EmptyString ++ b).
  rewrite splitFrom_piece by exact Ha. rewrite splitFrom_last by exact Hb. reflexivity.
Qed.

Lemma Split_three (c : ascii) (a b d : string) :
  without c a = true -> without c b = true -> without c d = true ->
  Split (a ++ String c (b ++ String c d)) (String c EmptyString) = [a; b; d].
Proof.
  intros Ha Hb Hd. unfold Split.
  change (a ++ String c (b ++ String c d))
    with (a ++ String c EmptyString ++ (b ++ String c EmptyString ++ d)).
  rewrite splitFrom_piece by exact Ha. rewrite splitFrom_piece by exact Hb.
  rewrite splitFrom_last by exact Hd. reflexivity.
Qed.

(** The text between the first two markers. *)
Lemma Split_marker (x rest : string) :
  without "@" x = true ->
  exists tl, Split ("@@" ++ x ++ "@@" ++ rest) "@@" = EmptyString :: x :: tl.
Proof.
  intros H. unfold Split.
  change ("@@" ++ x ++ "@@" ++ rest) with (EmptyString ++ "@@" ++ (x ++ "@@" ++ rest)).
  rewrite splitFrom_piece by reflexivity. rewrite splitFrom_piece by exact H. eauto.
Qed.

Lemma plain_inv (s : string) :
  plain s = true ->
  without "@" s = true /\ without " " s = true /\ without "," s = true.
Proof.
  unfold plain. intros H. repeat (apply andb_true_iff in H; destruct H as [H ?]). auto.
Qed.

Lemma plain_decimal (n : Z) : (0 <= n)%Z -> plain (decimal n) = true.
Proof.
  intros H. unfold plain. rewrite !decimal_without by (reflexivity || exact H). reflexivity.
Qed.

Ltac solve_without :=
  repeat (progress (rewrite ?without_app; cbn [append without]));
  repeat match goal with
         | H : without ?c ?s = true |- context [without ?c ?s] => rewrite H
         end;
  reflexivity.

(** The header with both ranges and both counts, over any four plain
    strings. *)
Lemma ParseDiffHunkString_both (a b c d rest : string) :
  plain a = true -> plain b = true -> plain c = true -> plain d = true ->
  ParseDiffHunkString ("@@ -" ++ a ++ "," ++ b ++ " +" ++ c ++ "," ++ d ++ " @@" ++ rest)
  = Ret (fst (Atoi a), fst (Atoi b), fst (Atoi (String "+" c)), fst (Atoi d)).
Proof.
  intros Ha Hb Hc Hd.
  destruct (plain_inv _ Ha) as (Ha1 & Ha2 & Ha3). destruct (plain_inv _ Hb) as (Hb1 & Hb2 & Hb3).
  destruct (plain_inv _ Hc) as (Hc1 & Hc2 & Hc3). destruct (plain_inv _ Hd) as (Hd1 & Hd2 & Hd3).
  set (L := String "-" a ++ String "," b).
  set (R := String "+" c ++ String "," d).
  set (body := L ++ String " " (R ++ String " " EmptyString)).
  assert (E : "@@ -" ++ a ++ "," ++ b ++ " +" ++ c ++ "," ++ d ++ " @@" ++ rest
              = "@@" ++ (" " ++ body) ++ "@@" ++ rest).
  { unfold body, L, R. string_norm. reflexivity. }
  rewrite E. unfold ParseDiffHunkString.
  destruct (Split_marker (" " ++ body) rest) as [tl ->].
  { unfold body, L, R. solve_without. }
  cbn [index nth_error bind]. change 1 with (len " ") at 1. rewrite sliceFrom_app.
  cbn [bind]. unfold body.
  rewrite (Split_three " " L R EmptyString); [|unfold L; solve_without|unfold R; solve_without|reflexivity].
  cbn [index nth_error bind List.length]. unfold L.
  rewrite (Split_two "," (String "-" a) b); [|solve_without|solve_without].
  cbn [index nth_error bind List.length].
  change (String "-" a) with ("-" ++ a). change 1 with (len "-") at 1. rewrite sliceFrom_app.
  cbn [bind]. change (1 <? 2)%nat with true. change (1 <? 3)%nat with true. cbv iota.
  cbn [bind]. unfold R.
  rewrite (Split_two "," (String "+" c) d); [|solve_without|solve_without].
  cbn [index nth_error bind List.length]. change (1 <? 2)%nat with true. cbv iota.
  reflexivity.
Qed.

(** The header with both ranges and no count. *)
Lemma ParseDiffHunkString_lines (a c rest : string) :
  plain a = true -> plain c = true ->
  ParseDiffHunkString ("@@ -" ++ a ++ " +" ++ c ++ " @@" ++ rest)
  = Ret (fst (Atoi a), 0%Z, fst (Atoi (String "+" c)), 0%Z).
Proof.
  intros Ha Hc.
  destruct (plain_inv _ Ha) as (Ha1 & Ha2 & Ha3). destruct (plain_inv _ Hc) as (Hc1 & Hc2 & Hc3).
  set (body := String "-" a ++ String " " (String "+" c ++ String " " EmptyString)).
  assert (E : "@@ -" ++ a ++ " +" ++ c ++ " @@" ++ rest
              = "@@" ++ (" " ++ body) ++ "@@" ++ rest).
  { unfold body. string_norm. reflexivity. }
  rewrite E. unfold ParseDiffHunkString.
  destruct (Split_marker (" " ++ body) rest) as [tl ->].
  { unfold body. solve_without. }
  cbn [index nth_error bind]. change 1 with (len " ") at 1. rewrite sliceFrom_app.
  cbn [bind]. unfold body.
  rewrite (Split_three " " (String "-" a) (String "+" c) EmptyString);
    [|solve_without|solve_without|reflexivity].
  cbn [index nth_error bind List.length].
  rewrite (Split_one "," (String "-" a)) by solve_without.
  cbn [index nth_error bind List.length].
  change (String "-" a) with ("-" ++ a). change 1 with (len "-") at 1. rewrite sliceFrom_app.
  cbn [bind]. change (1 <? 1)%nat with false. change (1 <? 3)%nat with true. cbv iota.
  cbn [bind].
  rewrite (Split_one "," (String "+" c)) by solve_without.
  cbn [index nth_error bind List.length]. change (1 <? 1)%nat with false. cbv iota.
  reflexivity.
Qed.

(** The header with the left range only, and the usual space before the
    closing marker. *)
Lemma ParseDiffHunkString_left (a b rest : string) :
  plain a = true -> plain b = true ->
  ParseDiffHunkString ("@@ -" ++ a ++ "," ++ b ++ " @@" ++ rest)
  = Ret (fst (Atoi a), fst (Atoi b), 0%Z, 0%Z).
Proof.
  intros Ha Hb.
  destruct (plain_inv _ Ha) as (Ha1 & Ha2 & Ha3). destruct (plain_inv _ Hb) as (Hb1 & Hb2 & Hb3).
  set (L := String "-" a ++ String "," b).
  set (body := L ++ String " " EmptyString).
  assert (E : "@@ -" ++ a ++ "," ++ b ++ " @@" ++ rest
              = "@@" ++ (" " ++ body) ++ "@@" ++ rest).
  { unfold body, L. string_norm. reflexivity. }
  rewrite E. unfold ParseDiffHunkString.
  destruct (Split_marker (" " ++ body) rest) as [tl ->].
  { unfold body, L. solve_without. }
  cbn [index nth_error bind]. change 1 with (len " ") at 1. rewrite sliceFrom_app.
  cbn [bind]. unfold body.
  rewrite (Split_two " " L EmptyString); [|unfold L; solve_without|reflexivity].
  cbn [index nth_error bind List.length]. unfold L.
  rewrite (Split_two "," (String "-" a) b); [|solve_without|solve_without].
  cbn [index nth_error bind List.length].
  change (String "-" a) with ("-" ++ a). change 1 with (len "-") at 1. rewrite sliceFrom_app.
  cbn [bind]. change (1 <? 2)%nat with true. cbv iota. cbn [bind].
  reflexivity.
Qed.

(** The header with the left range only, and the closing marker right after
    it. *)
Lemma ParseDiffHunkString_single (a b rest : string) :
  plain a = true -> plain b = true ->
  ParseDiffHunkString ("@@ -" ++ a ++ "," ++ b ++ "@@" ++ rest)
  = Ret (fst (Atoi a), fst (Atoi b), fst (Atoi a), fst (Atoi b)).
Proof.
  intros Ha Hb.
  destruct (plain_inv _ Ha) as (Ha1 & Ha2 & Ha3). destruct (plain_inv _ Hb) as (Hb1 & Hb2 & Hb3).
  set (L := String "-" a ++ String "," b).
  assert (E : "@@ -" ++ a ++ "," ++ b ++ "@@" ++ rest
              = "@@" ++ (" " ++ L) ++ "@@" ++ rest).
  { unfold L. string_norm. reflexivity. }
  rewrite E. unfold ParseDiffHunkString.
  destruct (Split_marker (" " ++ L) rest) as [tl ->].
  { unfold L. solve_without. }
  cbn [index nth_error bind]. change 1 with (len " ") at 1. rewrite sliceFrom_app.
  cbn [bind].
  rewrite (Split_one " " L) by (unfold L; solve_without).
  cbn [index nth_error bind List.length]. unfold L.
  rewrite (Split_two "," (String "-" a) b); [|solve_without|solve_without].
  cbn [index nth_error bind List.length].
  change (String "-" a) with ("-" ++ a). change 1 with (len "-") at 1. rewrite sliceFrom_app.
  cbn [bind]. change (1 <? 2)%nat with true. change (1 <? 1)%nat with false. cbv iota.
  cbn [bind]. reflexivity.
Qed.

(** X12. A hunk header is read back. For numbers that fit an [int], the header
    [@@ -l,s +r,t @@] followed by any text gives back [l], [s], [r] and [t]. *)
Theorem ParseDiffHunkString_header (l s r t : Z) (rest : string) :
  (0 <= l < 2 ^ 63)%Z -> (0 <= s < 2 ^ 63)%Z ->
  (0 <= r < 2 ^ 63)%Z -> (0 <= t < 2 ^ 63)%Z ->
  ParseDiffHunkString
    ("@@ -" ++ decimal l ++ "," ++ decimal s ++ " +" ++ decimal r ++ "," ++ decimal t
     ++ " @@" ++ rest)
  = Ret (l, s, r, t).
Proof.
  intros Hl Hs Hr Ht.
  rewrite ParseDiffHunkString_both by (apply plain_decimal; lia).
  destruct (Atoi_decimal l Hl) as [-> _]. destruct (Atoi_decimal s Hs) as [-> _].
  destruct (Atoi_decimal r Hr) as [_ ->]. destruct (Atoi_decimal t Ht) as [-> _].
  reflexivity.
Qed.

Lemma ParseDiffHunkString_header_witness :
  ParseDiffHunkString "@@ -12,3 +14,5 @@ func main() {" = Ret (12, 3, 14, 5)%Z.
Proof.
  apply (ParseDiffHunkString_header 12 3 14 5 " func main() {"); lia.
Defined.

(** X13. A range without a count gives the count 0: the header [@@ -l +r @@]
    gives [l], 0, [r] and 0. *)
Theorem ParseDiffHunkString_no_count (l r : Z) (rest : string) :
  (0 <= l < 2 ^ 63)%Z -> (0 <= r < 2 ^ 63)%Z ->
  ParseDiffHunkString ("@@ -" ++ decimal l ++ " +" ++ decimal r ++ " @@" ++ rest)
  = Ret (l, 0, r, 0)%Z.
Proof.
  intros Hl Hr.
  rewrite ParseDiffHunkString_lines by (apply plain_decimal; lia).
  destruct (Atoi_decimal l Hl) as [-> _]. destruct (Atoi_decimal r Hr) as [_ ->].
  reflexivity.
Qed.

Lemma ParseDiffHunkString_no_count_witness :
  ParseDiffHunkString "@@ -1 +1 @@" = Ret (1, 0, 1, 0)%Z.
Proof.
  apply (ParseDiffHunkString_no_count 1 1 EmptyString); lia.
Defined.

(** X14. A header with the left range only, written with the usual space before
    the closing marker, does not reach the branch that copies the left range:
    the text after that space counts as a second, empty range, and the right
    line and count are 0. *)
Theorem ParseDiffHunkString_left_only (l s : Z) (rest : string) :
  (0 <= l < 2 ^ 63)%Z -> (0 <= s < 2 ^ 63)%Z ->
  ParseDiffHunkString ("@@ -" ++ decimal l ++ "," ++ decimal s ++ " @@" ++ rest)
  = Ret (l, s, 0, 0)%Z.
Proof.
  intros Hl Hs.
  rewrite ParseDiffHunkString_left by (apply plain_decimal; lia).
  destruct (Atoi_decimal l Hl) as [-> _]. destruct (Atoi_decimal s Hs) as [-> _].
  reflexivity.
Qed.

Lemma ParseDiffHunkString_left_only_witness :
  ParseDiffHunkString "@@ -12,3 @@" = Ret (12, 3, 0, 0)%Z.
Proof.
  apply (ParseDiffHunkString_left_only 12 3 EmptyString); lia.
Defined.

(** X15. The left range stands for both when the text between the markers holds
    it alone, with no space after it: the header [@@ -l,s@@] gives [l], [s],
    [l] and [s]. *)
Theorem ParseDiffHunkString_copies_left (l s : Z) (rest : string) :
  (0 <= l < 2 ^ 63)%Z -> (0 <= s < 2 ^ 63)%Z ->
  ParseDiffHunkString ("@@ -" ++ decimal l ++ "," ++ decimal s ++ "@@" ++ rest)
  = Ret (l, s, l, s).
Proof.
  intros Hl Hs.
  rewrite ParseDiffHunkString_single by (apply plain_decimal; lia).
  destruct (Atoi_decimal l Hl) as [-> _]. destruct (Atoi_decimal s Hs) as [-> _].
  reflexivity.
Qed.

Lemma ParseDiffHunkString_copies_left_witness :
  ParseDiffHunkString "@@ -12,3@@" = Ret (12, 3, 12, 3)%Z.
Proof.
  apply (ParseDiffHunkString_copies_left 12 3 EmptyString); lia.
Defined.

(** X16. A text in which the marker [@@] does not occur makes
    [ParseDiffHunkString] panic: [ss[1]] is out of range. *)
Theorem ParseDiffHunkString_no_marker (diffhunk : string) :
  (forall pre post, diffhunk <> pre ++ "@@" ++ post) ->
  ParseDiffHunkString diffhunk = Panic IndexOutOfRange.
Proof.
  intros H. unfold ParseDiffHunkString, Split.
  rewrite (splitFrom_absent "@@" diffhunk); [reflexivity|discriminate|exact H].
Qed.

Lemma ParseDiffHunkString_no_marker_witness :
  ParseDiffHunkString "@" = Panic IndexOutOfRange.
Proof.
  apply (ParseDiffHunkString_no_marker "@").
  intros pre post H. apply (f_equal len) in H. rewrite !len_app in H. simpl in H. lia.
Defined.

(** *** When ParseDiffHunkString returns *)

Lemma splitFrom_nonempty (sep : string) (s : string) :
  forall skip, exists p ps, splitFrom sep skip s = p :: ps.
Proof.
  induction s as [|c s IH]; intros skip; [simpl; eauto|].
  cbn [splitFrom]. destruct skip as [|k]; [|apply IH].
  destruct (HasPrefix (String c s) sep); [eauto|].
  destruct (splitFrom sep 0 s); eauto.
Qed.

(** The first piece starts with the first byte, unless that is the
    separator. *)
Lemma splitFrom_head (c d : ascii) (s : string) :
  d <> c ->
  exists p ps, splitFrom (String c EmptyString) 0 (String d s) = String d p :: ps.
Proof.
  intros H. cbn [splitFrom]. unfold HasPrefix. simpl prefix.
  destruct (ascii_dec c d) as [->|_]; [contradiction|].
  destruct (splitFrom (String c EmptyString) 0 s); eauto.
Qed.

Lemma splitFrom_head_sep (c : ascii) (s : string) :
  splitFrom (String c EmptyString) 0 (String c s)
  = EmptyString :: splitFrom (String c EmptyString) 0 s.
Proof.
  cbn [splitFrom]. unfold HasPrefix. simpl prefix.
  destruct (ascii_dec c c) as [_|N]; [|contradiction].
  destruct s; reflexivity.
Qed.

Lemma index_in_range {A : Type} (l : list A) (i : nat) :
  (i <? List.length l)%nat = true -> exists x, index l i = Ret x.
Proof.
  intros H. apply Nat.ltb_lt in H. unfold index.
  destruct (nth_error l i) as [x|] eqn:E; [eauto|].
  apply nth_error_None in E. lia.
Qed.

(** X17. [ParseDiffHunkString] returns as soon as the text between the first two
    markers has a second byte that is neither a space nor a comma. Its first
    two bytes are dropped unread, whatever they are. *)
Theorem ParseDiffHunkString_returns (c1 c2 : ascii) (x rest : string) :
  without "@" (String c1 (String c2 x)) = true ->
  c2 <> " "%char -> c2 <> ","%char ->
  exists res,
    ParseDiffHunkString ("@@" ++ String c1 (String c2 x) ++ "@@" ++ rest) = Ret res.
Proof.
  intros Hw Hsp Hco. unfold ParseDiffHunkString.
  destruct (Split_marker _ rest Hw) as [tl ->].
  cbn [index nth_error bind]. unfold sliceFrom, slice.
  change (1 <=? len (String c1 (String c2 x)))%nat with true.
  rewrite Nat.leb_refl. cbn [andb bind].
  change (substring 1 (len (String c1 (String c2 x)) - 1) (String c1 (String c2 x)))
    with (substring 0 (len (String c2 x)) (String c2 x)).
  pose proof (substring_whole (String c2 x) EmptyString) as Hsub.
  rewrite app_empty_string in Hsub. rewrite Hsub. unfold Split.
  destruct (splitFrom_head " " c2 x Hsp) as (p & ps & ->).
  cbn [index nth_error bind].
  destruct (splitFrom_head "," c2 p Hco) as (q & qs & ->).
  cbn [index nth_error bind].
  change (1 <=? len (String c2 q))%nat with true. rewrite Nat.leb_refl. cbn [andb bind].
  set (leftLine := fst (Atoi _)).
  assert (Hleft : exists h,
             (if (1 <? List.length (String c2 q :: qs))%nat
              then leftRange1 <- index (String c2 q :: qs) 1 ;; Ret (fst (Atoi leftRange1))
              else Ret 0%Z) = Ret h).
  { destruct (1 <? List.length (String c2 q :: qs))%nat eqn:E; [|eauto].
    destruct (index_in_range _ _ E) as [v ->]. cbn [bind]. eauto. }
  destruct Hleft as [h ->]. cbn [bind].
  destruct (1 <? List.length (String c2 p :: ps))%nat eqn:E; [|eauto].
  destruct (index_in_range _ _ E) as [v ->]. cbn [bind].
  destruct (splitFrom_nonempty "," v 0) as (w & ws & ->).
  cbn [index nth_error bind].
  destruct (1 <? List.length (w :: ws))%nat eqn:E2; [|cbn [bind]; eauto].
  destruct (index_in_range _ _ E2) as [u ->]. cbn [bind]. eauto.
Qed.

Lemma ParseDiffHunkString_returns_witness :
  exists res, ParseDiffHunkString "@@ -a,b +c @@" = Ret res.
Proof.
  apply (ParseDiffHunkString_returns " " "-" "a,b +c " EmptyString);
    [reflexivity|discriminate|discriminate].
Defined.

(** X18. [ParseDiffHunkString] panics on a slice out of range when the text
    between the first two markers has fewer than two bytes, or a space or a
    comma as its second byte. *)
Theorem ParseDiffHunkString_short_range (x rest : string) :
  without "@" x = true ->
  len x < 2
  \/ (exists c1 x', x = String c1 (String " " x'))
  \/ (exists c1 x', x = String c1 (String "," x')) ->
  ParseDiffHunkString ("@@" ++ x ++ "@@" ++ rest) = Panic SliceOutOfRange.
Proof.
  intros Hw Hx. unfold ParseDiffHunkString.
  destruct (Split_marker _ rest Hw) as [tl ->].
  cbn [index nth_error bind].
  destruct x as [|c1 [|c2 x]]; [reflexivity|reflexivity|].
  assert (Hc : c2 = " "%char \/ c2 = ","%char).
  { destruct Hx as [Hx|[(d & x' & Hx)|(d & x' & Hx)]];
      [simpl in Hx; lia|left; congruence|right; congruence]. }
  unfold sliceFrom at 1. unfold slice.
  change (1 <=? len (String c1 (String c2 x)))%nat with true.
  rewrite Nat.leb_refl. cbn [andb bind].
  change (substring 1 (len (String c1 (String c2 x)) - 1) (String c1 (String c2 x)))
    with (substring 0 (len (String c2 x)) (String c2 x)).
  pose proof (substring_whole (String c2 x) EmptyString) as Hsub.
  rewrite app_empty_string in Hsub. rewrite Hsub. unfold Split.
  destruct Hc as [-> | ->].
  - rewrite splitFrom_head_sep. reflexivity.
  - destruct (splitFrom_head " " "," x ltac:(discriminate)) as (p & ps & ->).
    cbn [index nth_error bind]. rewrite splitFrom_head_sep. reflexivity.
Qed.

Lemma ParseDiffHunkString_short_range_witness :
  ParseDiffHunkString "@@  -1,2 +3,4 @@" = Panic SliceOutOfRange.
Proof.
  apply (ParseDiffHunkString_short_range "  -1,2 +3,4 " EmptyString);
    [reflexivity|right; left; exists " "%char, "-1,2 +3,4 "; reflexivity].
Defined.

(** * The parser of [internal/git/output_parser.go] *)

(** ** Termination *)

Lemma bind_fuel {A B : Type} (m : outcome A) (k : A -> outcome B) :
  m <> OutOfFuel -> (forall a, k a <> OutOfFuel) -> bind m k <> OutOfFuel.
Proof. destruct m; simpl; intros H1 H2; [apply H2|discriminate|congruence]. Qed.

Ltac no_fuel :=
  repeat first
    [ apply sliceFrom_fuel
    | apply assignField_fuel
    | apply loadCommit_fuel
    | discriminate
    | apply bind_fuel; [|intros ?]
    | match goal with |- (if ?b then _ else _) <> OutOfFuel => destruct b end ].

Lemma OutputParser_currFileLoop_terminates (fuel : nat) :
  forall (cf : File) (r : Reader),
  len (pending r) < fuel ->
  terminates (fun x => match x with
                       | OutputParser.BreakLoopDiff r' => within r r'
                       | OutputParser.ReturnErr _ => True
                       end)
             (OutputParser.currFileLoop fuel cf r).
Proof.
  induction fuel as [|fuel IH]; intros cf r Hf; [lia|].
  cbn [OutputParser.currFileLoop].
  destruct (ReadString r) as [[line e] r1] eqn:E.
  pose proof (ReadString_within _ _ _ _ E) as Hw.
  destruct e as [x|]; [destruct (isEOF x); simpl; [exact Hw|exact I]|].
  assert (IH' : forall cf', terminates (fun x => match x with
                                                 | OutputParser.BreakLoopDiff r' => within r r'
                                                 | OutputParser.ReturnErr _ => True
                                                 end)
                              (OutputParser.currFileLoop fuel cf' r1)).
  { intros cf'. destruct Hw as (Hw1 & Hw2 & Hw3).
    pose proof (IH cf' r1 ltac:(lia)) as H.
    destruct (OutputParser.currFileLoop fuel cf' r1) as [[e'|r']| |]; simpl in *; auto.
    unfold within in *. intuition (try congruence; try lia). }
  cbn [andb].
  repeat match goal with
         | |- terminates _ (if ?b then _ else _) => destruct b
         end;
    try apply IH';
    try (simpl; apply strictly_within; exact Hw);
    repeat (apply terminates_bind_pure; [no_fuel|intros ? _]); apply IH'.
Qed.

Lemma OutputParser_loopCommits_terminates (fuel : nat) (maxFiles : Z) :
  forall (st : state) (r : Reader),
  len (pending r) + 1 < fuel ->
  OutputParser.loopCommits fuel maxFiles st r <> OutOfFuel.
Proof.
  induction fuel as [|fuel IH]; intros st r Hf; [lia|].
  cbn [OutputParser.loopCommits].
  destruct (ReadString r) as [[line e] r1] eqn:E.
  pose proof (ReadString_within _ _ _ _ E) as Hw.
  destruct e as [x|]; [destruct (isEOF x); discriminate|].
  destruct Hw as (Hw1 & Hw2 & Hw3).
  destruct (chomp line) as [|c l]; [discriminate|].
  destruct (Ascii.eqb c "c"); [apply bind_fuel; [no_fuel|intros ?; apply IH; lia]|].
  destruct (Ascii.eqb c "a"); [apply bind_fuel; [no_fuel|intros ?; apply IH; lia]|].
  destruct (Ascii.eqb c "m"); [apply bind_fuel; [no_fuel|intros ?; apply IH; lia]|].
  destruct (Ascii.eqb c "t"); [apply bind_fuel; [no_fuel|intros ?; apply IH; lia]|].
  unfold OutputParser.loopDiff.
  destruct (negb (HasPrefix (String c l) "diff --git")).
  { pose proof (loadCommit_fuel st). destruct (loadCommit st); simpl; congruence. }
  assert (Hcap : forall o : outcome bool, o <> OutOfFuel ->
            bind (bind o (fun capped =>
                   if capped then Ret (OutputParser.DiffBreak (discardAll r1))
                   else
                     x <- OutputParser.currFileLoop fuel emptyFile r1 ;;
                     match x with
                     | OutputParser.ReturnErr e =>
                         Ret (OutputParser.DiffReturn (OutputParser.ReadFailure e))
                     | OutputParser.BreakLoopDiff input => Ret (OutputParser.DiffBreak input)
                     end))
                 (fun x => match x with
                           | OutputParser.DiffReturn e => Ret (st, Some e)
                           | OutputParser.DiffBreak input =>
                               OutputParser.loopCommits fuel maxFiles (appendCommit st) input
                           end)
            <> OutOfFuel).
  { intros [[|]|p|] Ho; cbn [bind]; try discriminate; try congruence.
    - apply IH. simpl. lia.
    - pose proof (OutputParser_currFileLoop_terminates fuel emptyFile r1 ltac:(lia)) as Ht.
      destruct (OutputParser.currFileLoop fuel emptyFile r1) as [[e'|r']| |];
        cbn [bind]; simpl in Ht; try discriminate; try contradiction.
      apply IH. destruct Ht as (_ & _ & Ht). lia. }
  apply Hcap. unfold lenFiles. no_fuel.
Qed.

(** X19. The loop bound of this [parseLog] is never reached: on every stream a run
    returns its commits and its error, or panics. *)
Lemma OutputParser_parseLog_total (data : string) (end_ : error) (maxFiles maxBytes : Z) :
  OutputParser.parseLog data end_ maxFiles maxBytes <> OutOfFuel.
Proof.
  unfold OutputParser.parseLog. apply bind_fuel; [|discriminate].
  apply OutputParser_loopCommits_terminates. simpl. lia.
Qed.

(** ** No file record is ever made *)

Lemma noFiles_newCommit (st : state) (hash : string) :
  OutputParser.noFiles st -> OutputParser.noFiles (newCommit st hash).
Proof.
  unfold OutputParser.noFiles, newCommit. simpl. intros H.
  apply Forall_app. split; [exact H|]. constructor; [reflexivity|constructor].
Qed.

Lemma noFiles_assignField (st st' : state) (set : Commit -> string -> Commit)
  (line : string) :
  (forall c v, Files (set c v) = Files c) ->
  OutputParser.noFiles st -> assignField st set line = Ret st' ->
  OutputParser.noFiles st'.
Proof.
  intros Hset H. unfold assignField.
  destruct (sliceFrom line 2) as [v| |]; cbn [bind]; try discriminate.
  destruct (loadCommit st) as [c| |] eqn:Ec; cbn [bind]; try discriminate.
  intros [= <-]. unfold OutputParser.noFiles, storeCommit.
  destruct (currentCommit st) as [p|]; [|exact H]. simpl.
  apply Forall_update; [exact H|].
  rewrite Hset. apply loadCommit_In in Ec.
  unfold OutputParser.noFiles in H. rewrite Forall_forall in H. apply H. exact Ec.
Qed.

Lemma OutputParser_loopCommits_noFiles (fuel : nat) (maxFiles : Z) :
  forall (st st' : state) (r : Reader) (e : option OutputParser.failure),
  OutputParser.noFiles st ->
  OutputParser.loopCommits fuel maxFiles st r = Ret (st', e) ->
  OutputParser.noFiles st'.
Proof.
  induction fuel as [|fuel IH]; intros st st' r e Hst H; [discriminate|].
  cbn [OutputParser.loopCommits] in H.
  destruct (ReadString r) as [[line x] r1].
  destruct x as [x|].
  { destruct (isEOF x); inversion H; subst; exact Hst. }
  destruct (chomp line) as [|c l]; [discriminate|].
  destruct (Ascii.eqb c "c").
  { destruct (sliceFrom (String c l) 2) as [hash| |]; cbn [bind] in H; try discriminate.
    eapply IH; [|exact H]. apply noFiles_newCommit. exact Hst. }
  destruct (Ascii.eqb c "a").
  { destruct (assignField st setAuthorName (String c l)) as [st1| |] eqn:Ea;
      cbn [bind] in H; try discriminate.
    eapply IH; [|exact H]. eapply noFiles_assignField; [|exact Hst|exact Ea]. reflexivity. }
  destruct (Ascii.eqb c "m").
  { destruct (assignField st setAuthorEmail (String c l)) as [st1| |] eqn:Ea;
      cbn [bind] in H; try discriminate.
    eapply IH; [|exact H]. eapply noFiles_assignField; [|exact Hst|exact Ea]. reflexivity. }
  destruct (Ascii.eqb c "t").
  { destruct (assignField st setTimestamp (String c l)) as [st1| |] eqn:Ea;
      cbn [bind] in H; try discriminate.
    eapply IH; [|exact H]. eapply noFiles_assignField; [|exact Hst|exact Ea]. reflexivity. }
  destruct (OutputParser.loopDiff fuel maxFiles st (String c l) r1) as [[f|r2]| |];
    cbn [bind] in H; try discriminate.
  - inversion H; subst. exact Hst.
  - eapply IH; [|exact H]. exact Hst.
Qed.

(** X20. No commit that this [parseLog] returns has a file record, whatever the
    stream: the record of the file being read is never appended. *)
Theorem OutputParser_parseLog_no_files (data : string) (end_ : error)
  (maxFiles maxBytes : Z) (cs : list (option Commit)) (e : option OutputParser.failure)
  (c : Commit) :
  OutputParser.parseLog data end_ maxFiles maxBytes = Ret (cs, e) ->
  In (Some c) cs -> Files c = [].
Proof.
  unfold OutputParser.parseLog. intros H Hc.
  destruct (OutputParser.loopCommits _ _ _ _) as [[st e']| |] eqn:E;
    cbn [bind] in H; try discriminate.
  inversion H; subst. cbn [fst] in Hc.
  assert (H0 : OutputParser.noFiles initialState) by constructor.
  pose proof (OutputParser_loopCommits_noFiles _ _ _ _ _ _ H0 E) as Hn.
  unfold deref in Hc. apply in_map_iff in Hc.
  destruct Hc as ([p|] & Hp & _); [|discriminate].
  apply nth_error_In in Hp. unfold OutputParser.noFiles in Hn.
  rewrite Forall_forall in Hn. apply Hn. exact Hp.
Qed.

Lemma OutputParser_parseLog_no_files_witness :
  Files (mkCommit "h1" "n" "e" "1" "" []) = [].
Proof.
  apply (OutputParser_parseLog_no_files
           (unlines (metadata "h1" "n" "e" "1" ++ edit "y")) EOF 10 100
           [Some (mkCommit "h1" "n" "e" "1" "" [])] None
           (mkCommit "h1" "n" "e" "1" "" []));
    [vm_compute; reflexivity|left; reflexivity].
Defined.

(** ** Going past the lines of a diff *)

Lemma prefix_line (p l : string) :
  noLF p = true -> prefix p l = false -> prefix p (l ++ String LF EmptyString) = false.
Proof.
  revert l. induction p as [|c p IH]; intros l Hp H.
  - destruct l; discriminate.
  - simpl in Hp. apply andb_true_iff in Hp. destruct Hp as [Hc Hp].
    destruct l as [|d l]; simpl in *.
    + destruct (ascii_dec c LF) as [->|_]; [|reflexivity].
      rewrite Ascii.eqb_refl in Hc. discriminate.
    + destruct (ascii_dec c d); [apply IH; assumption|reflexivity].
Qed.

Lemma HasPrefix_len (s p : string) : HasPrefix s p = true -> len p <= len s.
Proof.
  unfold HasPrefix. intros H. destruct (prefix_split _ _ H) as [t ->].
  rewrite len_app. lia.
Qed.

Lemma sliceFrom_ok (s : string) (k : nat) : k <= len s -> exists v, sliceFrom s k = Ret v.
Proof.
  intros H. unfold sliceFrom, slice.
  destruct (Nat.leb_spec k (len s)); [|lia]. rewrite Nat.leb_refl. simpl. eauto.
Qed.

Lemma sliceFrom_prefix (s p : string) (k : nat) :
  HasPrefix s p = true -> k <= len p -> exists v, sliceFrom s k = Ret v.
Proof. intros H Hk. apply sliceFrom_ok. apply HasPrefix_len in H. lia. Qed.

(** The name on a [--- ] line that is not bare has two bytes at least, its
    line feed included. *)
Lemma minus_name (l t : string) :
  String.eqb l "--- " = false ->
  l ++ String LF EmptyString = "--- " ++ t ->
  2 <= len t.
Proof.
  intros Hne H.
  destruct l as [|c1 [|c2 [|c3 [|c4 [|c5 l]]]]]; simpl in H; try discriminate.
  - injection H as -> -> -> -> <-. discriminate.
  - injection H as -> -> -> -> <-.
    change (2 <= S (len (l ++ String LF EmptyString))). rewrite len_app. simpl. lia.
Qed.

Ltac slice_ok H :=
  match goal with
  | |- context [sliceFrom ?s ?k] =>
      let v := fresh "v" in
      let E := fresh "E" in
      destruct (sliceFrom_prefix s _ k H ltac:(simpl; lia)) as [v E];
      rewrite E; cbn [bind]
  end.

Lemma OutputParser_currFileLoop_inert (fuel : nat) (cf : File) (r : Reader)
  (l rest : string) :
  OutputParser.inert l = true ->
  pending r = l ++ String LF rest ->
  exists cf',
    OutputParser.currFileLoop (S fuel) cf r
    = OutputParser.currFileLoop fuel cf' (withPending r rest).
Proof.
  intros Hi E. unfold OutputParser.inert in Hi.
  apply andb_true_iff in Hi. destruct Hi as [Hi Hne].
  apply andb_true_iff in Hi. destruct Hi as [Hn Hd].
  apply negb_true_iff in Hne. apply negb_true_iff in Hd.
  cbn [OutputParser.currFileLoop]. rewrite (ReadString_line r l rest Hn E).
  assert (Hdl : HasPrefix (l ++ String LF EmptyString) "diff --git" = false)
    by (apply prefix_line; [reflexivity|exact Hd]).
  set (line := l ++ String LF EmptyString) in *.
  rewrite Hdl. cbn [andb].
  destruct (HasPrefix line "old mode"); [eauto|].
  destruct (HasPrefix line "new mode"); [eauto|].
  destruct (HasPrefix line "index"); [eauto|].
  destruct (HasPrefix line "similarity index"); [eauto|].
  destruct (HasPrefix line "dissimilarity index"); [eauto|].
  destruct (HasPrefix line "rename from ") eqn:H1; [slice_ok H1; eauto|].
  destruct (HasPrefix line "rename to ") eqn:H2; [slice_ok H2; eauto|].
  destruct (HasPrefix line "copy from ") eqn:H3; [slice_ok H3; eauto|].
  destruct (HasPrefix line "copy to ") eqn:H4; [slice_ok H4; eauto|].
  destruct (HasPrefix line "new file"); [eauto|].
  destruct (HasPrefix line "deleted file"); [eauto|].
  destruct (HasPrefix line "--- ") eqn:H5.
  { unfold HasPrefix in H5. destruct (prefix_split _ _ H5) as [t Ht].
    rewrite Ht. change 4 with (len "--- "). rewrite sliceFrom_app. cbn [bind].
    pose proof (minus_name l t Hne Ht) as Hlen.
    destruct (sliceFrom_ok t 2 Hlen) as [v Ev]. rewrite Ev. cbn [bind].
    destruct (HasPrefix t "a/"); [|destruct (IsDeleted cf)]; cbn [bind]; eauto. }
  destruct (HasPrefix line "+++ ") eqn:H6; [|eauto].
  unfold HasPrefix in H6. destruct (prefix_split _ _ H6) as [t Ht].
  rewrite Ht. change 4 with (len "+++ "). rewrite sliceFrom_app. cbn [bind].
  destruct (HasPrefix t "b/") eqn:Hb; [|cbn [bind]; eauto].
  destruct (sliceFrom_prefix t _ 2 Hb ltac:(simpl; lia)) as [v Ev]. rewrite Ev.
  cbn [bind]. eauto.
Qed.

Lemma OutputParser_currFileLoop_inert_all (ls : list string) :
  forall (fuel : nat) (cf : File) (r : Reader) (rest : string),
  forallb OutputParser.inert ls = true ->
  pending r = unlines ls ++ rest ->
  exists cf',
    OutputParser.currFileLoop (List.length ls + fuel) cf r
    = OutputParser.currFileLoop fuel cf' (withPending r rest).
Proof.
  induction ls as [|l ls IH]; intros fuel cf r rest H E.
  - exists cf. simpl in E. destruct r as [p f c]. simpl in *. subst p. reflexivity.
  - cbn [forallb] in H. apply andb_true_iff in H. destruct H as [Hl Hls].
    cbn [unlines] in E. rewrite app_assoc_string in E. cbn [append] in E.
    cbn [List.length Nat.add].
    destruct (OutputParser_currFileLoop_inert (List.length ls + fuel) cf r l _ Hl E)
      as [cf1 ->].
    destruct (IH fuel cf1 (withPending r (unlines ls ++ rest)) rest Hls eq_refl)
      as [cf2 ->].
    exists cf2. reflexivity.
Qed.

(** ** One [diff --git] line, and a second one *)

Lemma OutputParser_loopCommits_metadata (f : nat) (maxFiles : Z) (st : state) (r : Reader)
  (hash name email time rest : string) :
  noLF hash = true -> noLF name = true -> noLF email = true -> noLF time = true ->
  pending r = unlines (metadata hash name email time) ++ rest ->
  OutputParser.loopCommits (4 + f) maxFiles st r
  = OutputParser.loopCommits f maxFiles
      (mkState (commits st)
               (heap st ++ [mkCommit hash name email time EmptyString []])
               (Some (List.length (heap st))) (headerParsed st))
      (withPending r rest).
Proof.
  intros Hh Hn He Ht E.
  unfold metadata in E. rewrite !unlines_cons_app in E. cbn [unlines append] in E.
  change (4 + f) with (S (S (S (S f)))).
  cbn [OutputParser.loopCommits].
  rewrite (ReadString_line r ("c " ++ hash) _ Hh E), chomp_line. cbn [append].
  change (Ascii.eqb "c" "c") with true. cbv iota.
  change (String "c" (String " " hash)) with ("c " ++ hash).
  change 2 with (len "c "). rewrite sliceFrom_app. cbn [bind]. unfold newCommit.
  erewrite (ReadString_line _ ("a " ++ name)); [|exact Hn|reflexivity].
  rewrite chomp_line. cbn [append].
  change (Ascii.eqb "a" "c") with false. change (Ascii.eqb "a" "a") with true. cbv iota.
  rewrite assignField_last. cbn [bind].
  erewrite (ReadString_line _ ("m " ++ email)); [|exact He|reflexivity].
  rewrite chomp_line. cbn [append].
  change (Ascii.eqb "m" "c") with false. change (Ascii.eqb "m" "a") with false.
  change (Ascii.eqb "m" "m") with true. cbv iota.
  rewrite assignField_last. cbn [bind].
  erewrite (ReadString_line _ ("t " ++ time)); [|exact Ht|reflexivity].
  rewrite chomp_line. cbn [append].
  change (Ascii.eqb "t" "c") with false. change (Ascii.eqb "t" "a") with false.
  change (Ascii.eqb "t" "m") with false. change (Ascii.eqb "t" "t") with true. cbv iota.
  rewrite assignField_last. cbn [bind].
  rewrite !withPending_withPending. reflexivity.
Qed.

(** At the end of the stream. *)
Lemma OutputParser_loopCommits_end (fuel : nat) (maxFiles : Z) (st : state) (r : Reader) :
  pending r = EmptyString -> fin r = EOF ->
  OutputParser.loopCommits (S fuel) maxFiles st r = Ret (st, None).
Proof.
  intros Hp Hf. cbn [OutputParser.loopCommits]. unfold ReadString. rewrite Hp, Hf. reflexivity.
Qed.

Lemma OutputParser_currFileLoop_end (fuel : nat) (cf : File) (r : Reader) :
  pending r = EmptyString -> fin r = EOF ->
  OutputParser.currFileLoop (S fuel) cf r
  = Ret (OutputParser.BreakLoopDiff (withPending r EmptyString)).
Proof.
  intros Hp Hf. cbn [OutputParser.currFileLoop]. unfold ReadString. rewrite Hp, Hf. reflexivity.
Qed.

Lemma OutputParser_currFileLoop_diff (fuel : nat) (cf : File) (r : Reader)
  (y rest : string) :
  noLF y = true ->
  pending r = ("diff --git" ++ y) ++ String LF rest ->
  OutputParser.currFileLoop (S fuel) cf r
  = Ret (OutputParser.BreakLoopDiff (withPending r rest)).
Proof.
  intros Hy E. cbn [OutputParser.currFileLoop].
  rewrite (ReadString_line r ("diff --git" ++ y) rest Hy E).
  assert (Hp : HasPrefix (("diff --git" ++ y) ++ String LF EmptyString) "diff --git" = true).
  { rewrite app_assoc_string. apply prefix_app. }
  rewrite Hp. reflexivity.
Qed.

(** X21. A log with a single [diff --git] line gives the commit before that line,
    without a file record: every later line that is not a [diff --git] line
    is read and dropped by the loop over the header lines of a file, the
    metadata lines of later commits as well. *)
Theorem OutputParser_parseLog_single_diff (hash name email time x : string)
  (skipped : list string) (maxFiles maxBytes : Z) :
  noLF hash = true -> noLF name = true -> noLF email = true -> noLF time = true ->
  noLF x = true ->
  forallb OutputParser.inert skipped = true ->
  OutputParser.parseLog
    (unlines (metadata hash name email time ++ ("diff --git" ++ x) :: skipped))
    EOF maxFiles maxBytes
  = Ret ([Some (mkCommit hash name email time EmptyString [])], None).
Proof.
  intros Hh Hn He Ht Hx Hs. unfold OutputParser.parseLog.
  set (data := unlines _).
  assert (E : data = unlines (metadata hash name email time)
                     ++ ("diff --git" ++ x)
                     ++ String LF (unlines skipped ++ EmptyString)).
  { unfold data. rewrite unlines_app. cbn [unlines]. rewrite app_empty_string.
    reflexivity. }
  assert (Hlen : exists f, len data + 2 = 4 + S (List.length skipped + S (S f))).
  { exists (len data - List.length skipped - 5). rewrite E. rewrite !len_app.
    pose proof (unlines_len (metadata hash name email time)) as H1.
    pose proof (unlines_len skipped) as H2. cbn [metadata List.length] in H1.
    change (len (String LF ?s)) with (S (len s)). rewrite !len_app.
    change (len "diff --git") with 10. change (len EmptyString) with 0. lia. }
  destruct Hlen as [f ->].
  set (r := NewReaderSize data EOF maxBytes).
  rewrite (OutputParser_loopCommits_metadata _ maxFiles initialState r _ _ _ _ _
             Hh Hn He Ht E).
  cbn [OutputParser.loopCommits].
  erewrite (ReadString_line _ ("diff --git" ++ x)); [|exact Hx|reflexivity].
  rewrite chomp_line. cbn [append].
  change (Ascii.eqb "d" "c") with false. change (Ascii.eqb "d" "a") with false.
  change (Ascii.eqb "d" "m") with false. change (Ascii.eqb "d" "t") with false.
  cbv iota. rewrite withPending_withPending. unfold OutputParser.loopDiff.
  change (HasPrefix (String "d" (String "i" (String "f" (String "f" (String " "
            (String "-" (String "-" (String "g" (String "i" (String "t" x))))))))))
            "diff --git") with (HasPrefix x EmptyString).
  rewrite HasPrefix_empty. cbn [negb]. unfold lenFiles.
  rewrite (loadCommit_last (commits initialState) (heap initialState) _
             (headerParsed initialState)).
  cbn [bind Files List.length].
  assert (Hend : forall (st : state) (r' : Reader),
             pending r' = EmptyString -> fin r' = EOF ->
             OutputParser.loopCommits (List.length skipped + S (S f)) maxFiles st r'
             = Ret (st, None)).
  { intros st r' Hp Hf. rewrite Nat.add_succ_r.
    apply OutputParser_loopCommits_end; assumption. }
  destruct ((maxFiles >? -1)%Z); cbn [bind];
    [destruct ((Z.of_nat 0 >=? maxFiles)%Z)|]; cbn [bind].
  - rewrite Hend by reflexivity. reflexivity.
  - destruct (OutputParser_currFileLoop_inert_all skipped (S (S f)) emptyFile
                (withPending r (unlines skipped ++ EmptyString)) EmptyString Hs eq_refl)
      as [cf ->].
    rewrite OutputParser_currFileLoop_end by reflexivity. cbn [bind].
    rewrite Hend by reflexivity. reflexivity.
  - destruct (OutputParser_currFileLoop_inert_all skipped (S (S f)) emptyFile
                (withPending r (unlines skipped ++ EmptyString)) EmptyString Hs eq_refl)
      as [cf ->].
    rewrite OutputParser_currFileLoop_end by reflexivity. cbn [bind].
    rewrite Hend by reflexivity. reflexivity.
Qed.

Lemma OutputParser_parseLog_single_diff_witness :
  OutputParser.parseLog
    (unlines (metadata "h2" "n" "e" "2"
              ++ ("diff --git" ++ " a/x b/x")
                 :: ["--- a/x"; "+++ b/x"; "@@ -1 +1 @@"; "-a"; "+b"; "";
                     "c h1"; "a n"; "m e"; "t 1"]))
    EOF 10 100
  = Ret ([Some (mkCommit "h2" "n" "e" "2" "" [])], None).
Proof.
  apply (OutputParser_parseLog_single_diff "h2" "n" "e" "2" " a/x b/x"
           ["--- a/x"; "+++ b/x"; "@@ -1 +1 @@"; "-a"; "+b"; "";
            "c h1"; "a n"; "m e"; "t 1"] 10 100); reflexivity.
Defined.

(** X22. A second [diff --git] line ends the parse with an error. The line is read
    by the loop over the header lines of the first file, which stops there;
    the commit is appended without a file record, and the line after, which
    the loop over the commits takes for the start of a diff, is not a
    [diff --git] line. So a commit with two changed files, or a second commit
    with one, is not parsed. *)
Theorem OutputParser_parseLog_second_diff (hash name email time x y l : string)
  (skipped : list string) (more : string) (end_ : error) (maxFiles maxBytes : Z) :
  noLF hash = true -> noLF name = true -> noLF email = true -> noLF time = true ->
  noLF x = true -> noLF y = true ->
  forallb OutputParser.inert skipped = true ->
  OutputParser.stray l = true ->
  maxFiles <> 0%Z ->
  OutputParser.parseLog
    (unlines (metadata hash name email time
              ++ ("diff --git" ++ x) :: skipped ++ [("diff --git" ++ y); l])
     ++ more)
    end_ maxFiles maxBytes
  = Ret ([Some (mkCommit hash name email time EmptyString [])],
         Some (OutputParser.UnexpectedLine l hash)).
Proof.
  intros Hh Hn He Ht Hx Hy Hs Hl Hm. unfold OutputParser.parseLog.
  set (data := unlines _ ++ more).
  assert (E : data = unlines (metadata hash name email time)
                     ++ ("diff --git" ++ x)
                     ++ String LF (unlines skipped
                                   ++ ("diff --git" ++ y)
                                   ++ String LF (l ++ String LF more))).
  { unfold data. rewrite unlines_app. cbn [unlines]. rewrite unlines_app. cbn [unlines].
    string_norm. reflexivity. }
  assert (Hlen : exists f, len data + 2 = 4 + S (List.length skipped + S f)).
  { exists (len data - List.length skipped - 4). rewrite E. rewrite !len_app.
    pose proof (unlines_len (metadata hash name email time)) as H1.
    pose proof (unlines_len skipped) as H2. cbn [metadata List.length] in H1.
    change (len (String LF ?s)) with (S (len s)). rewrite !len_app.
    change (len "diff --git") with 10. lia. }
  destruct Hlen as [f ->].
  set (r := NewReaderSize data end_ maxBytes).
  rewrite (OutputParser_loopCommits_metadata _ maxFiles initialState r _ _ _ _ _
             Hh Hn He Ht E).
  cbn [OutputParser.loopCommits].
  erewrite (ReadString_line _ ("diff --git" ++ x)); [|exact Hx|reflexivity].
  rewrite chomp_line. cbn [append].
  change (Ascii.eqb "d" "c") with false. change (Ascii.eqb "d" "a") with false.
  change (Ascii.eqb "d" "m") with false. change (Ascii.eqb "d" "t") with false.
  cbv iota. rewrite withPending_withPending. unfold OutputParser.loopDiff at 1.
  change (HasPrefix (String "d" (String "i" (String "f" (String "f" (String " "
            (String "-" (String "-" (String "g" (String "i" (String "t" x))))))))))
            "diff --git") with (HasPrefix x EmptyString).
  rewrite HasPrefix_empty. cbn [negb]. unfold lenFiles.
  rewrite (loadCommit_last (commits initialState) (heap initialState) _
             (headerParsed initialState)).
  cbn [bind Files List.length].
  assert (Hcap : (if (maxFiles >? -1)%Z
                  then Ret (Z.of_nat 0 >=? maxFiles)%Z
                  else Ret false) = Ret false).
  { destruct (Z.gtb_spec maxFiles (-1)); [|reflexivity].
    f_equal. rewrite Z.geb_leb. apply Z.leb_gt. simpl. lia. }
  rewrite Hcap. cbn [bind].
  match goal with
  | |- context [OutputParser.currFileLoop _ emptyFile ?rd] =>
      destruct (OutputParser_currFileLoop_inert_all skipped (S f) emptyFile rd
                  (("diff --git" ++ y) ++ String LF (l ++ String LF more)) Hs eq_refl)
        as [cf ->]
  end.
  erewrite (OutputParser_currFileLoop_diff f cf _ y (l ++ String LF more));
    [|exact Hy|reflexivity].
  cbn [bind]. rewrite withPending_withPending, Nat.add_succ_r.
  cbn [OutputParser.loopCommits].
  unfold OutputParser.stray in Hl.
  apply andb_true_iff in Hl. destruct Hl as [Hl Hd].
  apply andb_true_iff in Hl. destruct Hl as [Hnl Hc].
  apply negb_true_iff in Hd.
  erewrite (ReadString_line _ l more); [|exact Hnl|reflexivity]. rewrite chomp_line.
  destruct l as [|c l]; [discriminate|].
  apply negb_true_iff in Hc. repeat (apply orb_false_iff in Hc; destruct Hc as [Hc ?]).
  repeat match goal with H : Ascii.eqb c _ = false |- _ => rewrite H; clear H end.
  unfold OutputParser.loopDiff. rewrite Hd. cbn [negb].
  unfold appendCommit at 1.
  cbn [commits heap currentCommit headerParsed].
  rewrite loadCommit_last. cbn [bind Hash]. reflexivity.
Qed.

Lemma OutputParser_parseLog_second_diff_witness :
  OutputParser.parseLog
    (unlines (metadata "h2" "n" "e" "2"
              ++ ("diff --git" ++ " a/x b/x")
                 :: ["--- a/x"; "+++ b/x"; "@@ -1 +1 @@"; "-a"; "+b"]
                    ++ ["diff --git" ++ " a/y b/y"; "--- a/y"])
     ++ unlines ["+++ b/y"; "@@ -1 +1 @@"; "-c"; "+d"; ""])
    EOF 10 100
  = Ret ([Some (mkCommit "h2" "n" "e" "2" "" [])],
         Some (OutputParser.UnexpectedLine "--- a/y" "h2")).
Proof.
  apply (OutputParser_parseLog_second_diff "h2" "n" "e" "2" " a/x b/x" " a/y b/y" "--- a/y"
           ["--- a/x"; "+++ b/x"; "@@ -1 +1 @@"; "-a"; "+b"]
           (unlines ["+++ b/y"; "@@ -1 +1 @@"; "-c"; "+d"; ""]) EOF 10 100);
    try reflexivity. discriminate.
Defined.

(** ** The caps *)

Lemma ReadString_resized (n : nat) (r : Reader) :
  ReadString (OutputParser.resized n r)
  = let '(l, e, r1) := ReadString r in (l, e, OutputParser.resized n r1).
Proof. unfold ReadString. simpl. destruct (cutLine (pending r)) as [[l rest]|]; reflexivity. Qed.

Lemma OutputParser_currFileLoop_resized (n : nat) (fuel : nat) :
  forall (cf : File) (r : Reader),
  OutputParser.currFileLoop fuel cf (OutputParser.resized n r)
  = (x <- OutputParser.currFileLoop fuel cf r ;; Ret (OutputParser.resizedExit n x)).
Proof.
  induction fuel as [|fuel IH]; intros cf r; [reflexivity|].
  cbn [OutputParser.currFileLoop]. rewrite ReadString_resized.
  destruct (ReadString r) as [[line e] r1].
  destruct e as [x|]; [destruct (isEOF x); reflexivity|].
  cbn [andb].
  destruct (HasPrefix line "diff --git"); [reflexivity|].
  destruct (HasPrefix line "old mode"); [apply IH|].
  destruct (HasPrefix line "new mode"); [apply IH|].
  destruct (HasPrefix line "index"); [apply IH|].
  destruct (HasPrefix line "similarity index"); [apply IH|].
  destruct (HasPrefix line "dissimilarity index"); [apply IH|].
  destruct (HasPrefix line "rename from ");
    [destruct (sliceFrom line 11); cbn [bind]; [apply IH|reflexivity|reflexivity]|].
  destruct (HasPrefix line "rename to ");
    [destruct (sliceFrom line 9); cbn [bind]; [apply IH|reflexivity|reflexivity]|].
  destruct (HasPrefix line "copy from ");
    [destruct (sliceFrom line 9); cbn [bind]; [apply IH|reflexivity|reflexivity]|].
  destruct (HasPrefix line "copy to ");
    [destruct (sliceFrom line 7); cbn [bind]; [apply IH|reflexivity|reflexivity]|].
  destruct (HasPrefix line "new file"); [apply IH|].
  destruct (HasPrefix line "deleted file"); [apply IH|].
  destruct (HasPrefix line "--- ").
  { destruct (sliceFrom line 4) as [a| |]; cbn [bind]; try reflexivity.
    destruct (HasPrefix a "a/"); [|destruct (IsDeleted cf)];
      try (destruct (sliceFrom a 2); cbn [bind]; try reflexivity); cbn [bind]; apply IH. }
  destruct (HasPrefix line "+++ "); [|apply IH].
  destruct (sliceFrom line 4) as [a| |]; cbn [bind]; try reflexivity.
  destruct (HasPrefix a "b/");
    try (destruct (sliceFrom a 2); cbn [bind]; try reflexivity); cbn [bind]; apply IH.
Qed.

Lemma OutputParser_loopCommits_resized (n : nat) (maxFiles : Z) (fuel : nat) :
  forall (st : state) (r : Reader),
  OutputParser.loopCommits fuel maxFiles st (OutputParser.resized n r)
  = OutputParser.loopCommits fuel maxFiles st r.
Proof.
  induction fuel as [|fuel IH]; intros st r; [reflexivity|].
  cbn [OutputParser.loopCommits]. rewrite ReadString_resized.
  destruct (ReadString r) as [[line e] r1].
  destruct e as [x|]; [reflexivity|].
  destruct (chomp line) as [|c l]; [reflexivity|].
  destruct (Ascii.eqb c "c").
  { destruct (sliceFrom (String c l) 2); cbn [bind]; try reflexivity. apply IH. }
  destruct (Ascii.eqb c "a").
  { destruct (assignField st setAuthorName (String c l)); cbn [bind]; try reflexivity.
    apply IH. }
  destruct (Ascii.eqb c "m").
  { destruct (assignField st setAuthorEmail (String c l)); cbn [bind]; try reflexivity.
    apply IH. }
  destruct (Ascii.eqb c "t").
  { destruct (assignField st setTimestamp (String c l)); cbn [bind]; try reflexivity.
    apply IH. }
  unfold OutputParser.loopDiff.
  destruct (negb (HasPrefix (String c l) "diff --git")); [reflexivity|].
  destruct (if (maxFiles >? -1)%Z
            then n0 <- lenFiles st ;; Ret (Z.of_nat n0 >=? maxFiles)%Z
            else Ret false) as [[|]| |]; cbn [bind]; try reflexivity.
  - exact (IH (appendCommit st) (discardAll r1)).
  - rewrite OutputParser_currFileLoop_resized.
    destruct (OutputParser.currFileLoop fuel emptyFile r1) as [[e|r2]| |];
      cbn [bind OutputParser.resizedExit]; try reflexivity.
    apply IH.
Qed.

(** X23. The byte cap has no effect on what this [parseLog] returns: it sizes the
    buffer of the reader, and every read is a [ReadString], which returns
    whole lines whatever the size of the buffer. *)
Theorem OutputParser_parseLog_ignores_maxBytes (data : string) (end_ : error)
  (maxFiles maxBytes maxBytes' : Z) :
  OutputParser.parseLog data end_ maxFiles maxBytes
  = OutputParser.parseLog data end_ maxFiles maxBytes'.
Proof.
  unfold OutputParser.parseLog.
  change (NewReaderSize data end_ maxBytes)
    with (OutputParser.resized (capacity (NewReaderSize data end_ maxBytes))
            (NewReaderSize data end_ maxBytes')).
  rewrite OutputParser_loopCommits_resized. reflexivity.
Qed.

Lemma noFiles_lenFiles (st : state) (c : Commit) :
  OutputParser.noFiles st -> loadCommit st = Ret c -> lenFiles st = Ret 0.
Proof.
  intros H Hc. unfold lenFiles. rewrite Hc. cbn [bind].
  apply loadCommit_In in Hc. unfold OutputParser.noFiles in H.
  rewrite Forall_forall in H. rewrite (H c Hc). reflexivity.
Qed.

Lemma OutputParser_loopDiff_maxFiles (fuel : nat) (m1 m2 : Z) (st : state)
  (line : string) (r : Reader) :
  (0 < m1)%Z -> (0 < m2)%Z -> OutputParser.noFiles st ->
  OutputParser.loopDiff fuel m1 st line r = OutputParser.loopDiff fuel m2 st line r.
Proof.
  intros H1 H2 Hst. unfold OutputParser.loopDiff.
  destruct (negb (HasPrefix line "diff --git")); [reflexivity|].
  destruct (Z.gtb_spec m1 (-1)); [|lia]. destruct (Z.gtb_spec m2 (-1)); [|lia].
  destruct (loadCommit st) as [c|p|] eqn:Ec.
  - rewrite (noFiles_lenFiles st c Hst Ec). cbn [bind].
    rewrite !Z.geb_leb. destruct (Z.leb_spec m1 (Z.of_nat 0)); [simpl in *; lia|].
    destruct (Z.leb_spec m2 (Z.of_nat 0)); [simpl in *; lia|]. reflexivity.
  - unfold lenFiles. rewrite Ec. reflexivity.
  - unfold lenFiles. rewrite Ec. reflexivity.
Qed.

Lemma OutputParser_loopCommits_maxFiles (m1 m2 : Z) (fuel : nat) :
  (0 < m1)%Z -> (0 < m2)%Z ->
  forall (st : state) (r : Reader),
  OutputParser.noFiles st ->
  OutputParser.loopCommits fuel m1 st r = OutputParser.loopCommits fuel m2 st r.
Proof.
  intros H1 H2. induction fuel as [|fuel IH]; intros st r Hst; [reflexivity|].
  cbn [OutputParser.loopCommits].
  destruct (ReadString r) as [[line e] r1].
  destruct e as [x|]; [reflexivity|].
  destruct (chomp line) as [|c l]; [reflexivity|].
  destruct (Ascii.eqb c "c").
  { destruct (sliceFrom (String c l) 2); cbn [bind]; try reflexivity.
    apply IH. apply noFiles_newCommit. exact Hst. }
  destruct (Ascii.eqb c "a").
  { destruct (assignField st setAuthorName (String c l)) eqn:Ea; cbn [bind];
      try reflexivity.
    apply IH. eapply noFiles_assignField; [|exact Hst|exact Ea]. reflexivity. }
  destruct (Ascii.eqb c "m").
  { destruct (assignField st setAuthorEmail (String c l)) eqn:Ea; cbn [bind];
      try reflexivity.
    apply IH. eapply noFiles_assignField; [|exact Hst|exact Ea]. reflexivity. }
  destruct (Ascii.eqb c "t").
  { destruct (assignField st setTimestamp (String c l)) eqn:Ea; cbn [bind];
      try reflexivity.
    apply IH. eapply noFiles_assignField; [|exact Hst|exact Ea]. reflexivity. }
  rewrite (OutputParser_loopDiff_maxFiles fuel m1 m2 st (String c l) r1 H1 H2 Hst).
  destruct (OutputParser.loopDiff fuel m2 st (String c l) r1) as [[f|r2]| |];
    cbn [bind]; try reflexivity.
  apply IH. exact Hst.
Qed.

(** X24. A cap of one file or more has no effect on what this [parseLog] returns:
    the commits never have a file record, so the cap is never reached. *)
Theorem OutputParser_parseLog_ignores_maxFiles (data : string) (end_ : error)
  (maxFiles maxFiles' maxBytes : Z) :
  (0 < maxFiles)%Z -> (0 < maxFiles')%Z ->
  OutputParser.parseLog data end_ maxFiles maxBytes
  = OutputParser.parseLog data end_ maxFiles' maxBytes.
Proof.
  intros H1 H2. unfold OutputParser.parseLog.
  rewrite (OutputParser_loopCommits_maxFiles maxFiles maxFiles' _ H1 H2);
    [reflexivity|constructor].
Qed.

Lemma OutputParser_parseLog_ignores_maxFiles_witness :
  OutputParser.parseLog (unlines (metadata "h1" "n" "e" "1" ++ edit "x" ++ edit "y")) EOF 1 100
  = OutputParser.parseLog (unlines (metadata "h1" "n" "e" "1" ++ edit "x" ++ edit "y")) EOF 2 100.
Proof.
  apply (OutputParser_parseLog_ignores_maxFiles
           (unlines (metadata "h1" "n" "e" "1" ++ edit "x" ++ edit "y")) EOF 1 2 100); lia.
Defined.

(** * ParseCsv *)

Lemma checkRows_none (rows : list (list string)) (numColumns : nat) :
  forall i, checkRows rows numColumns i = None ->
  Forall (fun row => List.length row = numColumns) rows.
Proof.
  induction rows as [|row rows IH]; intros i H; [constructor|].
  cbn [checkRows] in H. destruct (Nat.eqb_spec (List.length row) numColumns); [|discriminate].
  constructor; [assumption|]. exact (IH _ H).
Qed.

Lemma checkRows_some (rows : list (list string)) (numColumns : nat) :
  forall i k, checkRows rows numColumns i = Some k ->
  i <= k
  /\ (exists row, nth_error rows (k - i) = Some row /\ List.length row <> numColumns)
  /\ (forall j row, j < k - i -> nth_error rows j = Some row ->
                    List.length row = numColumns).
Proof.
  induction rows as [|row rows IH]; intros i k H; [discriminate|].
  cbn [checkRows] in H. destruct (Nat.eqb_spec (List.length row) numColumns) as [Hr|Hr].
  - destruct (IH _ _ H) as (Hle & (row' & Hn & Hl) & Hbefore).
    split; [lia|]. replace (k - i) with (S (k - S i)) by lia. split.
    + exists row'. split; assumption.
    + intros [|j] row0 Hj Hrow; simpl in Hrow.
      * injection Hrow as <-. exact Hr.
      * apply (Hbefore j); [lia|exact Hrow].
  - inversion H; subst. split; [lia|]. rewrite Nat.sub_diag. split.
    + exists row. split; [reflexivity|exact Hr].
    + intros j row0 Hj. lia.
Qed.

(** X25. What [ParseCsv] returns without error is rectangular: the records of the
    reader, the first as header and the others as rows, every row with as many
    fields as the header; the file is kept as it is. *)
Theorem ParseCsv_rectangular (readAll : string -> list (list string) * option nat)
  (file : File) (csv : CsvFile) (e : option csvFailure) :
  ParseCsv readAll file = Ret (Some csv, e) ->
  e = None
  /\ csvFile csv = file
  /\ readAll (Content file) = (Header csv :: Rows csv, None)
  /\ Forall (fun row => List.length row = List.length (Header csv)) (Rows csv).
Proof.
  unfold ParseCsv. destruct (readAll (Content file)) as [records [err|]]; [discriminate|].
  destruct records as [|header rows]; [discriminate|].
  cbn [index nth_error bind skipn].
  destruct (checkRows rows (List.length header) 1) eqn:E; [discriminate|].
  intros [= <- <-]. cbn [csvFile Header Rows]. repeat split.
  exact (checkRows_none _ _ _ E).
Qed.

Lemma ParseCsv_rectangular_witness :
  Forall (fun row : list string => List.length row = List.length ["a"; "b"])
         [["1"; "2"]; ["3"; "4"]].
Proof.
  apply (ParseCsv_rectangular
           (fun _ => ([["a"; "b"]; ["1"; "2"]; ["3"; "4"]], None))
           emptyFile (mkCsvFile emptyFile ["a"; "b"] [["1"; "2"]; ["3"; "4"]]) None).
  reflexivity.
Defined.

(** X26. The error of [ParseCsv] about an invalid row names the first record after
    the header that has not as many fields as the header. *)
Theorem ParseCsv_invalid_row (readAll : string -> list (list string) * option nat)
  (file : File) (r : option CsvFile) (i : nat) :
  ParseCsv readAll file = Ret (r, Some (InvalidRow i)) ->
  r = None
  /\ 1 <= i
  /\ exists records header row,
       readAll (Content file) = (records, None)
       /\ nth_error records 0 = Some header
       /\ nth_error records i = Some row
       /\ List.length row <> List.length header
       /\ forall j row', 1 <= j < i -> nth_error records j = Some row' ->
                         List.length row' = List.length header.
Proof.
  unfold ParseCsv. destruct (readAll (Content file)) as [records [err|]]; [discriminate|].
  destruct records as [|header rows]; [discriminate|].
  cbn [index nth_error bind skipn].
  destruct (checkRows rows (List.length header) 1) as [k|] eqn:E; [|discriminate].
  intros [= <- <-].
  destruct (checkRows_some _ _ _ _ E) as (Hle & (row & Hn & Hl) & Hbefore).
  split; [reflexivity|]. split; [exact Hle|].
  exists (header :: rows), header, row. repeat split; try assumption.
  - destruct k as [|k]; [lia|]. simpl. simpl in Hn. rewrite Nat.sub_0_r in Hn. exact Hn.
  - intros [|j] row' Hj Hrow; [lia|]. simpl in Hrow.
    apply (Hbefore j); [lia|exact Hrow].
Qed.

Lemma ParseCsv_invalid_row_witness :
  @None CsvFile = None /\ 1 <= 2.
Proof.
  pose proof (ParseCsv_invalid_row
                (fun _ => ([["a"; "b"]; ["1"; "2"]; ["3"]], None)) emptyFile None 2
                eq_refl) as H.
  split; [exact (proj1 H)|exact (proj1 (proj2 H))].
Defined.

(** [ParseCsv] panics when the reader returns no record and no error, as it
    does for an empty content: [records[0]] is out of range. *)
Remark ParseCsv_no_record (readAll : string -> list (list string) * option nat)
  (file : File) :
  readAll (Content file) = ([], None) ->
  ParseCsv readAll file = Panic IndexOutOfRange.
Proof. intros H. unfold ParseCsv. rewrite H. reflexivity. Qed.

(** * parseLog2 *)

(** ** The lines it reads *)

Lemma cutLine_shape (s : string) :
  match cutLine s with
  | Some (l, _) => exists l0, l = l0 ++ String LF EmptyString /\ noLF l0 = true
  | None => noLF s = true
  end.
Proof.
  induction s as [|c s IH]; [reflexivity|]. cbn [cutLine noLF].
  destruct (Ascii.eqb c LF) eqn:Ec.
  - apply Ascii.eqb_eq in Ec. subst c. exists EmptyString. split; reflexivity.
  - destruct (cutLine s) as [[l rest]|].
    + destruct IH as (l0 & -> & Hl0). exists (String c l0). split; [reflexivity|].
      simpl. rewrite Ec, Hl0. reflexivity.
    + simpl. exact IH.
Qed.

Lemma ReadString_shape (r r' : Reader) (l : string) (e : option error) :
  ReadString r = (l, e, r') ->
  (exists l0, l = l0 ++ String LF EmptyString /\ noLF l0 = true) \/ noLF l = true.
Proof.
  unfold ReadString. pose proof (cutLine_shape (pending r)) as H.
  destruct (cutLine (pending r)) as [[l1 rest]|]; intros [= <- <- <-]; auto.
Qed.

Lemma ReadString_dropLast_noLF (r r' : Reader) (l : string) (e : option error) :
  ReadString r = (l, e, r') -> noLF (dropLast l) = true.
Proof.
  intros H. destruct (ReadString_shape _ _ _ _ H) as [(l0 & -> & Hl0)|Hl].
  - rewrite dropLast_app. exact Hl0.
  - apply noLF_dropLast. exact Hl.
Qed.

Lemma lastByte_noLF (l : string) (c : ascii) :
  noLF l = true -> lastByte l = Some c -> Ascii.eqb c LF = false.
Proof.
  induction l as [|a l IH]; [discriminate|]. intros H Hc. simpl in H.
  apply andb_true_iff in H. destruct H as [Ha Hl]. apply negb_true_iff in Ha.
  destruct l as [|b l]; [injection Hc as <-; exact Ha|]. exact (IH Hl Hc).
Qed.

Lemma ReadString_chomp_noLF (r r' : Reader) (l : string) (e : option error) :
  ReadString r = (l, e, r') -> noLF (chomp l) = true.
Proof.
  intros H. pose proof (ReadString_dropLast_noLF _ _ _ _ H) as Hd.
  destruct (ReadString_shape _ _ _ _ H) as [(l0 & -> & Hl0)|Hl].
  - rewrite chomp_line. exact Hl0.
  - unfold chomp. destruct (lastByte l) as [c|]; [|exact Hl].
    destruct (Ascii.eqb c LF || Ascii.eqb c CR); [exact Hd|exact Hl].
Qed.

Lemma readTrimmed_spec (r r' : Reader) (l : string) :
  readTrimmed r = Ret (l, r') ->
  noLF l = true /\ len (pending r') < len (pending r).
Proof.
  unfold readTrimmed. destruct (ReadString r) as [[l0 e] r1] eqn:E.
  pose proof (ReadString_dropLast_noLF _ _ _ _ E) as Hn.
  destruct (ReadString_spec _ _ _ _ E) as (_ & _ & H3).
  destruct l0 as [|c l0]; [discriminate|]. cbn [withoutLastByte bind].
  intros [= <- <-]. split; [exact Hn|].
  destruct e as [x|]; [|exact H3].
  destruct H3 as [_ H3]. rewrite H3.
  unfold ReadString in E. destruct (cutLine (pending r)) as [[l1 rest]|]; [discriminate|].
  injection E as E _ _. rewrite E. simpl. lia.
Qed.

Lemma readTrimmed_fuel (r : Reader) : readTrimmed r <> OutOfFuel.
Proof.
  unfold readTrimmed. destruct (ReadString r) as [[l e] r1].
  destruct l; discriminate.
Qed.

(** ** Termination *)

Lemma loadFile_fuel (s : log2) : loadFile s <> OutOfFuel.
Proof. unfold loadFile. destruct (currentFile s); discriminate. Qed.

Lemma flushFile_fuel (s : log2) : flushFile s <> OutOfFuel.
Proof. unfold flushFile. destruct (currentFile s); [apply appendFile_fuel|discriminate]. Qed.

Ltac no_fuel2 :=
  repeat first
    [ apply sliceFrom_fuel
    | apply assignField_fuel
    | apply loadCommit_fuel
    | apply loadFile_fuel
    | apply flushFile_fuel
    | apply readTrimmed_fuel
    | discriminate
    | apply bind_fuel; [|intros ?]
    | match goal with |- (if ?b then _ else _) <> OutOfFuel => destruct b end ].

Lemma filesLoop_terminates (maxBytes : Z) (fuel : nat) :
  forall (s : log2) (line : string) (r : Reader),
  (line = EmptyString /\ 1 <= fuel) \/ len (pending r) + 2 <= fuel ->
  terminates (fun x => len (pending (snd x)) <= len (pending r))
             (filesLoop fuel maxBytes s line r).
Proof.
  induction fuel as [|fuel IH]; intros s line r Hf; [lia|].
  cbn [filesLoop]. destruct line as [|c line].
  { cbn [len String.length Nat.eqb].
    apply terminates_bind_pure; [no_fuel2|intros st _]. simpl. lia. }
  change (len (String c line) =? 0)%nat with false. cbv iota.
  destruct Hf as [[Hf _]|Hf]; [discriminate|].
  destruct (HasPrefix (String c line) "diff --git").
  { apply terminates_bind_pure; [no_fuel2|intros st _].
    apply terminates_bind_pure; [no_fuel2|intros [l r1] Hr].
    destruct (readTrimmed_spec _ _ _ Hr) as [_ Hlt]. cbn [fst snd].
    eapply terminates_weaken; [apply IH; right; lia|].
    intros x Hx. simpl in Hx. lia. }
  apply terminates_bind_pure; [no_fuel2|intros s1 _].
  apply terminates_bind_pure; [no_fuel2|intros s2 _].
  apply terminates_bind_pure; [no_fuel2|intros s3 _].
  destruct (ReadString r) as [[l e] r1] eqn:E.
  destruct (ReadString_spec _ _ _ _ E) as (_ & _ & H3).
  destruct e as [x|].
  - destruct H3 as [_ H3].
    eapply terminates_weaken; [apply IH|].
    + unfold ReadString in E.
      destruct (cutLine (pending r)) as [[l1 rest]|]; [discriminate|].
      injection E as E _ _. rewrite H3. simpl.
      destruct l as [|d l]; [left; split; [reflexivity|lia]|].
      right. rewrite E in Hf. simpl in Hf. lia.
    + intros y Hy. simpl in Hy. rewrite H3 in Hy. simpl in Hy. lia.
  - eapply terminates_weaken; [apply IH; right; lia|].
    intros y Hy. simpl in Hy. lia.
Qed.

Lemma bind_fuel_eq {A B : Type} (m : outcome A) (k : A -> outcome B) :
  m <> OutOfFuel -> (forall a, m = Ret a -> k a <> OutOfFuel) -> bind m k <> OutOfFuel.
Proof. destruct m; simpl; intros H1 H2; [apply H2; reflexivity|discriminate|congruence]. Qed.

Lemma commitsLoop_terminates (maxBytes : Z) (fuel : nat) :
  forall (s : log2) (scanNext : bool) (r : Reader),
  len (pending r) + 2 <= fuel ->
  commitsLoop fuel maxBytes s scanNext r <> OutOfFuel.
Proof.
  induction fuel as [|fuel IH]; intros s scanNext r Hf; [lia|].
  cbn [commitsLoop].
  destruct (ReadString r) as [[line e] r0] eqn:E.
  destruct (scanNext && match e with Some x => isEOF x | None => false end);
    [discriminate|].
  assert (H0 : sliceFrom line 2 = Panic SliceOutOfRange
               \/ len (pending r0) + 2 <= len (pending r)).
  { unfold sliceFrom, slice. destruct (Nat.leb_spec 2 (len line)) as [H2|H2];
      [right|left; reflexivity].
    unfold ReadString in E. destruct (cutLine (pending r)) as [[l1 rest]|] eqn:Ec.
    - injection E as <- <- <-. destruct (cutLine_len _ _ _ Ec) as [Hs _]. simpl. lia.
    - injection E as <- <- <-. simpl. lia. }
  destruct H0 as [->|H0]; [discriminate|].
  apply bind_fuel_eq; [no_fuel2|intros hash _].
  apply bind_fuel_eq; [no_fuel2|intros [l1 r1] E1].
  destruct (readTrimmed_spec _ _ _ E1) as [_ H1]. cbn [fst snd].
  apply bind_fuel_eq; [no_fuel2|intros st1 _].
  apply bind_fuel_eq; [no_fuel2|intros [l2 r2] E2].
  destruct (readTrimmed_spec _ _ _ E2) as [_ H2]. cbn [fst snd].
  apply bind_fuel_eq; [no_fuel2|intros st2 _].
  apply bind_fuel_eq; [no_fuel2|intros [l3 r3] E3].
  destruct (readTrimmed_spec _ _ _ E3) as [_ H3]. cbn [fst snd].
  apply bind_fuel_eq; [no_fuel2|intros st3 _].
  apply bind_fuel_eq; [no_fuel2|intros [l4 r4] E4].
  destruct (readTrimmed_spec _ _ _ E4) as [_ H4]. cbn [fst snd].
  destruct l4 as [|c l4]; [discriminate|].
  destruct (negb (Ascii.eqb c " ")); [apply IH; lia|].
  apply bind_fuel_eq; [no_fuel2|intros changed _].
  apply bind_fuel_eq; [no_fuel2|intros c0 _].
  apply bind_fuel_eq; [no_fuel2|intros [l5 r5] E5].
  destruct (readTrimmed_spec _ _ _ E5) as [_ H5]. cbn [fst snd].
  apply bind_fuel_eq; [no_fuel2|intros [l6 r6] E6].
  destruct (readTrimmed_spec _ _ _ E6) as [_ H6]. cbn [fst snd].
  pose proof (filesLoop_terminates maxBytes fuel
                (mkLog2 (storeCommit st3 (setChanged c0
                           (ReplaceAll (ReplaceAll changed "(+)" EmptyString)
                              "(-)" EmptyString)))
                        None (isContent s) (bytesRead s))
                l6 r6 ltac:(right; lia)) as Ht.
  destruct (filesLoop fuel maxBytes _ l6 r6) as [[s' r']| |]; cbn [bind];
    [|discriminate|contradiction].
  simpl in Ht. apply IH. simpl. lia.
Qed.

(** X27. The loop bound of [parseLog2] is never reached: each run returns its
    commits or panics. *)
Theorem parseLog2_total (data : string) (end_ : error) (maxBytes : Z) :
  parseLog2 data end_ maxBytes <> OutOfFuel.
Proof.
  unfold parseLog2. apply bind_fuel; [|discriminate].
  apply commitsLoop_terminates. simpl. lia.
Qed.

(** ** The byte cap *)

Lemma allFiles_store_any (Q : File -> Prop) (st : state) (c : Commit) :
  allFiles Q st -> Forall Q (Files c) -> allFiles Q (storeCommit st c).
Proof.
  unfold allFiles, storeCommit. intros H Hc.
  destruct (currentCommit st); simpl; [apply Forall_update; assumption|exact H].
Qed.

Lemma allFiles_load (Q : File -> Prop) (st : state) (c : Commit) :
  allFiles Q st -> loadCommit st = Ret c -> Forall Q (Files c).
Proof.
  intros H Ec. apply loadCommit_In in Ec. unfold allFiles in H.
  rewrite Forall_forall in H. apply H. exact Ec.
Qed.

Lemma allFiles_append_any (Q : File -> Prop) (st st' : state) (f : File) :
  allFiles Q st -> Q f -> appendFile st f = Ret st' -> allFiles Q st'.
Proof.
  intros H Hf E. unfold appendFile in E.
  destruct (loadCommit st) as [c| |] eqn:Ec; simpl in E; try discriminate.
  injection E as <-. apply allFiles_store_any; [exact H|].
  simpl. apply Forall_app. split; [|constructor; [exact Hf|constructor]].
  exact (allFiles_load Q st c H Ec).
Qed.

Lemma allFiles_assign_any (Q : File -> Prop) (st st' : state)
  (set : Commit -> string -> Commit) (line : string) :
  (forall c v, Files (set c v) = Files c) ->
  allFiles Q st -> assignField st set line = Ret st' -> allFiles Q st'.
Proof.
  intros Hset H E. unfold assignField in E.
  destruct (sliceFrom line 2) as [v| |]; simpl in E; try discriminate.
  destruct (loadCommit st) as [c| |] eqn:Ec; simpl in E; try discriminate.
  injection E as <-. apply allFiles_store_any; [exact H|].
  rewrite Hset. exact (allFiles_load Q st c H Ec).
Qed.

Lemma allFiles_newCommit (Q : File -> Prop) (st : state) (hash : string) :
  allFiles Q st -> allFiles Q (newCommit st hash).
Proof.
  unfold allFiles, newCommit. simpl. intros H.
  apply Forall_app. split; [exact H|]. constructor; constructor.
Qed.

Lemma allFiles_deref (Q : File -> Prop) (st : state) (c : Commit) (f : File) :
  allFiles Q st -> In (Some c) (deref st) -> In f (Files c) -> Q f.
Proof.
  intros H Hc Hf. unfold deref in Hc. apply in_map_iff in Hc.
  destruct Hc as ([p|] & Hp & _); [|discriminate].
  apply nth_error_In in Hp. unfold allFiles in H. rewrite Forall_forall in H.
  specialize (H c Hp). rewrite Forall_forall in H. apply H. exact Hf.
Qed.

Lemma payload_app (a b : string) : payload (a ++ b) = payload a + payload b.
Proof.
  induction a as [|c a IH]; [reflexivity|]. simpl. destruct (Ascii.eqb c LF); simpl; lia.
Qed.

Lemma payload_noLF (l : string) : noLF l = true -> payload l = len l.
Proof.
  induction l as [|c l IH]; [reflexivity|]. simpl. intros H.
  apply andb_true_iff in H. destruct H as [Hc Hl]. apply negb_true_iff in Hc.
  rewrite Hc, (IH Hl). reflexivity.
Qed.

Lemma counted_withinCap (maxBytes : Z) (f : File) (n : Z) :
  counted maxBytes f n -> withinCap maxBytes f.
Proof.
  unfold counted, withinCap. destruct (Truncated f).
  - intros [H _]. left. exact H.
  - intros [H [H1|H1]]; [left; exact H1|right; split; [reflexivity|lia]].
Qed.

(** One line of content more. *)
Lemma counted_line (maxBytes : Z) (f : File) (n : Z) (line : string) :
  counted maxBytes f n -> noLF line = true ->
  let f' := setContent f (Content f ++ line ++ String LF EmptyString) in
  let n' := (n + Z.of_nat (len line))%Z in
  if (n' >? maxBytes)%Z
  then counted maxBytes (setContent (setTruncated f' true) EmptyString) n'
  else counted maxBytes f' n'.
Proof.
  intros H Hl f' n'. subst f' n'.
  destruct (Z.gtb_spec (n + Z.of_nat (len line)) maxBytes) as [Hgt|Hle].
  - unfold counted. simpl. split; [reflexivity|lia].
  - unfold counted in *. simpl. destruct (Truncated f).
    + destruct H as [_ H]. lia.
    + destruct H as [H _]. split; [|right; exact Hle].
      rewrite !payload_app, (payload_noLF _ Hl). simpl. lia.
Qed.

Lemma flushFile_ok (maxBytes : Z) (s : log2) (st : state) :
  log2ok maxBytes s -> flushFile s = Ret st -> allFiles (withinCap maxBytes) st.
Proof.
  intros [H1 H2]. unfold flushFile. destruct (currentFile s) as [f|].
  - intros E. eapply allFiles_append_any; [exact H1| |exact E].
    eapply counted_withinCap. apply H2. reflexivity.
  - intros [= <-]. exact H1.
Qed.

Lemma filesLoop_ok (maxBytes : Z) (fuel : nat) :
  forall (s s' : log2) (line : string) (r r' : Reader),
  log2ok maxBytes s -> noLF line = true ->
  filesLoop fuel maxBytes s line r = Ret (s', r') ->
  log2ok maxBytes s'.
Proof.
  induction fuel as [|fuel IH]; intros s s' line r r' Hs Hl H; [discriminate|].
  cbn [filesLoop] in H. destruct (len line =? 0)%nat.
  { destruct (flushFile s) as [st| |] eqn:Ef; cbn [bind] in H; try discriminate.
    injection H as <- _. split; [exact (flushFile_ok _ _ _ Hs Ef)|exact (proj2 Hs)]. }
  destruct (HasPrefix line "diff --git").
  { destruct (flushFile s) as [st| |] eqn:Ef; cbn [bind] in H; try discriminate.
    destruct (readTrimmed r) as [[l r1]| |] eqn:Er; cbn [bind fst snd] in H;
      try discriminate.
    destruct (readTrimmed_spec _ _ _ Er) as [Hn _].
    refine (IH _ _ _ _ _ _ Hn H). split; [exact (flushFile_ok _ _ _ Hs Ef)|].
    cbn [currentFile bytesRead]. intros f [= <-].
    destruct (filenameRegex line) as [[g1 g2]|]; [destruct (String.eqb g1 g2)|];
      unfold counted; simpl; auto. }
  assert (Hflag : forall (b : bool) (set : File -> bool -> File) (t : log2),
             (forall f, Content (set f true) = Content f
                        /\ Truncated (set f true) = Truncated f) ->
             log2ok maxBytes t ->
             forall t',
             (if b then
                f <- loadFile t ;;
                Ret (mkLog2 (store t) (Some (set f true)) (isContent t) (bytesRead t))
              else Ret t) = Ret t' ->
             log2ok maxBytes t').
  { intros b set t Hset Ht t'. destruct b; [|intros [= <-]; exact Ht].
    unfold loadFile. destruct (currentFile t) as [f|] eqn:Ef; cbn [bind]; [|discriminate].
    intros [= <-]. split; [exact (proj1 Ht)|]. cbn [currentFile bytesRead].
    intros f' [= <-]. pose proof (proj2 Ht f Ef) as Hc. unfold counted in *.
    destruct (Hset f) as [-> ->]. exact Hc. }
  match type of H with
  | bind ?m _ = _ => destruct m as [s1| |] eqn:E1; cbn [bind] in H; try discriminate
  end.
  apply (Hflag _ setIsCreated s (fun f => conj eq_refl eq_refl) Hs) in E1.
  match type of H with
  | bind ?m _ = _ => destruct m as [s2| |] eqn:E2; cbn [bind] in H; try discriminate
  end.
  apply (Hflag _ setIsDeleted s1 (fun f => conj eq_refl eq_refl) E1) in E2.
  set (s3 := if startsAt line
             then mkLog2 (store s2) (currentFile s2) true (bytesRead s2)
             else s2) in H.
  assert (H3 : log2ok maxBytes s3).
  { subst s3. destruct (startsAt line); exact E2. }
  clearbody s3.
  match type of H with
  | bind ?m _ = _ => destruct m as [s4| |] eqn:E4; cbn [bind] in H; try discriminate
  end.
  assert (H4 : log2ok maxBytes s4).
  { destruct (isContent s3); [|injection E4 as <-; exact H3].
    unfold loadFile in E4. destruct (currentFile s3) as [f|] eqn:Ef; cbn [bind] in E4;
      [|discriminate].
    pose proof (counted_line maxBytes f (bytesRead s3) line (proj2 H3 f Ef) Hl) as Hc.
    cbv zeta in Hc.
    destruct (bytesRead s3 + Z.of_nat (len line) >? maxBytes)%Z;
      injection E4 as <-; (split; [exact (proj1 H3)|]);
      cbn [currentFile bytesRead]; intros f' [= <-]; exact Hc. }
  destruct (ReadString r) as [[l e] r1] eqn:Er.
  exact (IH _ _ _ _ _ H4 (ReadString_chomp_noLF _ _ _ _ Er) H).
Qed.

Lemma commitsLoop_ok (maxBytes : Z) (fuel : nat) :
  forall (s s' : log2) (scanNext : bool) (r : Reader),
  log2ok maxBytes s ->
  commitsLoop fuel maxBytes s scanNext r = Ret s' ->
  allFiles (withinCap maxBytes) (store s').
Proof.
  induction fuel as [|fuel IH]; intros s s' scanNext r Hs H; [discriminate|].
  cbn [commitsLoop] in H.
  destruct (ReadString r) as [[line e] r0].
  destruct (scanNext && match e with Some x => isEOF x | None => false end).
  { injection H as <-. exact (proj1 Hs). }
  destruct (sliceFrom line 2) as [hash| |]; cbn [bind] in H; try discriminate.
  pose proof (allFiles_newCommit _ _ hash (proj1 Hs)) as H0.
  destruct (readTrimmed r0) as [[l1 r1]| |]; cbn [bind fst snd] in H; try discriminate.
  destruct (assignField _ setAuthorName l1) as [st1| |] eqn:E1; cbn [bind] in H;
    try discriminate.
  apply (allFiles_assign_any _ _ _ setAuthorName _ (fun _ _ => eq_refl) H0) in E1.
  destruct (readTrimmed r1) as [[l2 r2]| |]; cbn [bind fst snd] in H; try discriminate.
  destruct (assignField _ setAuthorEmail l2) as [st2| |] eqn:E2; cbn [bind] in H;
    try discriminate.
  apply (allFiles_assign_any _ _ _ setAuthorEmail _ (fun _ _ => eq_refl) E1) in E2.
  destruct (readTrimmed r2) as [[l3 r3]| |]; cbn [bind fst snd] in H; try discriminate.
  destruct (assignField _ setTimestamp l3) as [st3| |] eqn:E3; cbn [bind] in H;
    try discriminate.
  apply (allFiles_assign_any _ _ _ setTimestamp _ (fun _ _ => eq_refl) E2) in E3.
  destruct (readTrimmed r3) as [[l4 r4]| |]; cbn [bind fst snd] in H; try discriminate.
  destruct l4 as [|c l4].
  { injection H as <-. exact E3. }
  destruct (negb (Ascii.eqb c " ")).
  { refine (IH _ _ _ _ _ H). split; [exact E3|]. intros f. discriminate. }
  destruct (sliceFrom (String c l4) 1) as [changed| |]; cbn [bind] in H; try discriminate.
  destruct (loadCommit st3) as [c0| |] eqn:Ec; cbn [bind] in H; try discriminate.
  destruct (readTrimmed r4) as [[l5 r5]| |]; cbn [bind fst snd] in H; try discriminate.
  destruct (readTrimmed r5) as [[l6 r6]| |] eqn:E6; cbn [bind fst snd] in H;
    try discriminate.
  destruct (readTrimmed_spec _ _ _ E6) as [Hn _].
  match type of H with
  | bind ?m _ = _ => destruct m as [[s1 r7]| |] eqn:Ef; cbn [bind fst snd] in H;
                     try discriminate
  end.
  apply filesLoop_ok in Ef; [|split|exact Hn].
  - refine (IH _ _ _ _ _ H). split; [exact (proj1 Ef)|exact (proj2 Ef)].
  - apply allFiles_store_any; [exact E3|]. exact (allFiles_load _ _ _ E3 Ec).
  - intros f. discriminate.
Qed.

(** X28. The byte cap of [parseLog2] holds for every file record it returns: the
    content is empty, or the record is not marked and its content has no more
    than [maxBytes] bytes, line feeds not counted. A record that is marked has
    an empty content. *)
Theorem parseLog2_within_cap (data : string) (end_ : error) (maxBytes : Z)
  (cs : list (option Commit)) (c : Commit) (f : File) :
  parseLog2 data end_ maxBytes = Ret cs ->
  In (Some c) cs -> In f (Files c) ->
  (Content f = EmptyString
   \/ (Truncated f = false /\ (Z.of_nat (payload (Content f)) <= maxBytes)%Z))
  /\ (Truncated f = true -> Content f = EmptyString).
Proof.
  unfold parseLog2. intros H Hc Hf.
  destruct (commitsLoop _ _ _ _ _) as [s| |] eqn:E; cbn [bind] in H; try discriminate.
  injection H as <-.
  assert (H0 : log2ok maxBytes (mkLog2 initialState None false 0)).
  { split; [constructor|]. intros f0. discriminate. }
  pose proof (allFiles_deref _ _ _ _ (commitsLoop_ok _ _ _ _ _ _ H0 E) Hc Hf) as Hw.
  split; [exact Hw|]. intros Ht. destruct Hw as [Hw|[Hw _]]; [exact Hw|congruence].
Qed.

Lemma parseLog2_within_cap_witness :
  (Content (mkFile "x" 0 "" "" (unlines ["@@ -1 +1 @@"; "-a"; "+b"]) false false false)
   = EmptyString
   \/ (Truncated (mkFile "x" 0 "" "" (unlines ["@@ -1 +1 @@"; "-a"; "+b"]) false false false)
       = false
       /\ (Z.of_nat (payload (Content (mkFile "x" 0 "" ""
                                        (unlines ["@@ -1 +1 @@"; "-a"; "+b"])
                                        false false false)))
           <= 15)%Z))
  /\ (Truncated (mkFile "x" 0 "" "" (unlines ["@@ -1 +1 @@"; "-a"; "+b"]) false false false)
      = true ->
      Content (mkFile "x" 0 "" "" (unlines ["@@ -1 +1 @@"; "-a"; "+b"]) false false false)
      = EmptyString).
Proof.
  apply (parseLog2_within_cap
           (unlines (metadata "h1" "n" "e" "1"
                     ++ [" 1 file changed, 1 insertion(+), 1 deletion(-)"; ""]
                     ++ edit "x" ++ [""]))
           EOF 15
           [Some (mkCommit (String.append "h1" (String LF EmptyString)) "n" "e" "1"
                    "1 file changed, 1 insertion, 1 deletion"
                    [mkFile "x" 0 "" "" (unlines ["@@ -1 +1 @@"; "-a"; "+b"])
                       false false false])]
           (mkCommit (String.append "h1" (String LF EmptyString)) "n" "e" "1"
              "1 file changed, 1 insertion, 1 deletion"
              [mkFile "x" 0 "" "" (unlines ["@@ -1 +1 @@"; "-a"; "+b"]) false false false]));
    [vm_compute; reflexivity|left; reflexivity|left; reflexivity].
Defined.

(** ** A blank line after the metadata *)

Lemma readTrimmed_line (r : Reader) (l rest : string) :
  noLF l = true -> pending r = l ++ String LF rest ->
  readTrimmed r = Ret (l, withPending r rest).
Proof.
  intros Hl E. unfold readTrimmed. rewrite (ReadString_line r l rest Hl E).
  unfold withoutLastByte. destruct (l ++ String LF EmptyString) eqn:El.
  - destruct l; discriminate.
  - rewrite <- El, dropLast_app. reflexivity.
Qed.

(** X29. A blank line right after the four metadata lines of a commit ends
    [parseLog2]: the commit is returned, with the line feed of its first line
    in its hash, and what follows in the stream is not read. *)
Theorem parseLog2_blank_line_ends (hash name email time rest : string)
  (end_ : error) (maxBytes : Z) :
  noLF hash = true -> noLF name = true -> noLF email = true -> noLF time = true ->
  parseLog2 (unlines (metadata hash name email time ++ [EmptyString]) ++ rest)
            end_ maxBytes
  = Ret [Some (mkCommit (hash ++ String LF EmptyString) name email time EmptyString [])].
Proof.
  intros Hh Hn He Ht. unfold parseLog2.
  set (data := unlines _ ++ rest).
  assert (E : data = ("c " ++ hash) ++ String LF (("a " ++ name) ++ String LF
                       (("m " ++ email) ++ String LF (("t " ++ time) ++ String LF
                         (EmptyString ++ String LF rest))))).
  { unfold data, metadata. cbn [List.app unlines]. string_norm. reflexivity. }
  replace (len data + 2) with (S (len data + 1)) by lia.
  cbn [commitsLoop].
  rewrite (ReadString_line (NewReader data end_) ("c " ++ hash) _ Hh E).
  cbn [andb]. change (("c " ++ hash) ++ String LF EmptyString)
    with ("c " ++ (hash ++ String LF EmptyString)).
  change 2 with (len "c "). rewrite sliceFrom_app. cbn [bind].
  erewrite (readTrimmed_line _ ("a " ++ name)); [|exact Hn|reflexivity].
  cbn [bind fst snd]. unfold newCommit. cbn [append].
  rewrite assignField_last. cbn [bind].
  erewrite (readTrimmed_line _ ("m " ++ email)); [|exact He|reflexivity].
  cbn [bind fst snd append]. rewrite assignField_last. cbn [bind].
  erewrite (readTrimmed_line _ ("t " ++ time)); [|exact Ht|reflexivity].
  cbn [bind fst snd append]. rewrite assignField_last. cbn [bind].
  erewrite (readTrimmed_line _ EmptyString); [|reflexivity|reflexivity].
  cbn [bind fst snd]. reflexivity.
Qed.

Lemma parseLog2_blank_line_ends_witness :
  parseLog2 (unlines (metadata "h1" "n" "e" "1" ++ [""])
             ++ unlines (metadata "h0" "n" "e" "0" ++ [""]))
            EOF 100
  = Ret [Some (mkCommit (String.append "h1" (String LF EmptyString)) "n" "e" "1" "" [])].
Proof.
  apply (parseLog2_blank_line_ends "h1" "n" "e" "1"
           (unlines (metadata "h0" "n" "e" "0" ++ [""])) EOF 100); reflexivity.
Defined.

(** ** A well-formed log *)

Lemma lastTarget_none (s : string) : without " " s = true -> lastTarget s = None.
Proof.
  induction s as [|c s IH]; [reflexivity|]. intros H. simpl in H.
  apply andb_true_iff in H. destruct H as [Hc Hs]. apply negb_true_iff in Hc.
  cbn [lastTarget]. rewrite (IH Hs).
  assert (Hp : HasPrefix (String c s) " b/" = false).
  { unfold HasPrefix. cbn [prefix].
    destruct (ascii_dec " " c) as [<-|_]; [discriminate Hc|reflexivity]. }
  rewrite Hp. reflexivity.
Qed.

Lemma lastTarget_cons (c : ascii) (s : string) :
  lastTarget (String c s)
  = match lastTarget s with
    | Some (g1, g2) => Some (String c g1, g2)
    | None =>
        if HasPrefix (String c s) " b/" && (3 <? len (String c s))%nat
        then Some (EmptyString, substring 3 (len (String c s) - 3) (String c s))
        else None
    end.
Proof. reflexivity. Qed.

Lemma lastTarget_split (old new : string) :
  without " " old = true -> without " " new = true -> new <> EmptyString ->
  lastTarget (old ++ " b/" ++ new) = Some (old, new).
Proof.
  intros Ho Hn Hne. induction old as [|c old IH].
  - change (EmptyString ++ " b/" ++ new) with (String " " ("b/" ++ new)).
    rewrite lastTarget_cons.
    rewrite (lastTarget_none ("b/" ++ new)) by (simpl; exact Hn).
    change (String " " ("b/" ++ new)) with (" b/" ++ new).
    unfold HasPrefix. rewrite prefix_app, len_app. change (len " b/") with 3.
    destruct new as [|d new]; [contradiction|].
    change (3 <? 3 + len (String d new))%nat with true. cbn [andb]. f_equal. f_equal.
    replace (3 + len (String d new) - 3) with (len (String d new)) by lia.
    change 3 with (len " b/") at 1. rewrite substring_skip. apply substring_all.
  - simpl in Ho. apply andb_true_iff in Ho. destruct Ho as [_ Ho].
    change ((String c old) ++ " b/" ++ new) with (String c (old ++ " b/" ++ new)).
    rewrite lastTarget_cons, (IH Ho). reflexivity.
Qed.

Lemma path2_inv (p : string) :
  path2 p = true -> noLF p = true /\ without " " p = true /\ p <> EmptyString.
Proof.
  unfold path2. intros H. apply andb_true_iff in H. destruct H as [H Hne].
  apply andb_true_iff in H. destruct H as [Hn Hw]. repeat split; try assumption.
  intros ->. discriminate.
Qed.

(** The expression for the file names on the [diff --git] line of two paths
    without blanks. *)
Lemma filenameRegex_paths (old new : string) :
  path2 old = true -> path2 new = true ->
  filenameRegex ("diff --git a/" ++ old ++ " b/" ++ new) = Some (old, new).
Proof.
  intros Ho Hn. destruct (path2_inv _ Ho) as (Ho1 & Ho2 & Ho3).
  destruct (path2_inv _ Hn) as (Hn1 & Hn2 & Hn3).
  unfold filenameRegex.
  assert (Hp : HasPrefix ("diff --git a/" ++ old ++ " b/" ++ new) "diff --git a/" = true)
    by apply prefix_app.
  assert (Hl : noLF ("diff --git a/" ++ old ++ " b/" ++ new) = true).
  { rewrite !noLF_app, Ho1, Hn1. reflexivity. }
  rewrite Hp, Hl. cbn [andb].
  rewrite len_app. change (len "diff --git a/") with 13.
  replace (13 + len (old ++ " b/" ++ new) - 13) with (len (old ++ " b/" ++ new)) by lia.
  change 13 with (len "diff --git a/") at 1. rewrite substring_skip, substring_all.
  rewrite (lastTarget_split old new Ho2 Hn2 Hn3).
  destruct old as [|c old]; [contradiction|reflexivity].
Qed.

Lemma line2_inv (l : string) :
  line2 l = true ->
  noLF l = true /\ (len l =? 0)%nat = false /\ HasPrefix l "diff --git" = false.
Proof.
  unfold line2. intros H. apply andb_true_iff in H. destruct H as [H Hd].
  apply andb_true_iff in H. destruct H as [Hn He].
  apply negb_true_iff in Hd. apply negb_true_iff in He.
  repeat split; try assumption. destruct l; [discriminate|reflexivity].
Qed.

Lemma payload_line (l : string) :
  noLF l = true -> payload (l ++ String LF EmptyString) = len l.
Proof. intros H. rewrite payload_app, (payload_noLF _ H). simpl. lia. Qed.

(** One line of a change. *)
Lemma filesLoop_line (fuel : nat) (maxBytes : Z) (st : state) (f : File) (b : bool)
  (n : Z) (l : string) (r : Reader) (nxt rest : string) :
  line2 l = true -> noLF nxt = true ->
  pending r = nxt ++ String LF rest ->
  (n + Z.of_nat (payload (unlines (kept b [l]))) <= maxBytes)%Z ->
  filesLoop (S fuel) maxBytes (mkLog2 st (Some f) b n) l r
  = filesLoop fuel maxBytes
      (mkLog2 st (Some (afterLines f b [l])) (b || startsAt l)
              (n + Z.of_nat (payload (unlines (kept b [l])))))
      nxt (withPending r rest).
Proof.
  intros Hl Hn E Hcap. destruct (line2_inv _ Hl) as (Hl1 & Hl2 & Hl3).
  cbn [filesLoop]. rewrite Hl2, Hl3.
  unfold loadFile. cbn [currentFile store isContent bytesRead bind].
  rewrite (ReadString_line r nxt rest Hn E), chomp_line.
  unfold afterLines, kept in *. cbn [contentLines existsb] in *.
  destruct f as [fn sz hs ofn ct tr cr dl]. cbn [Filename Size HumanSize OldFilename
    Content Truncated IsCreated IsDeleted].
  destruct (HasPrefix l "new"), (HasPrefix l "deleted"); cbn [bind currentFile store
    isContent bytesRead setIsCreated setIsDeleted Filename Size HumanSize OldFilename
    Content Truncated IsCreated IsDeleted orb];
    rewrite ?orb_true_r, ?orb_false_r;
    destruct b, (startsAt l); cbn [orb isContent currentFile bind store bytesRead
      unlines setContent setTruncated Filename Size HumanSize OldFilename
      Content Truncated IsCreated IsDeleted] in *;
    rewrite ?(payload_line l Hl1) in *; rewrite ?app_empty_string;
    try (destruct (Z.gtb_spec (n + Z.of_nat (len l)) maxBytes) as [Hgt|_]; [lia|]);
    try (change (payload EmptyString) with 0; rewrite Z.add_0_r);
    reflexivity.
Qed.

(** The [diff --git] line of a change. *)
Lemma filesLoop_diff (fuel : nat) (maxBytes : Z) (s : log2) (st' : state)
  (old new : string) (r : Reader) (l1 rest : string) :
  path2 old = true -> path2 new = true -> noLF l1 = true ->
  pending r = l1 ++ String LF rest ->
  flushFile s = Ret st' ->
  filesLoop (S fuel) maxBytes s ("diff --git a/" ++ old ++ " b/" ++ new) r
  = filesLoop fuel maxBytes
      (mkLog2 st'
         (Some (mkFile new 0 EmptyString
                  (if String.eqb old new then EmptyString else old)
                  EmptyString false false false))
         false 0)
      l1 (withPending r rest).
Proof.
  intros Ho Hn Hl E Hflush. cbn [filesLoop].
  rewrite (filenameRegex_paths old new Ho Hn).
  assert (Hp : HasPrefix ("diff --git a/" ++ old ++ " b/" ++ new) "diff --git" = true).
  { change ("diff --git a/" ++ old ++ " b/" ++ new)
      with ("diff --git" ++ (" a/" ++ old ++ " b/" ++ new)). apply prefix_app. }
  rewrite Hp.
  change (len ("diff --git a/" ++ old ++ " b/" ++ new) =? 0)%nat with false. cbv iota.
  rewrite Hflush. cbn [bind]. rewrite (readTrimmed_line r l1 rest Hl E). cbn [bind fst snd].
  destruct (String.eqb old new); reflexivity.
Qed.

Lemma kept_cons (b : bool) (l : string) (ls : list string) :
  kept b (l :: ls) = (kept b [l] ++ kept (b || startsAt l) ls)%list.
Proof. unfold kept. destruct b; simpl; [reflexivity|]. destruct (startsAt l); reflexivity. Qed.

Lemma afterLines_cons (f : File) (b : bool) (l : string) (ls : list string) :
  afterLines (afterLines f b [l]) (b || startsAt l) ls = afterLines f b (l :: ls).
Proof.
  unfold afterLines. cbn [Filename Size HumanSize OldFilename Content Truncated
    IsCreated IsDeleted existsb].
  rewrite (kept_cons b l ls), unlines_app, app_assoc_string, !orb_false_r, !orb_assoc.
  reflexivity.
Qed.

(** The lines of a change, up to the line [nxt] that follows them. *)
Lemma filesLoop_lines (maxBytes : Z) (st : state) (ls : list string) :
  forall (l : string) (fuel : nat) (f : File) (b : bool) (n : Z) (r : Reader)
         (nxt rest : string),
  forallb line2 (l :: ls) = true -> noLF nxt = true ->
  pending r = unlines ls ++ nxt ++ String LF rest ->
  (n + Z.of_nat (payload (unlines (kept b (l :: ls)))) <= maxBytes)%Z ->
  filesLoop (S (List.length ls) + fuel) maxBytes (mkLog2 st (Some f) b n) l r
  = filesLoop fuel maxBytes
      (mkLog2 st (Some (afterLines f b (l :: ls))) (b || existsb startsAt (l :: ls))
              (n + Z.of_nat (payload (unlines (kept b (l :: ls))))))
      nxt (withPending r rest).
Proof.
  induction ls as [|l' ls IH]; intros l fuel f b n r nxt rest Hls Hn E Hcap.
  - cbn [forallb] in Hls. rewrite andb_true_r in Hls.
    cbn [List.length Nat.add existsb]. rewrite orb_false_r.
    apply filesLoop_line; assumption.
  - cbn [forallb] in Hls. apply andb_true_iff in Hls. destruct Hls as [Hl Hls].
    pose proof Hls as Hls'. cbn [forallb] in Hls'. apply andb_true_iff in Hls'.
    destruct Hls' as [Hl' _]. destruct (line2_inv _ Hl') as (Hl'1 & _ & _).
    rewrite (kept_cons b l (l' :: ls)), unlines_app, payload_app, Nat2Z.inj_add in Hcap.
    cbn [unlines] in E. rewrite app_assoc_string in E. cbn [append] in E.
    cbn [List.length]. change (S (S (List.length ls)) + fuel) with (S (S (List.length ls) + fuel)).
    rewrite (filesLoop_line _ maxBytes st f b n l r l' _ Hl Hl'1 E) by lia.
    erewrite (IH l' fuel); [|exact Hls|exact Hn|reflexivity|lia].
    rewrite afterLines_cons, withPending_withPending.
    rewrite (kept_cons b l (l' :: ls)), unlines_app, payload_app, Nat2Z.inj_add.
    cbn [existsb]. rewrite !orb_assoc, Z.add_assoc. reflexivity.
Qed.

Lemma change2Fits_inv (maxBytes : Z) (ch : change2) :
  change2Fits maxBytes ch = true ->
  path2 (c2Old ch) = true /\ path2 (c2New ch) = true
  /\ forallb line2 (c2Lines ch) = true
  /\ (Z.of_nat (payload (unlines (contentLines (c2Lines ch)))) <= maxBytes)%Z.
Proof.
  unfold change2Fits. intros H.
  apply andb_true_iff in H. destruct H as [H H4].
  apply andb_true_iff in H. destruct H as [H H3].
  apply andb_true_iff in H. destruct H as [H1 H2].
  repeat split; try assumption. apply Z.leb_le. exact H4.
Qed.

(** A change, from its [diff --git] line to the line [nxt] after it. *)
Lemma filesLoop_change (fuel : nat) (maxBytes : Z) (s : log2) (st' : state)
  (ch : change2) (r : Reader) (nxt rest : string) :
  change2Fits maxBytes ch = true ->
  flushFile s = Ret st' ->
  noLF nxt = true ->
  pending r = unlines (c2Lines ch) ++ nxt ++ String LF rest ->
  exists b n,
    filesLoop (S (List.length (c2Lines ch)) + fuel) maxBytes s
              ("diff --git a/" ++ c2Old ch ++ " b/" ++ c2New ch) r
    = filesLoop fuel maxBytes (mkLog2 st' (Some (change2Record ch)) b n)
                nxt (withPending r rest).
Proof.
  intros Hfit Hflush Hn E.
  destruct (change2Fits_inv _ _ Hfit) as (Ho & Hnew & Hls & Hcap).
  unfold change2Record. destruct (c2Lines ch) as [|l ls] eqn:El.
  - exists false, 0%Z. cbn [List.length Nat.add unlines append] in *.
    exact (filesLoop_diff fuel maxBytes s st' _ _ r nxt rest Ho Hnew Hn E Hflush).
  - pose proof Hls as Hls'. cbn [forallb] in Hls'. apply andb_true_iff in Hls'.
    destruct Hls' as [Hl _]. destruct (line2_inv _ Hl) as (Hl1 & _ & _).
    cbn [unlines] in E. rewrite app_assoc_string in E. cbn [append] in E.
    cbn [List.length]. change (S (S (List.length ls)) + fuel) with (S (S (List.length ls) + fuel)).
    rewrite (filesLoop_diff _ maxBytes s st' _ _ r l _ Ho Hnew Hl1 E Hflush).
    erewrite (filesLoop_lines maxBytes st' ls l fuel);
      [|exact Hls|exact Hn|reflexivity|unfold kept; lia].
    rewrite withPending_withPending. eexists. eexists. reflexivity.
Qed.

Lemma flushFile_last (cs : list (option nat)) (h : list Commit) (c : Commit) (hp : bool)
  (cur : option File) (b : bool) (n : Z) :
  flushFile (mkLog2 (mkState cs (h ++ [c]) (Some (List.length h)) hp) cur b n)
  = Ret (mkState cs (h ++ [setFiles c (Files c ++ filesOf cur)]) (Some (List.length h)) hp).
Proof.
  unfold flushFile. cbn [currentFile store]. destruct cur as [f|]; cbn [filesOf].
  - rewrite (appendFile_ok _ c f (loadCommit_last cs h c hp)), storeCommit_last. reflexivity.
  - rewrite app_nil_r. destruct c; reflexivity.
Qed.

Lemma changes2Lines_cons (ch : change2) (chs : list change2) :
  changes2Lines (ch :: chs)
  = ("diff --git a/" ++ c2Old ch ++ " b/" ++ c2New ch)
    :: List.app (c2Lines ch) (changes2Lines chs).
Proof. unfold changes2Lines, change2Lines. cbn [map concat List.app]. rewrite <- app_assoc. reflexivity. Qed.

(** The first line of the changes: a [diff --git] line or the blank line. *)
Lemma changes2Lines_head (maxBytes : Z) (chs : list change2) :
  forallb (change2Fits maxBytes) chs = true ->
  exists l ls, changes2Lines chs = l :: ls /\ noLF l = true.
Proof.
  destruct chs as [|ch chs]; intros H.
  - exists EmptyString, []. split; reflexivity.
  - rewrite changes2Lines_cons. eexists. eexists. split; [reflexivity|].
    cbn [forallb] in H. apply andb_true_iff in H. destruct H as [H _].
    destruct (change2Fits_inv _ _ H) as (Ho & Hn & _).
    destruct (path2_inv _ Ho) as (Ho1 & _). destruct (path2_inv _ Hn) as (Hn1 & _).
    rewrite !noLF_app, Ho1, Hn1. reflexivity.
Qed.

(** The changes of an entry, from the first line on: every record is appended
    to the commit. *)
Lemma filesLoop_changes (maxBytes : Z) (chs : list change2) :
  forall (fuel : nat) (cs : list (option nat)) (h : list Commit) (c : Commit) (hp : bool)
         (cur : option File) (b : bool) (n : Z) (r : Reader) (l : string)
         (ls : list string) (rest : string),
  forallb (change2Fits maxBytes) chs = true ->
  changes2Lines chs = l :: ls ->
  pending r = unlines ls ++ rest ->
  len (pending r) < fuel ->
  exists cur' b' n',
    filesLoop fuel maxBytes
      (mkLog2 (mkState cs (h ++ [c]) (Some (List.length h)) hp) cur b n) l r
    = Ret (mkLog2 (mkState cs
                     (h ++ [setFiles c (Files c ++ filesOf cur ++ map change2Record chs)])
                     (Some (List.length h)) hp)
                  cur' b' n',
           withPending r rest).
Proof.
  induction chs as [|ch chs IH];
    intros fuel cs h c hp cur b n r l ls rest Hfit EL E Hf.
  - injection EL as <- <-. destruct fuel as [|fuel]; [lia|].
    cbn [filesLoop len String.length Nat.eqb]. rewrite flushFile_last. cbn [bind].
    cbn [map]. rewrite app_nil_r. cbn [unlines append] in E.
    exists cur, false, n. f_equal. f_equal.
    destruct r as [p f0 k]. simpl in E. subst p. reflexivity.
  - rewrite changes2Lines_cons in EL. injection EL as <- <-.
    cbn [forallb] in Hfit. apply andb_true_iff in Hfit. destruct Hfit as [Hch Hchs].
    destruct (changes2Lines_head _ _ Hchs) as (nxt & ls' & EL' & Hnxt).
    rewrite EL', unlines_app in E. cbn [unlines] in E.
    rewrite !app_assoc_string in E. cbn [append] in E.
    assert (Hfuel : exists f, fuel = S (List.length (c2Lines ch)) + f
                              /\ len (unlines ls' ++ rest) < f).
    { exists (fuel - S (List.length (c2Lines ch))). rewrite E in Hf.
      rewrite !len_app in Hf. change (len (String LF ?x)) with (S (len x)) in Hf.
      pose proof (unlines_len (c2Lines ch)). rewrite len_app in *. lia. }
    destruct Hfuel as (f & -> & Hf').
    destruct (filesLoop_change f maxBytes _ _ ch r nxt (unlines ls' ++ rest) Hch
                (flushFile_last cs h c hp cur b n) Hnxt E) as (b1 & n1 & Hstep).
    cbn [append] in Hstep |- *. rewrite Hstep. clear Hstep.
    destruct (IH f cs h (setFiles c (Files c ++ filesOf cur)) hp
                (Some (change2Record ch)) b1 n1
                (withPending r (unlines ls' ++ rest)) nxt ls' rest Hchs EL' eq_refl Hf')
      as (cur' & b' & n' & ->).
    exists cur', b', n'. rewrite withPending_withPending.
    cbn [Files setFiles filesOf map]. rewrite <- !app_assoc. reflexivity.
Qed.

Lemma entry2Fits_inv (maxBytes : Z) (en : entry2) :
  entry2Fits maxBytes en = true ->
  noLF (e2Hash en) = true /\ noLF (e2Name en) = true /\ noLF (e2Email en) = true
  /\ noLF (e2Time en) = true /\ noLF (e2Stat en) = true
  /\ forallb (change2Fits maxBytes) (e2Changes en) = true.
Proof.
  unfold entry2Fits. intros H.
  apply andb_true_iff in H. destruct H as [H H6].
  apply andb_true_iff in H. destruct H as [H H5].
  apply andb_true_iff in H. destruct H as [H H4].
  apply andb_true_iff in H. destruct H as [H H3].
  apply andb_true_iff in H. destruct H as [H1 H2].
  repeat split; assumption.
Qed.

(** One entry of a well-formed log: one iteration of the outer loop. *)
Lemma commitsLoop_entry (fuel : nat) (maxBytes : Z) (s : log2) (r : Reader)
  (en : entry2) (rest : string) :
  entry2Fits maxBytes en = true ->
  pending r = unlines (entry2Lines en) ++ rest ->
  len (pending r) + 2 <= S fuel ->
  exists s',
    commitsLoop (S fuel) maxBytes s true r
    = commitsLoop fuel maxBytes s' true (withPending r rest)
    /\ store s' = afterEntry2 (store s) en.
Proof.
  intros Hfit E Hf.
  destruct (entry2Fits_inv _ _ Hfit) as (Hh & Hn & He & Ht & Hs & Hchs).
  destruct (changes2Lines_head _ _ Hchs) as (l0 & ls0 & EL & Hl0).
  assert (E' : pending r
               = ("c " ++ e2Hash en) ++ String LF
                 (("a " ++ e2Name en) ++ String LF
                  (("m " ++ e2Email en) ++ String LF
                   (("t " ++ e2Time en) ++ String LF
                    ((" " ++ e2Stat en) ++ String LF
                     (EmptyString ++ String LF
                      (l0 ++ String LF (unlines ls0 ++ rest)))))))).
  { rewrite E. unfold entry2Lines, metadata. fold (changes2Lines (e2Changes en)).
    rewrite EL. cbn [List.app unlines]. string_norm. reflexivity. }
  clear E. rename E' into E.
  assert (Hlen : len (unlines ls0 ++ rest) < fuel).
  { rewrite E in Hf.
    repeat first [ rewrite len_app in Hf
                 | progress change (len (String LF ?x)) with (S (len x)) in Hf ].
    rewrite len_app. lia. }
  cbn [commitsLoop].
  rewrite (ReadString_line r ("c " ++ e2Hash en) _ Hh E). cbn [andb].
  change (("c " ++ e2Hash en) ++ String LF EmptyString)
    with ("c " ++ (e2Hash en ++ String LF EmptyString)).
  change 2 with (len "c "). rewrite sliceFrom_app. cbn [bind].
  erewrite (readTrimmed_line _ ("a " ++ e2Name en)); [|exact Hn|reflexivity].
  cbn [bind fst snd]. unfold newCommit. cbn [append].
  rewrite assignField_last. cbn [bind].
  erewrite (readTrimmed_line _ ("m " ++ e2Email en)); [|exact He|reflexivity].
  cbn [bind fst snd append]. rewrite assignField_last. cbn [bind].
  erewrite (readTrimmed_line _ ("t " ++ e2Time en)); [|exact Ht|reflexivity].
  cbn [bind fst snd append]. rewrite assignField_last. cbn [bind].
  erewrite (readTrimmed_line _ (" " ++ e2Stat en)); [|exact Hs|reflexivity].
  cbn [bind fst snd append]. change (Ascii.eqb " " " ") with true. cbn [negb].
  change (String " " (e2Stat en)) with (" " ++ e2Stat en).
  change 1 with (len " "). rewrite sliceFrom_app. cbn [bind].
  rewrite loadCommit_last. cbn [bind]. rewrite storeCommit_last.
  erewrite (readTrimmed_line _ EmptyString); [|reflexivity|reflexivity].
  cbn [bind fst snd].
  erewrite (readTrimmed_line _ l0); [|exact Hl0|reflexivity].
  cbn [bind fst snd]. rewrite !withPending_withPending.
  destruct (filesLoop_changes maxBytes (e2Changes en) fuel
              (commits (store s)) (heap (store s))
              (setChanged
                 (setTimestamp
                    (setAuthorEmail
                       (setAuthorName
                          (mkCommit (e2Hash en ++ String LF EmptyString) EmptyString
                             EmptyString EmptyString EmptyString [])
                          (e2Name en))
                       (e2Email en))
                    (e2Time en))
                 (ReplaceAll (ReplaceAll (e2Stat en) "(+)" EmptyString) "(-)" EmptyString))
              (headerParsed (store s)) None (isContent s) (bytesRead s)
              (withPending r (unlines ls0 ++ rest)) l0 ls0 rest Hchs EL eq_refl Hlen)
    as (cur' & b' & n' & Hloop).
  rewrite Hloop. cbn [bind fst snd]. rewrite withPending_withPending.
  eexists. split; [reflexivity|]. reflexivity.
Qed.

Lemma afterEntry2_fold (es : list entry2) :
  forall st : state,
  commits (fold_left afterEntry2 es st)
  = (commits st ++ map Some (seq (List.length (heap st)) (List.length es)))%list
  /\ heap (fold_left afterEntry2 es st) = (heap st ++ map entry2Commit es)%list.
Proof.
  induction es as [|en es IH]; intros st.
  - simpl. rewrite !app_nil_r. auto.
  - cbn [fold_left]. destruct (IH (afterEntry2 st en)) as [-> ->].
    unfold afterEntry2. cbn [commits heap]. rewrite length_app. cbn [List.length map seq].
    rewrite Nat.add_1_r, <- !app_assoc. auto.
Qed.

Lemma deref_entries2 (es : list entry2) :
  deref (fold_left afterEntry2 es initialState)
  = map (fun en => Some (entry2Commit en)) es.
Proof.
  unfold deref. destruct (afterEntry2_fold es initialState) as [-> ->].
  cbn [initialState commits heap List.app List.length].
  rewrite map_map.
  pose proof (nth_error_seq [] (map entry2Commit es)) as H.
  cbn [List.app List.length] in H. rewrite length_map in H.
  transitivity (map Some (map entry2Commit es)); [exact H|apply map_map].
Qed.

Lemma commitsLoop_entries (maxBytes : Z) (es : list entry2) :
  forall (fuel : nat) (s : log2) (r : Reader),
  forallb (entry2Fits maxBytes) es = true ->
  pending r = unlines (concat (map entry2Lines es)) ->
  len (pending r) + 2 <= fuel ->
  if isEOF (fin r)
  then exists s', commitsLoop fuel maxBytes s true r = Ret s'
                  /\ store s' = fold_left afterEntry2 es (store s)
  else commitsLoop fuel maxBytes s true r = Panic SliceOutOfRange.
Proof.
  induction es as [|en es IH]; intros fuel s r Hfit E Hf.
  - destruct fuel as [|fuel]; [lia|]. cbn [commitsLoop]. unfold ReadString.
    simpl in E. rewrite E. simpl. destruct (isEOF (fin r)); [|reflexivity].
    exists s. split; reflexivity.
  - cbn [forallb] in Hfit. apply andb_true_iff in Hfit. destruct Hfit as [Hen Hes].
    cbn [map concat] in E. rewrite unlines_app in E.
    destruct fuel as [|fuel]; [lia|].
    destruct (commitsLoop_entry fuel maxBytes s r en _ Hen E Hf) as (s1 & -> & Hs1).
    assert (Hlen : 5 <= len (unlines (entry2Lines en))).
    { pose proof (unlines_len (entry2Lines en)) as Hl.
      assert (Hn : 5 <= List.length (entry2Lines en)).
      { unfold entry2Lines. rewrite !length_app. cbn [metadata List.length]. lia. }
      lia. }
    rewrite E, len_app in Hf.
    specialize (IH fuel s1 (withPending r (unlines (concat (map entry2Lines es))))
                  Hes eq_refl ltac:(simpl; lia)).
    cbn [fin withPending] in IH. destruct (isEOF (fin r)); [|exact IH].
    destruct IH as (s' & Hrun & Hstore). exists s'. split; [exact Hrun|].
    rewrite Hstore, Hs1. reflexivity.
Qed.

(** X30. [parseLog2] parses a well-formed log in full, up to a clean end of the
    stream. For entries made of the four metadata lines, a shortstat line,
    a blank line, the changes and a closing blank line, where the paths on
    the [diff --git] lines have no blank and the content of each change is
    within the cap, it returns one commit per entry, in order: the hash with
    the line feed of its line, the shortstat text without its [(+)] and [(-)],
    and one record per change, with the new path as name, the old path when it
    differs, the lines from the first hunk header on as content, and the
    created and deleted flags of the [new] and [deleted] lines. When the
    stream ends with an error other than [io.EOF], the run panics after the
    last entry. *)
Theorem parseLog2_well_formed (es : list entry2) (end_ : error) (maxBytes : Z) :
  forallb (entry2Fits maxBytes) es = true ->
  parseLog2 (unlines (concat (map entry2Lines es))) end_ maxBytes
  = if isEOF end_ then Ret (map (fun en => Some (entry2Commit en)) es)
    else Panic SliceOutOfRange.
Proof.
  intros Hfit. unfold parseLog2.
  pose proof (commitsLoop_entries maxBytes es
                (len (unlines (concat (map entry2Lines es))) + 2)
                (mkLog2 initialState None false 0)
                (NewReader (unlines (concat (map entry2Lines es))) end_)
                Hfit eq_refl (Nat.le_refl _)) as H.
  cbn [fin NewReader NewReaderSize] in H. destruct (isEOF end_).
  - destruct H as (s' & -> & Hs). cbn [bind]. rewrite Hs. cbn [store].
    rewrite deref_entries2. reflexivity.
  - rewrite H. reflexivity.
Qed.

Lemma parseLog2_well_formed_witness :
  parseLog2
    (unlines
       (concat
          (map entry2Lines
             [mkEntry2 "h2" "n" "e" "2" "2 files changed, 1 insertion(+), 1 deletion(-)"
                [mkChange2 "x" "x" ["index 1..2 100644"; "--- a/x"; "+++ b/x";
                                    "@@ -1 +1 @@"; "-a"; "+b"];
                 mkChange2 "y" "z" ["similarity index 100%"; "rename from y"; "rename to z"]];
              mkEntry2 "h1" "n" "e" "1" "1 file changed, 1 insertion(+)"
                [mkChange2 "x" "x" ["new file mode 100644"; "@@ -0,0 +1 @@"; "+a"]]])))
    EOF 20
  = Ret [Some (mkCommit (String.append "h2" (String LF EmptyString)) "n" "e" "2"
                 "2 files changed, 1 insertion, 1 deletion"
                 [mkFile "x" 0 "" "" (unlines ["@@ -1 +1 @@"; "-a"; "+b"]) false false false;
                  mkFile "z" 0 "" "y" "" false false false]);
         Some (mkCommit (String.append "h1" (String LF EmptyString)) "n" "e" "1"
                 "1 file changed, 1 insertion"
                 [mkFile "x" 0 "" "" (unlines ["@@ -0,0 +1 @@"; "+a"]) false true false])].
Proof.
  apply (parseLog2_well_formed
           [mkEntry2 "h2" "n" "e" "2" "2 files changed, 1 insertion(+), 1 deletion(-)"
              [mkChange2 "x" "x" ["index 1..2 100644"; "--- a/x"; "+++ b/x";
                                  "@@ -1 +1 @@"; "-a"; "+b"];
               mkChange2 "y" "z" ["similarity index 100%"; "rename from y"; "rename to z"]];
            mkEntry2 "h1" "n" "e" "1" "1 file changed, 1 insertion(+)"
              [mkChange2 "x" "x" ["new file mode 100644"; "@@ -0,0 +1 @@"; "+a"]]]
           EOF 20).
  vm_compute. reflexivity.
Defined.
